(** * Undawn: the combat and wave engine

    A shallow embedding of the simulation core of the Undawn lane defence
    game (classes [Unit], [Minion], [Hero], [Tile], [Lane] and [Game]) and
    the properties of it that the specification states.

    Conventions of the embedding.
    - A JavaScript number is a rational ([Q]): arithmetic is exact, there is
      no rounding, no [NaN] and no infinity.  Lane and tile indices, the wave
      number and the wave counters, which the engine only ever computes as
      integers, are in [Z].
    - Objects live in a heap ([Game.heap]) and containers hold references
      ([ref]), so that the aliasing between a tile, the lane's defender list
      and a caller's own reference to a unit is the one of the source.
    - A method is a function in the state-and-exception monad [M]: it takes
      the game state and returns a completion (a value, or a thrown
      [TypeError]) with the state it leaves behind.
    - [Math.random] reads an oracle [random : nat -> Q]; [setTimeout] puts the
      delay of the callback in [Game.timeouts]; a DOM floating text is
      recorded in [Game.floatingTexts]. *)

From Stdlib Require Import ZArith QArith Qround Qabs Qminmax Lqa Lia Floats Ascii String.
From stdpp Require Import base option list gmap strings.

(** ** Numbers *)

Definition Qlt_bool (x y : Q) : bool := negb (Qle_bool y x).

(** [arr[i]] for a number [i] that is an integer: [undefined] ([None])
    outside [0 .. length-1]. *)
Definition at_index {A : Type} (l : list A) (i : Z) : option A :=
  if (i <? 0)%Z then None else l !! Z.to_nat i.

(** [arr.indexOf(x)] on an array of references; [None] stands for [-1]. *)
Fixpoint indexOf (x : nat) (l : list nat) : option nat :=
  match l with
  | [] => None
  | y :: l' => if Nat.eqb y x then Some O else option_map S (indexOf x l')
  end.

(** [String.prototype.toLowerCase] on ASCII text. *)
Definition lower_ascii (c : ascii) : ascii :=
  let n := nat_of_ascii c in
  if (Nat.leb 65 n && Nat.leb n 90)%bool then ascii_of_nat (n + 32) else c.

Fixpoint toLowerCase (s : string) : string :=
  match s with
  | EmptyString => EmptyString
  | String c s' => String (lower_ascii c) (toLowerCase s')
  end.

(** ** Completions *)

Inductive JsError : Type := TypeError (msg : string).

Inductive completion (A : Type) : Type :=
| Normal (a : A)
| Throw (e : JsError).
Arguments Normal {A} a.
Arguments Throw {A} e.

(** ** The data model *)

(** A reference to a unit object. *)
Definition ref : Type := nat.

Inductive MinionClass : Type := Ashling | Gravelim | Gnarlroot | DaemonAltar | Dreadchant.
Inductive HeroClass : Type := Militiant | AshboltScout | Oathblade.
Inductive UnitClass : Type := MinionOf (c : MinionClass) | HeroOf (c : HeroClass).

(** [class Unit] and the fields its subclasses add.  A field that a class
    does not have ([cooldown] on a hero, [pulseTimer] outside [DaemonAltar],
    [direction] on a minion, [baseAttackSpeed] outside [Oathblade]) is [0]
    and never read. *)
Module Unit.
Record t : Type := mk {
    cls : UnitClass;
    lane : Z;
    position : Q;
    health : Q;
    maxHealth : Q;
    damage : Q;
    attackSpeed : Q;
    attackRange : Q;
    moveSpeed : Q;
    attackCooldown : Q;
    cooldown : Q;
    pulseTimer : Q;
    direction : Q;
    baseAttackSpeed : Q
  }.

Definition with_position (v : Q) (x : t) : t :=
    {| cls := cls x; lane := lane x; position := v; health := health x; maxHealth := maxHealth x; damage := damage x; attackSpeed := attackSpeed x; attackRange := attackRange x; moveSpeed := moveSpeed x; attackCooldown := attackCooldown x; cooldown := cooldown x; pulseTimer := pulseTimer x; direction := direction x; baseAttackSpeed := baseAttackSpeed x |}.
Definition with_health (v : Q) (x : t) : t :=
    {| cls := cls x; lane := lane x; position := position x; health := v; maxHealth := maxHealth x; damage := damage x; attackSpeed := attackSpeed x; attackRange := attackRange x; moveSpeed := moveSpeed x; attackCooldown := attackCooldown x; cooldown := cooldown x; pulseTimer := pulseTimer x; direction := direction x; baseAttackSpeed := baseAttackSpeed x |}.
Definition with_maxHealth (v : Q) (x : t) : t :=
    {| cls := cls x; lane := lane x; position := position x; health := health x; maxHealth := v; damage := damage x; attackSpeed := attackSpeed x; attackRange := attackRange x; moveSpeed := moveSpeed x; attackCooldown := attackCooldown x; cooldown := cooldown x; pulseTimer := pulseTimer x; direction := direction x; baseAttackSpeed := baseAttackSpeed x |}.
Definition with_damage (v : Q) (x : t) : t :=
    {| cls := cls x; lane := lane x; position := position x; health := health x; maxHealth := maxHealth x; damage := v; attackSpeed := attackSpeed x; attackRange := attackRange x; moveSpeed := moveSpeed x; attackCooldown := attackCooldown x; cooldown := cooldown x; pulseTimer := pulseTimer x; direction := direction x; baseAttackSpeed := baseAttackSpeed x |}.
Definition with_attackSpeed (v : Q) (x : t) : t :=
    {| cls := cls x; lane := lane x; position := position x; health := health x; maxHealth := maxHealth x; damage := damage x; attackSpeed := v; attackRange := attackRange x; moveSpeed := moveSpeed x; attackCooldown := attackCooldown x; cooldown := cooldown x; pulseTimer := pulseTimer x; direction := direction x; baseAttackSpeed := baseAttackSpeed x |}.
Definition with_moveSpeed (v : Q) (x : t) : t :=
    {| cls := cls x; lane := lane x; position := position x; health := health x; maxHealth := maxHealth x; damage := damage x; attackSpeed := attackSpeed x; attackRange := attackRange x; moveSpeed := v; attackCooldown := attackCooldown x; cooldown := cooldown x; pulseTimer := pulseTimer x; direction := direction x; baseAttackSpeed := baseAttackSpeed x |}.
Definition with_attackCooldown (v : Q) (x : t) : t :=
    {| cls := cls x; lane := lane x; position := position x; health := health x; maxHealth := maxHealth x; damage := damage x; attackSpeed := attackSpeed x; attackRange := attackRange x; moveSpeed := moveSpeed x; attackCooldown := v; cooldown := cooldown x; pulseTimer := pulseTimer x; direction := direction x; baseAttackSpeed := baseAttackSpeed x |}.
Definition with_cooldown (v : Q) (x : t) : t :=
    {| cls := cls x; lane := lane x; position := position x; health := health x; maxHealth := maxHealth x; damage := damage x; attackSpeed := attackSpeed x; attackRange := attackRange x; moveSpeed := moveSpeed x; attackCooldown := attackCooldown x; cooldown := v; pulseTimer := pulseTimer x; direction := direction x; baseAttackSpeed := baseAttackSpeed x |}.
Definition with_pulseTimer (v : Q) (x : t) : t :=
    {| cls := cls x; lane := lane x; position := position x; health := health x; maxHealth := maxHealth x; damage := damage x; attackSpeed := attackSpeed x; attackRange := attackRange x; moveSpeed := moveSpeed x; attackCooldown := attackCooldown x; cooldown := cooldown x; pulseTimer := v; direction := direction x; baseAttackSpeed := baseAttackSpeed x |}.
End Unit.

(** [class Tile]. *)
Module Tile.
Record t : Type := mk {
    laneIndex : Z;
    position : Z;
    minion : option ref
  }.

Definition create (laneIndex position : Z) : t :=
    {| laneIndex := laneIndex; position := position; minion := None |}.

Definition isEmpty (x : t) : bool :=
    match minion x with None => true | Some _ => false end.

Definition placeMinion (m : ref) (x : t) : bool * t :=
    if negb (isEmpty x) then (false, x)
    else (true, {| laneIndex := laneIndex x; position := position x; minion := Some m |}).

Definition removeMinion (x : t) : t :=
    {| laneIndex := laneIndex x; position := position x; minion := None |}.
End Tile.

(** [class Lane]: the methods that touch the lane object only. *)
Module Lane.
Record t : Type := mk {
    index : Z;
    tileCount : Z;
    tiles : list Tile.t;
    heroes : list ref;
    minions : list ref
  }.

Definition with_tiles (v : list Tile.t) (x : t) : t :=
    {| index := index x; tileCount := tileCount x; tiles := v; heroes := heroes x; minions := minions x |}.
Definition with_heroes (v : list ref) (x : t) : t :=
    {| index := index x; tileCount := tileCount x; tiles := tiles x; heroes := v; minions := minions x |}.
Definition with_minions (v : list ref) (x : t) : t :=
    {| index := index x; tileCount := tileCount x; tiles := tiles x; heroes := heroes x; minions := v |}.

Definition create (index tileCount : Z) : t :=
    {| index := index; tileCount := tileCount;
       tiles := map (fun i => Tile.create index (Z.of_nat i)) (seq 0 (Z.to_nat tileCount));
       heroes := []; minions := [] |}.

Definition canPlaceAt (tileIndex : Z) (l : t) : completion bool :=
    if ((tileIndex <? 0) || (tileIndex >=? tileCount l))%Z then Normal false
    else match at_index (tiles l) tileIndex with
         | Some tile => Normal (Tile.isEmpty tile)
         | None => Throw (TypeError "this.tiles[tileIndex] is undefined")
         end.

Definition placeMinion (m : ref) (tileIndex : Z) (l : t) : completion bool * t :=
    match canPlaceAt tileIndex l with
    | Throw e => (Throw e, l)
    | Normal false => (Normal false, l)
    | Normal true =>
        match at_index (tiles l) tileIndex with
        | None => (Throw (TypeError "this.tiles[tileIndex] is undefined"), l)
        | Some tile =>
            let '(success, tile') := Tile.placeMinion m tile in
            let l1 := with_tiles (<[Z.to_nat tileIndex := tile']> (tiles l)) l in
            if success then (Normal true, with_minions (minions l1 ++ [m]) l1)
            else (Normal false, l1)
        end
    end.

  (** [removeMinion(minion)]; [mpos] is [minion.position]. *)
Definition removeMinion (m : ref) (mpos : Q) (l : t) : completion unit * t :=
    let l1 :=
      match indexOf m (minions l) with
      | Some i => with_minions (delete i (minions l)) l
      | None => l
      end in
    let tileIndex := Qfloor mpos in
    if ((tileIndex >=? 0) && (tileIndex <? tileCount l1))%Z then
      match at_index (tiles l1) tileIndex with
      | None => (Throw (TypeError "tile is undefined"), l1)
      | Some tile =>
          if bool_decide (Tile.minion tile = Some m)
          then (Normal tt,
                with_tiles (<[Z.to_nat tileIndex := Tile.removeMinion tile]> (tiles l1)) l1)
          else (Normal tt, l1)
      end
    else (Normal tt, l1).

Definition addHero (h : ref) (l : t) : t := with_heroes (heroes l ++ [h]) l.
End Lane.

(** What [showFloatingText] puts on the screen. *)
Inductive FloatingText : Type :=
| OnslaughtText
| BossWaveText (n : Z)
| WaveText (wave : Z) (c : HeroClass)
| DaenBonusText (bonus : Z)
| PrepareText
| KillDaenText
| ConversionText (amount : Q).

(** [class Game]: the simulation state.  [heap], [nextRef], [randomCalls],
    [timeouts] and [floatingTexts] stand for the object store, the draws made
    from [Math.random], the pending [setTimeout] callbacks (each one runs
    [spawnNextHero]) and the floating texts shown so far. *)
Module Game.
Record t : Type := mk {
    daen : Q;
    lanes : list Lane.t;
    selectedMinionType : option string;
    gameOver : bool;
    victory : option bool;
    waveNumber : Z;
    waveTimer : Q;
    waveInterval : Q;
    heroesInWave : Z;
    heroesRemaining : Z;
    onslaughtTriggered : bool;
    onslaughtComplete : bool;
    bossWave : bool;
    spawnTimer : Q;
    spawnDelay : Q;
    laneCount : Z;
    tileCount : Z;
    isPaused : bool;
    isPreparingNextWave : bool;
    preparationTimer : Q;
    heap : gmap ref Unit.t;
    nextRef : ref;
    randomCalls : nat;
    timeouts : list Q;
    floatingTexts : list FloatingText
  }.

Definition with_daen (v : Q) (x : t) : t :=
    {| daen := v; lanes := lanes x; selectedMinionType := selectedMinionType x; gameOver := gameOver x; victory := victory x; waveNumber := waveNumber x; waveTimer := waveTimer x; waveInterval := waveInterval x; heroesInWave := heroesInWave x; heroesRemaining := heroesRemaining x; onslaughtTriggered := onslaughtTriggered x; onslaughtComplete := onslaughtComplete x; bossWave := bossWave x; spawnTimer := spawnTimer x; spawnDelay := spawnDelay x; laneCount := laneCount x; tileCount := tileCount x; isPaused := isPaused x; isPreparingNextWave := isPreparingNextWave x; preparationTimer := preparationTimer x; heap := heap x; nextRef := nextRef x; randomCalls := randomCalls x; timeouts := timeouts x; floatingTexts := floatingTexts x |}.
Definition with_lanes (v : list Lane.t) (x : t) : t :=
    {| daen := daen x; lanes := v; selectedMinionType := selectedMinionType x; gameOver := gameOver x; victory := victory x; waveNumber := waveNumber x; waveTimer := waveTimer x; waveInterval := waveInterval x; heroesInWave := heroesInWave x; heroesRemaining := heroesRemaining x; onslaughtTriggered := onslaughtTriggered x; onslaughtComplete := onslaughtComplete x; bossWave := bossWave x; spawnTimer := spawnTimer x; spawnDelay := spawnDelay x; laneCount := laneCount x; tileCount := tileCount x; isPaused := isPaused x; isPreparingNextWave := isPreparingNextWave x; preparationTimer := preparationTimer x; heap := heap x; nextRef := nextRef x; randomCalls := randomCalls x; timeouts := timeouts x; floatingTexts := floatingTexts x |}.
Definition with_selectedMinionType (v : option string) (x : t) : t :=
    {| daen := daen x; lanes := lanes x; selectedMinionType := v; gameOver := gameOver x; victory := victory x; waveNumber := waveNumber x; waveTimer := waveTimer x; waveInterval := waveInterval x; heroesInWave := heroesInWave x; heroesRemaining := heroesRemaining x; onslaughtTriggered := onslaughtTriggered x; onslaughtComplete := onslaughtComplete x; bossWave := bossWave x; spawnTimer := spawnTimer x; spawnDelay := spawnDelay x; laneCount := laneCount x; tileCount := tileCount x; isPaused := isPaused x; isPreparingNextWave := isPreparingNextWave x; preparationTimer := preparationTimer x; heap := heap x; nextRef := nextRef x; randomCalls := randomCalls x; timeouts := timeouts x; floatingTexts := floatingTexts x |}.
Definition with_gameOver (v : bool) (x : t) : t :=
    {| daen := daen x; lanes := lanes x; selectedMinionType := selectedMinionType x; gameOver := v; victory := victory x; waveNumber := waveNumber x; waveTimer := waveTimer x; waveInterval := waveInterval x; heroesInWave := heroesInWave x; heroesRemaining := heroesRemaining x; onslaughtTriggered := onslaughtTriggered x; onslaughtComplete := onslaughtComplete x; bossWave := bossWave x; spawnTimer := spawnTimer x; spawnDelay := spawnDelay x; laneCount := laneCount x; tileCount := tileCount x; isPaused := isPaused x; isPreparingNextWave := isPreparingNextWave x; preparationTimer := preparationTimer x; heap := heap x; nextRef := nextRef x; randomCalls := randomCalls x; timeouts := timeouts x; floatingTexts := floatingTexts x |}.
Definition with_victory (v : option bool) (x : t) : t :=
    {| daen := daen x; lanes := lanes x; selectedMinionType := selectedMinionType x; gameOver := gameOver x; victory := v; waveNumber := waveNumber x; waveTimer := waveTimer x; waveInterval := waveInterval x; heroesInWave := heroesInWave x; heroesRemaining := heroesRemaining x; onslaughtTriggered := onslaughtTriggered x; onslaughtComplete := onslaughtComplete x; bossWave := bossWave x; spawnTimer := spawnTimer x; spawnDelay := spawnDelay x; laneCount := laneCount x; tileCount := tileCount x; isPaused := isPaused x; isPreparingNextWave := isPreparingNextWave x; preparationTimer := preparationTimer x; heap := heap x; nextRef := nextRef x; randomCalls := randomCalls x; timeouts := timeouts x; floatingTexts := floatingTexts x |}.
Definition with_waveNumber (v : Z) (x : t) : t :=
    {| daen := daen x; lanes := lanes x; selectedMinionType := selectedMinionType x; gameOver := gameOver x; victory := victory x; waveNumber := v; waveTimer := waveTimer x; waveInterval := waveInterval x; heroesInWave := heroesInWave x; heroesRemaining := heroesRemaining x; onslaughtTriggered := onslaughtTriggered x; onslaughtComplete := onslaughtComplete x; bossWave := bossWave x; spawnTimer := spawnTimer x; spawnDelay := spawnDelay x; laneCount := laneCount x; tileCount := tileCount x; isPaused := isPaused x; isPreparingNextWave := isPreparingNextWave x; preparationTimer := preparationTimer x; heap := heap x; nextRef := nextRef x; randomCalls := randomCalls x; timeouts := timeouts x; floatingTexts := floatingTexts x |}.
Definition with_waveTimer (v : Q) (x : t) : t :=
    {| daen := daen x; lanes := lanes x; selectedMinionType := selectedMinionType x; gameOver := gameOver x; victory := victory x; waveNumber := waveNumber x; waveTimer := v; waveInterval := waveInterval x; heroesInWave := heroesInWave x; heroesRemaining := heroesRemaining x; onslaughtTriggered := onslaughtTriggered x; onslaughtComplete := onslaughtComplete x; bossWave := bossWave x; spawnTimer := spawnTimer x; spawnDelay := spawnDelay x; laneCount := laneCount x; tileCount := tileCount x; isPaused := isPaused x; isPreparingNextWave := isPreparingNextWave x; preparationTimer := preparationTimer x; heap := heap x; nextRef := nextRef x; randomCalls := randomCalls x; timeouts := timeouts x; floatingTexts := floatingTexts x |}.
Definition with_heroesInWave (v : Z) (x : t) : t :=
    {| daen := daen x; lanes := lanes x; selectedMinionType := selectedMinionType x; gameOver := gameOver x; victory := victory x; waveNumber := waveNumber x; waveTimer := waveTimer x; waveInterval := waveInterval x; heroesInWave := v; heroesRemaining := heroesRemaining x; onslaughtTriggered := onslaughtTriggered x; onslaughtComplete := onslaughtComplete x; bossWave := bossWave x; spawnTimer := spawnTimer x; spawnDelay := spawnDelay x; laneCount := laneCount x; tileCount := tileCount x; isPaused := isPaused x; isPreparingNextWave := isPreparingNextWave x; preparationTimer := preparationTimer x; heap := heap x; nextRef := nextRef x; randomCalls := randomCalls x; timeouts := timeouts x; floatingTexts := floatingTexts x |}.
Definition with_heroesRemaining (v : Z) (x : t) : t :=
    {| daen := daen x; lanes := lanes x; selectedMinionType := selectedMinionType x; gameOver := gameOver x; victory := victory x; waveNumber := waveNumber x; waveTimer := waveTimer x; waveInterval := waveInterval x; heroesInWave := heroesInWave x; heroesRemaining := v; onslaughtTriggered := onslaughtTriggered x; onslaughtComplete := onslaughtComplete x; bossWave := bossWave x; spawnTimer := spawnTimer x; spawnDelay := spawnDelay x; laneCount := laneCount x; tileCount := tileCount x; isPaused := isPaused x; isPreparingNextWave := isPreparingNextWave x; preparationTimer := preparationTimer x; heap := heap x; nextRef := nextRef x; randomCalls := randomCalls x; timeouts := timeouts x; floatingTexts := floatingTexts x |}.
Definition with_onslaughtTriggered (v : bool) (x : t) : t :=
    {| daen := daen x; lanes := lanes x; selectedMinionType := selectedMinionType x; gameOver := gameOver x; victory := victory x; waveNumber := waveNumber x; waveTimer := waveTimer x; waveInterval := waveInterval x; heroesInWave := heroesInWave x; heroesRemaining := heroesRemaining x; onslaughtTriggered := v; onslaughtComplete := onslaughtComplete x; bossWave := bossWave x; spawnTimer := spawnTimer x; spawnDelay := spawnDelay x; laneCount := laneCount x; tileCount := tileCount x; isPaused := isPaused x; isPreparingNextWave := isPreparingNextWave x; preparationTimer := preparationTimer x; heap := heap x; nextRef := nextRef x; randomCalls := randomCalls x; timeouts := timeouts x; floatingTexts := floatingTexts x |}.
Definition with_onslaughtComplete (v : bool) (x : t) : t :=
    {| daen := daen x; lanes := lanes x; selectedMinionType := selectedMinionType x; gameOver := gameOver x; victory := victory x; waveNumber := waveNumber x; waveTimer := waveTimer x; waveInterval := waveInterval x; heroesInWave := heroesInWave x; heroesRemaining := heroesRemaining x; onslaughtTriggered := onslaughtTriggered x; onslaughtComplete := v; bossWave := bossWave x; spawnTimer := spawnTimer x; spawnDelay := spawnDelay x; laneCount := laneCount x; tileCount := tileCount x; isPaused := isPaused x; isPreparingNextWave := isPreparingNextWave x; preparationTimer := preparationTimer x; heap := heap x; nextRef := nextRef x; randomCalls := randomCalls x; timeouts := timeouts x; floatingTexts := floatingTexts x |}.
Definition with_bossWave (v : bool) (x : t) : t :=
    {| daen := daen x; lanes := lanes x; selectedMinionType := selectedMinionType x; gameOver := gameOver x; victory := victory x; waveNumber := waveNumber x; waveTimer := waveTimer x; waveInterval := waveInterval x; heroesInWave := heroesInWave x; heroesRemaining := heroesRemaining x; onslaughtTriggered := onslaughtTriggered x; onslaughtComplete := onslaughtComplete x; bossWave := v; spawnTimer := spawnTimer x; spawnDelay := spawnDelay x; laneCount := laneCount x; tileCount := tileCount x; isPaused := isPaused x; isPreparingNextWave := isPreparingNextWave x; preparationTimer := preparationTimer x; heap := heap x; nextRef := nextRef x; randomCalls := randomCalls x; timeouts := timeouts x; floatingTexts := floatingTexts x |}.
Definition with_spawnTimer (v : Q) (x : t) : t :=
    {| daen := daen x; lanes := lanes x; selectedMinionType := selectedMinionType x; gameOver := gameOver x; victory := victory x; waveNumber := waveNumber x; waveTimer := waveTimer x; waveInterval := waveInterval x; heroesInWave := heroesInWave x; heroesRemaining := heroesRemaining x; onslaughtTriggered := onslaughtTriggered x; onslaughtComplete := onslaughtComplete x; bossWave := bossWave x; spawnTimer := v; spawnDelay := spawnDelay x; laneCount := laneCount x; tileCount := tileCount x; isPaused := isPaused x; isPreparingNextWave := isPreparingNextWave x; preparationTimer := preparationTimer x; heap := heap x; nextRef := nextRef x; randomCalls := randomCalls x; timeouts := timeouts x; floatingTexts := floatingTexts x |}.
Definition with_spawnDelay (v : Q) (x : t) : t :=
    {| daen := daen x; lanes := lanes x; selectedMinionType := selectedMinionType x; gameOver := gameOver x; victory := victory x; waveNumber := waveNumber x; waveTimer := waveTimer x; waveInterval := waveInterval x; heroesInWave := heroesInWave x; heroesRemaining := heroesRemaining x; onslaughtTriggered := onslaughtTriggered x; onslaughtComplete := onslaughtComplete x; bossWave := bossWave x; spawnTimer := spawnTimer x; spawnDelay := v; laneCount := laneCount x; tileCount := tileCount x; isPaused := isPaused x; isPreparingNextWave := isPreparingNextWave x; preparationTimer := preparationTimer x; heap := heap x; nextRef := nextRef x; randomCalls := randomCalls x; timeouts := timeouts x; floatingTexts := floatingTexts x |}.
Definition with_isPaused (v : bool) (x : t) : t :=
    {| daen := daen x; lanes := lanes x; selectedMinionType := selectedMinionType x; gameOver := gameOver x; victory := victory x; waveNumber := waveNumber x; waveTimer := waveTimer x; waveInterval := waveInterval x; heroesInWave := heroesInWave x; heroesRemaining := heroesRemaining x; onslaughtTriggered := onslaughtTriggered x; onslaughtComplete := onslaughtComplete x; bossWave := bossWave x; spawnTimer := spawnTimer x; spawnDelay := spawnDelay x; laneCount := laneCount x; tileCount := tileCount x; isPaused := v; isPreparingNextWave := isPreparingNextWave x; preparationTimer := preparationTimer x; heap := heap x; nextRef := nextRef x; randomCalls := randomCalls x; timeouts := timeouts x; floatingTexts := floatingTexts x |}.
Definition with_isPreparingNextWave (v : bool) (x : t) : t :=
    {| daen := daen x; lanes := lanes x; selectedMinionType := selectedMinionType x; gameOver := gameOver x; victory := victory x; waveNumber := waveNumber x; waveTimer := waveTimer x; waveInterval := waveInterval x; heroesInWave := heroesInWave x; heroesRemaining := heroesRemaining x; onslaughtTriggered := onslaughtTriggered x; onslaughtComplete := onslaughtComplete x; bossWave := bossWave x; spawnTimer := spawnTimer x; spawnDelay := spawnDelay x; laneCount := laneCount x; tileCount := tileCount x; isPaused := isPaused x; isPreparingNextWave := v; preparationTimer := preparationTimer x; heap := heap x; nextRef := nextRef x; randomCalls := randomCalls x; timeouts := timeouts x; floatingTexts := floatingTexts x |}.
Definition with_preparationTimer (v : Q) (x : t) : t :=
    {| daen := daen x; lanes := lanes x; selectedMinionType := selectedMinionType x; gameOver := gameOver x; victory := victory x; waveNumber := waveNumber x; waveTimer := waveTimer x; waveInterval := waveInterval x; heroesInWave := heroesInWave x; heroesRemaining := heroesRemaining x; onslaughtTriggered := onslaughtTriggered x; onslaughtComplete := onslaughtComplete x; bossWave := bossWave x; spawnTimer := spawnTimer x; spawnDelay := spawnDelay x; laneCount := laneCount x; tileCount := tileCount x; isPaused := isPaused x; isPreparingNextWave := isPreparingNextWave x; preparationTimer := v; heap := heap x; nextRef := nextRef x; randomCalls := randomCalls x; timeouts := timeouts x; floatingTexts := floatingTexts x |}.
Definition with_heap (v : gmap ref Unit.t) (x : t) : t :=
    {| daen := daen x; lanes := lanes x; selectedMinionType := selectedMinionType x; gameOver := gameOver x; victory := victory x; waveNumber := waveNumber x; waveTimer := waveTimer x; waveInterval := waveInterval x; heroesInWave := heroesInWave x; heroesRemaining := heroesRemaining x; onslaughtTriggered := onslaughtTriggered x; onslaughtComplete := onslaughtComplete x; bossWave := bossWave x; spawnTimer := spawnTimer x; spawnDelay := spawnDelay x; laneCount := laneCount x; tileCount := tileCount x; isPaused := isPaused x; isPreparingNextWave := isPreparingNextWave x; preparationTimer := preparationTimer x; heap := v; nextRef := nextRef x; randomCalls := randomCalls x; timeouts := timeouts x; floatingTexts := floatingTexts x |}.
Definition with_nextRef (v : ref) (x : t) : t :=
    {| daen := daen x; lanes := lanes x; selectedMinionType := selectedMinionType x; gameOver := gameOver x; victory := victory x; waveNumber := waveNumber x; waveTimer := waveTimer x; waveInterval := waveInterval x; heroesInWave := heroesInWave x; heroesRemaining := heroesRemaining x; onslaughtTriggered := onslaughtTriggered x; onslaughtComplete := onslaughtComplete x; bossWave := bossWave x; spawnTimer := spawnTimer x; spawnDelay := spawnDelay x; laneCount := laneCount x; tileCount := tileCount x; isPaused := isPaused x; isPreparingNextWave := isPreparingNextWave x; preparationTimer := preparationTimer x; heap := heap x; nextRef := v; randomCalls := randomCalls x; timeouts := timeouts x; floatingTexts := floatingTexts x |}.
Definition with_randomCalls (v : nat) (x : t) : t :=
    {| daen := daen x; lanes := lanes x; selectedMinionType := selectedMinionType x; gameOver := gameOver x; victory := victory x; waveNumber := waveNumber x; waveTimer := waveTimer x; waveInterval := waveInterval x; heroesInWave := heroesInWave x; heroesRemaining := heroesRemaining x; onslaughtTriggered := onslaughtTriggered x; onslaughtComplete := onslaughtComplete x; bossWave := bossWave x; spawnTimer := spawnTimer x; spawnDelay := spawnDelay x; laneCount := laneCount x; tileCount := tileCount x; isPaused := isPaused x; isPreparingNextWave := isPreparingNextWave x; preparationTimer := preparationTimer x; heap := heap x; nextRef := nextRef x; randomCalls := v; timeouts := timeouts x; floatingTexts := floatingTexts x |}.
Definition with_timeouts (v : list Q) (x : t) : t :=
    {| daen := daen x; lanes := lanes x; selectedMinionType := selectedMinionType x; gameOver := gameOver x; victory := victory x; waveNumber := waveNumber x; waveTimer := waveTimer x; waveInterval := waveInterval x; heroesInWave := heroesInWave x; heroesRemaining := heroesRemaining x; onslaughtTriggered := onslaughtTriggered x; onslaughtComplete := onslaughtComplete x; bossWave := bossWave x; spawnTimer := spawnTimer x; spawnDelay := spawnDelay x; laneCount := laneCount x; tileCount := tileCount x; isPaused := isPaused x; isPreparingNextWave := isPreparingNextWave x; preparationTimer := preparationTimer x; heap := heap x; nextRef := nextRef x; randomCalls := randomCalls x; timeouts := v; floatingTexts := floatingTexts x |}.
Definition with_floatingTexts (v : list FloatingText) (x : t) : t :=
    {| daen := daen x; lanes := lanes x; selectedMinionType := selectedMinionType x; gameOver := gameOver x; victory := victory x; waveNumber := waveNumber x; waveTimer := waveTimer x; waveInterval := waveInterval x; heroesInWave := heroesInWave x; heroesRemaining := heroesRemaining x; onslaughtTriggered := onslaughtTriggered x; onslaughtComplete := onslaughtComplete x; bossWave := bossWave x; spawnTimer := spawnTimer x; spawnDelay := spawnDelay x; laneCount := laneCount x; tileCount := tileCount x; isPaused := isPaused x; isPreparingNextWave := isPreparingNextWave x; preparationTimer := preparationTimer x; heap := heap x; nextRef := nextRef x; randomCalls := randomCalls x; timeouts := timeouts x; floatingTexts := v |}.
End Game.

Local Open Scope Q_scope.

(** ** The state-and-exception monad *)

Definition M (A : Type) : Type := Game.t -> completion A * Game.t.

Definition ret {A : Type} (a : A) : M A := fun g => (Normal a, g).

Definition bind {A B : Type} (c : M A) (k : A -> M B) : M B :=
  fun g =>
    match c g with
    | (Normal a, g') => k a g'
    | (Throw e, g') => (Throw e, g')
    end.

Definition throw {A : Type} (e : JsError) : M A := fun g => (Throw e, g).

Definition get : M Game.t := fun g => (Normal g, g).

Definition modify (f : Game.t -> Game.t) : M unit := fun g => (Normal tt, f g).

Notation "'let*' x ':=' c 'in' k" := (bind c (fun x => k))
  (at level 10, x name, c at level 100, k at level 200).
Notation "c ;; k" := (bind c (fun _ => k))
  (at level 100, k at level 200, right associativity).

Definition when (b : bool) (c : M unit) : M unit := if b then c else ret tt.

Fixpoint forEach {A : Type} (l : list A) (body : A -> M unit) : M unit :=
  match l with
  | [] => ret tt
  | x :: l' => body x ;; forEach l' body
  end.

Fixpoint mapM {A B : Type} (f : A -> M B) (l : list A) : M (list B) :=
  match l with
  | [] => ret []
  | x :: l' => let* y := f x in let* ys := mapM f l' in ret (y :: ys)
  end.

(** *** Objects *)

(** Reading a field of the unit behind a reference.  Every reference the
    engine holds was returned by [new_object]; reading one that was not is
    reported as a [TypeError]. *)
Definition deref (r : ref) : M Unit.t :=
  fun g =>
    match Game.heap g !! r with
    | Some u => (Normal u, g)
    | None => (Throw (TypeError "not an object"), g)
    end.

(** Assigning to fields of the unit behind a reference. *)
Definition update_unit (r : ref) (f : Unit.t -> Unit.t) : M unit :=
  let* u := deref r in
  modify (fun g => Game.with_heap (<[r := f u]> (Game.heap g)) g).

(** [new C(...)]. *)
Definition new_object (u : Unit.t) : M ref :=
  fun g =>
    (Normal (Game.nextRef g),
     Game.with_nextRef (S (Game.nextRef g))
       (Game.with_heap (<[Game.nextRef g := u]> (Game.heap g)) g)).

(** [this.lanes[i]]: the lane object is named by its place in
    [Game.lanes]; [None] is [undefined]. *)
Definition lanes_at (i : Z) : M (option nat) :=
  fun g =>
    match at_index (Game.lanes g) i with
    | Some _ => (Normal (Some (Z.to_nat i)), g)
    | None => (Normal None, g)
    end.

Definition read_lane (li : nat) : M Lane.t :=
  fun g =>
    match Game.lanes g !! li with
    | Some l => (Normal l, g)
    | None => (Throw (TypeError "lane is undefined"), g)
    end.

Definition write_lane (li : nat) (l : Lane.t) : M unit :=
  modify (fun g => Game.with_lanes (<[li := l]> (Game.lanes g)) g).

(** A method of [Lane] that touches the lane object only. *)
Definition on_lane {A : Type} (li : nat) (f : Lane.t -> completion A * Lane.t) : M A :=
  let* l := read_lane li in
  let '(r, l') := f l in
  write_lane li l' ;;
  match r with
  | Normal a => ret a
  | Throw e => throw e
  end.

(** *** Effects outside the simulation state *)

Definition showFloatingText (text : FloatingText) : M unit :=
  modify (fun g => Game.with_floatingTexts (Game.floatingTexts g ++ [text]) g).

(** [updateDaenDisplay] writes the rounded Daen into the page. *)
Definition updateDaenDisplay : M unit := ret tt.

(** [setTimeout(() => this.spawnNextHero(), delay)]. *)
Definition setTimeout_spawnNextHero (delay : Q) : M unit :=
  modify (fun g => Game.with_timeouts (Game.timeouts g ++ [delay]) g).

(** [this.playSound('place')].  [class Game] declares no [playSound], no
    other source file defines or assigns one, and [Game] extends nothing:
    the property is [undefined] and calling it throws. *)
Definition playSound (sound : string) : M unit :=
  throw (TypeError "this.playSound is not a function").

(** ** Unit classes *)

Definition new_Unit (c : UnitClass) (lane : Z) (position : Q) : Unit.t :=
  {| Unit.cls := c; Unit.lane := lane; Unit.position := position;
     Unit.health := 100; Unit.maxHealth := 100; Unit.damage := 10;
     Unit.attackSpeed := 1; Unit.attackRange := 1; Unit.moveSpeed := 0.5;
     Unit.attackCooldown := 0; Unit.cooldown := 0; Unit.pulseTimer := 0;
     Unit.direction := 0; Unit.baseAttackSpeed := 0 |}.

Definition override (health damage attackSpeed attackRange moveSpeed : Q)
    (u : Unit.t) : Unit.t :=
  {| Unit.cls := Unit.cls u; Unit.lane := Unit.lane u; Unit.position := Unit.position u;
     Unit.health := health; Unit.maxHealth := health; Unit.damage := damage;
     Unit.attackSpeed := attackSpeed; Unit.attackRange := attackRange;
     Unit.moveSpeed := moveSpeed;
     Unit.attackCooldown := Unit.attackCooldown u; Unit.cooldown := Unit.cooldown u;
     Unit.pulseTimer := Unit.pulseTimer u; Unit.direction := Unit.direction u;
     Unit.baseAttackSpeed := Unit.baseAttackSpeed u |}.

Definition new_Minion (c : MinionClass) (lane : Z) (position : Q) : Unit.t :=
  let u := new_Unit (MinionOf c) lane position in
  match c with
  | Ashling => override 60 15 1.2 5 0 u
  | Gravelim => override 40 12 0.8 7 0 u
  | Gnarlroot => override 200 0 0 0 0 u
  | DaemonAltar => override 80 0 0 0 0 u
  | Dreadchant => override 80 10 1.0 2 0 u
  end.

Definition new_Hero (c : HeroClass) (lane : Z) (position : Q) : Unit.t :=
  let u := new_Unit (HeroOf c) lane position in
  let h :=
    {| Unit.cls := Unit.cls u; Unit.lane := Unit.lane u; Unit.position := Unit.position u;
       Unit.health := Unit.health u; Unit.maxHealth := Unit.maxHealth u;
       Unit.damage := Unit.damage u; Unit.attackSpeed := Unit.attackSpeed u;
       Unit.attackRange := Unit.attackRange u; Unit.moveSpeed := Unit.moveSpeed u;
       Unit.attackCooldown := Unit.attackCooldown u; Unit.cooldown := Unit.cooldown u;
       Unit.pulseTimer := Unit.pulseTimer u; Unit.direction := -1;
       Unit.baseAttackSpeed :=
         match c with Oathblade => 0.8 | _ => Unit.baseAttackSpeed u end |} in
  match c with
  | Militiant => override 80 10 1 1 0.3 h
  | AshboltScout => override 50 8 1.5 3 0.4 h
  | Oathblade => override 120 15 0.8 1 0.25 h
  end.

(** The static getter [cost]. *)
Definition cost (c : MinionClass) : Q :=
  match c with
  | Ashling => 3
  | Gravelim => 5
  | Gnarlroot => 4
  | DaemonAltar => 8
  | Dreadchant => 8
  end.

(** [DaemonAltar] and [Dreadchant] constants. *)
Definition daenPulseRate : Q := 20000.
Definition daenPulseAmount : Q := 1.
Definition daenPerKill : Q := 3.
Definition conversionRange : Q := 3.

Definition MinionRegistry : gmap string MinionClass :=
  list_to_map
    [("ashling", Ashling); ("gravelim", Gravelim); ("gnarlroot", Gnarlroot);
     ("daemonaltar", DaemonAltar); ("dreadchant", Dreadchant)]%string.

(** ** Targeting *)

(** The loop of [findTarget] over the opposing units, each given with its
    position; [closestDistance = None] is the initial [Infinity]. *)
Fixpoint scanTargets (selfPos range : Q) (candidates : list (ref * Q))
    (closest : option ref) (closestDistance : option Q) : option ref :=
  match candidates with
  | [] => closest
  | (c, cpos) :: rest =>
      let distance := Qabs (selfPos - cpos) in
      if (Qle_bool distance range
          && match closestDistance with
             | None => true
             | Some d => Qlt_bool distance d
             end)%bool
      then scanTargets selfPos range rest (Some c) (Some distance)
      else scanTargets selfPos range rest closest closestDistance
  end.

Definition positions_of (rs : list ref) : M (list (ref * Q)) :=
  mapM (fun r => let* u := deref r in ret (r, Unit.position u)) rs.

(** [Minion.findTarget(lane)]: over [lane.heroes]. *)
Definition Minion_findTarget (self : ref) (lane : option nat) : M (option ref) :=
  match lane with
  | None => throw (TypeError "lane is undefined")
  | Some li =>
      let* l := read_lane li in
      let* candidates := positions_of (Lane.heroes l) in
      let* s := deref self in
      ret (scanTargets (Unit.position s) (Unit.attackRange s) candidates None None)
  end.

(** [Hero.findTarget(lane)]: over [lane.minions]. *)
Definition Hero_findTarget (self : ref) (lane : option nat) : M (option ref) :=
  match lane with
  | None => throw (TypeError "lane is undefined")
  | Some li =>
      let* l := read_lane li in
      let* candidates := positions_of (Lane.minions l) in
      let* s := deref self in
      ret (scanTargets (Unit.position s) (Unit.attackRange s) candidates None None)
  end.

(** ** The engine *)

Section Engine.

(** The values [Math.random] returns, in the order of the calls. *)
Variable random : nat -> Q.

Definition Math_random : M Q :=
  fun g =>
    (Normal (random (Game.randomCalls g)),
     Game.with_randomCalls (S (Game.randomCalls g)) g).

(** *** [class Unit], [class Minion], [class Hero] *)

(** [Dreadchant.onEnemyDeath(hero)]. *)
Definition Dreadchant_onEnemyDeath (self hero : ref) : M unit :=
  let* s := deref self in
  let* h := deref hero in
  if Qle_bool (Qabs (Unit.position s - Unit.position h)) conversionRange then
    modify (fun g => Game.with_daen (Game.daen g + daenPerKill) g) ;;
    updateDaenDisplay ;;
    showFloatingText (ConversionText daenPerKill)
  else ret tt.

(** [Lane.removeHero(hero)]. *)
Definition Lane_removeHero (li : nat) (hero : ref) : M unit :=
  let* l := read_lane li in
  match indexOf hero (Lane.heroes l) with
  | None => ret tt
  | Some index =>
      forEach (Lane.minions l)
        (fun m =>
           let* mu := deref m in
           match Unit.cls mu with
           | MinionOf Dreadchant => Dreadchant_onEnemyDeath m hero
           | _ => ret tt
           end) ;;
      let* r := Math_random in
      when (Qlt_bool r 0.5)
        (modify (fun g => Game.with_daen (Game.daen g + 1) g) ;;
         updateDaenDisplay ;;
         showFloatingText KillDaenText) ;;
      let* l' := read_lane li in
      write_lane li (Lane.with_heroes (delete index (Lane.heroes l')) l')
  end.

(** [Minion.die()]. *)
Definition Minion_die (self : ref) : M unit :=
  let* s := deref self in
  let* lane := lanes_at (Unit.lane s) in
  match lane with
  | None => throw (TypeError "lane is undefined")
  | Some li => on_lane li (Lane.removeMinion self (Unit.position s))
  end.

(** [Hero.die()]. *)
Definition Hero_die (self : ref) : M unit :=
  let* s := deref self in
  let* lane := lanes_at (Unit.lane s) in
  match lane with
  | None => throw (TypeError "lane is undefined")
  | Some li => Lane_removeHero li self
  end.

(** [this.die()], dispatched on the class of [this]. *)
Definition Unit_die (self : ref) : M unit :=
  let* s := deref self in
  match Unit.cls s with
  | MinionOf _ => Minion_die self
  | HeroOf _ => Hero_die self
  end.

(** [Unit.takeDamage(amount)]. *)
Definition Unit_takeDamage (self : ref) (amount : Q) : M bool :=
  update_unit self (fun u => Unit.with_health (Unit.health u - amount) u) ;;
  let* s := deref self in
  if Qle_bool (Unit.health s) 0 then
    update_unit self (Unit.with_health 0) ;;
    Unit_die self ;;
    ret true
  else ret false.

(** [Unit.canAttack(target)]. *)
Definition Unit_canAttack (self target : ref) : M bool :=
  let* s := deref self in
  let* t := deref target in
  let distance := Qabs (Unit.position s - Unit.position t) in
  ret (Qle_bool distance (Unit.attackRange s)).

(** [Unit.attack(target)]. *)
Definition Unit_attack (self target : ref) : M bool :=
  let* can := Unit_canAttack self target in
  if negb can then ret false
  else
    let* s := deref self in
    Unit_takeDamage target (Unit.damage s).

(** [Unit.move(deltaTime, direction)]. *)
Definition Unit_move (self : ref) (deltaTime direction : Q) : M unit :=
  let* s := deref self in
  let distance := (Unit.moveSpeed s * deltaTime) / 1000 in
  update_unit self (fun u => Unit.with_position (Unit.position u + distance * direction) u) ;;
  let* g := get in
  update_unit self
    (fun u => Unit.with_position
                (Qmax 0 (Qmin (inject_Z (Game.tileCount g) - 1) (Unit.position u))) u).

(** [Minion.update(deltaTime)]. *)
Definition Minion_update (self : ref) (deltaTime : Q) : M unit :=
  let* s := deref self in
  when (Qlt_bool 0 (Unit.attackCooldown s))
    (update_unit self
       (fun u => Unit.with_attackCooldown (Unit.attackCooldown u - deltaTime) u)) ;;
  let* lane := lanes_at (Unit.lane s) in
  let* target := Minion_findTarget self lane in
  let* s1 := deref self in
  match target with
  | Some t =>
      if Qle_bool (Unit.attackCooldown s1) 0 then
        Unit_attack self t ;;
        update_unit self (fun u => Unit.with_attackCooldown (1000 / Unit.attackSpeed u) u)
      else ret tt
  | None => ret tt
  end ;;
  let* s2 := deref self in
  when (Qlt_bool 0 (Unit.cooldown s2))
    (update_unit self (fun u => Unit.with_cooldown (Unit.cooldown u - deltaTime) u)).

(** [Gnarlroot.update(deltaTime)]. *)
Definition Gnarlroot_update (self : ref) (deltaTime : Q) : M unit := ret tt.

(** [DaemonAltar.update(deltaTime)]. *)
Definition DaemonAltar_update (self : ref) (deltaTime : Q) : M unit :=
  update_unit self (fun u => Unit.with_pulseTimer (Unit.pulseTimer u + deltaTime) u) ;;
  let* s := deref self in
  if Qle_bool daenPulseRate (Unit.pulseTimer s) then
    modify (fun g => Game.with_daen (Game.daen g + daenPulseAmount) g) ;;
    updateDaenDisplay ;;
    update_unit self (Unit.with_pulseTimer 0)
  else ret tt.

(** [Hero.update(deltaTime)]. *)
Definition Hero_update (self : ref) (deltaTime : Q) : M unit :=
  let* s := deref self in
  when (Qlt_bool 0 (Unit.attackCooldown s))
    (update_unit self
       (fun u => Unit.with_attackCooldown (Unit.attackCooldown u - deltaTime) u)) ;;
  let* lane := lanes_at (Unit.lane s) in
  let* target := Hero_findTarget self lane in
  let* s1 := deref self in
  match target with
  | Some t =>
      if Qle_bool (Unit.attackCooldown s1) 0 then
        Unit_attack self t ;;
        update_unit self (fun u => Unit.with_attackCooldown (1000 / Unit.attackSpeed u) u)
      else ret tt
  | None => Unit_move self deltaTime (Unit.direction s1)
  end.

(** [Oathblade.update(deltaTime)]. *)
Definition Oathblade_update (self : ref) (deltaTime : Q) : M unit :=
  update_unit self
    (fun u =>
       let healthPercentage := Unit.health u / Unit.maxHealth u in
       Unit.with_attackSpeed (Unit.baseAttackSpeed u * (2 - healthPercentage)) u) ;;
  Hero_update self deltaTime.

(** [unit.update(deltaTime)], dispatched on the class of [unit]. *)
Definition Unit_update (self : ref) (deltaTime : Q) : M unit :=
  let* s := deref self in
  match Unit.cls s with
  | MinionOf Gnarlroot => Gnarlroot_update self deltaTime
  | MinionOf DaemonAltar => DaemonAltar_update self deltaTime
  | MinionOf _ => Minion_update self deltaTime
  | HeroOf Oathblade => Oathblade_update self deltaTime
  | HeroOf _ => Hero_update self deltaTime
  end.

(** [Tile.update(deltaTime)] on tile [i] of lane [li]. *)
Definition Tile_update (li i : nat) (deltaTime : Q) : M unit :=
  let* l := read_lane li in
  match Lane.tiles l !! i with
  | None => throw (TypeError "tile is undefined")
  | Some tile =>
      match Tile.minion tile with
      | Some m => Unit_update m deltaTime
      | None => ret tt
      end
  end.

(** [Lane.update(deltaTime)]: the tiles in order, then the heroes from the
    last index down to the first. *)
Definition Lane_update (li : nat) (deltaTime : Q) : M unit :=
  let* l := read_lane li in
  forEach (seq 0 (length (Lane.tiles l))) (fun i => Tile_update li i deltaTime) ;;
  let* l1 := read_lane li in
  forEach (rev (seq 0 (length (Lane.heroes l1))))
    (fun i =>
       let* l2 := read_lane li in
       match Lane.heroes l2 !! i with
       | Some h => Unit_update h deltaTime
       | None => throw (TypeError "this.heroes[i] is undefined")
       end).

(** *** [class Game] *)

(** The [options] of [startWave] and [spawnWave]; [None] is an absent (or
    [undefined]) property. *)
Record WaveOptions : Type := {
  opt_isBossWave : option bool;
  opt_heroCount : option Z;
  opt_spawnDelay : option Q;
  opt_waveType : option string;
  opt_waveNumber : option Z
}.

Definition no_wave_options : WaveOptions :=
  {| opt_isBossWave := None; opt_heroCount := None; opt_spawnDelay := None;
     opt_waveType := None; opt_waveNumber := None |}.

(** The [options] of [spawnHeroInLane]. *)
Record SpawnOptions : Type := {
  opt_heroType : option string;
  opt_healthMultiplier : option Q;
  opt_damageMultiplier : option Q;
  opt_speedMultiplier : option Q;
  opt_startTile : option Q
}.

Definition no_spawn_options : SpawnOptions :=
  {| opt_heroType := None; opt_healthMultiplier := None; opt_damageMultiplier := None;
     opt_speedMultiplier := None; opt_startTile := None |}.

(** [x || 1] for an optional number [x]. *)
Definition or_one (x : option Q) : Q :=
  match x with
  | Some v => if Qeq_bool v 0 then 1 else v
  | None => 1
  end.

(** The state the constructor leaves, with its seven lanes of ten tiles. *)
Definition Game_new : Game.t :=
  {| Game.daen := 10;
     Game.lanes := map (fun i => Lane.create (Z.of_nat i) 10) (seq 0 7);
     Game.selectedMinionType := None;
     Game.gameOver := false;
     Game.victory := None;
     Game.waveNumber := 0;
     Game.waveTimer := 0;
     Game.waveInterval := 30000;
     Game.heroesInWave := 0;
     Game.heroesRemaining := 0;
     Game.onslaughtTriggered := false;
     Game.onslaughtComplete := false;
     Game.bossWave := false;
     Game.spawnTimer := 0;
     Game.spawnDelay := 1000;
     Game.laneCount := 7;
     Game.tileCount := 10;
     Game.isPaused := false;
     Game.isPreparingNextWave := false;
     Game.preparationTimer := 0;
     Game.heap := ∅;
     Game.nextRef := O;
     Game.randomCalls := O;
     Game.timeouts := [];
     Game.floatingTexts := [] |}.

Definition selectMinion (minionType : option string) : M unit :=
  modify (Game.with_selectedMinionType minionType).

(** [canPlaceMinion(laneIndex, tileIndex)]; the result is the truth value of
    what the method returns. *)
Definition canPlaceMinion (laneIndex tileIndex : Z) : M bool :=
  let* g := get in
  if ((laneIndex <? 0) || (laneIndex >=? Game.laneCount g)
      || (tileIndex <? 0) || (tileIndex >=? Game.tileCount g))%Z
  then ret false
  else
    match Game.selectedMinionType g with
    | None => ret false
    | Some EmptyString => ret false
    | Some minionType =>
        match MinionRegistry !! minionType with
        | None => ret false
        | Some MinionClass =>
            if Qlt_bool (Game.daen g) (cost MinionClass) then ret false
            else
              match at_index (Game.lanes g) laneIndex with
              | None => ret false
              | Some lane =>
                  match at_index (Lane.tiles lane) tileIndex with
                  | None => ret false
                  | Some tile =>
                      ret (match Tile.minion tile with
                           | None => true
                           | Some _ => false
                           end)
                  end
              end
        end
    end.

(** [placeMinionAt(laneIndex, tileIndex)]. *)
Definition placeMinionAt (laneIndex tileIndex : Z) : M bool :=
  let* can := canPlaceMinion laneIndex tileIndex in
  if negb can then ret false
  else
    let* g := get in
    match Game.selectedMinionType g ≫= (fun ty => MinionRegistry !! ty) with
    | None => throw (TypeError "MinionClass is not a constructor")
    | Some MinionClass =>
        let* lane := lanes_at laneIndex in
        let* minion := new_object (new_Minion MinionClass laneIndex (inject_Z tileIndex)) in
        match lane with
        | None => throw (TypeError "lane is undefined")
        | Some li =>
            let* placed := on_lane li (Lane.placeMinion minion tileIndex) in
            if placed then
              modify (fun g => Game.with_daen (Game.daen g - cost MinionClass) g) ;;
              updateDaenDisplay ;;
              playSound "place" ;;
              ret true
            else ret false
        end
    end.

(** [generateDaen(deltaTime)]. *)
Definition generateDaen (deltaTime : Q) : M unit :=
  modify (fun g => Game.with_daen (Game.daen g + deltaTime / 2000) g) ;;
  updateDaenDisplay.

(** [getWaveScaling()]. *)
Definition getWaveScaling : M Q :=
  let* g := get in
  ret (1 + (inject_Z (Game.waveNumber g) - 1) * 0.05).

(** [calculateHeroCount()]; [Z.rem] is the [%] of JavaScript. *)
Definition calculateHeroCount : M Z :=
  let* g := get in
  let count := (10 + Game.waveNumber g * 5)%Z in
  if (Z.rem (Game.waveNumber g) 5 =? 0)%Z then
    modify (Game.with_bossWave true) ;;
    ret (Qfloor (inject_Z count * 1.5))
  else
    modify (Game.with_bossWave false) ;;
    ret count.

(** [triggerOnslaught(multiplier)]. *)
Definition triggerOnslaught (multiplier : Q) : M unit :=
  modify (Game.with_onslaughtTriggered true) ;;
  modify (Game.with_onslaughtComplete false) ;;
  let* g := get in
  let onslaughtCount := Qceiling (inject_Z (Game.heroesInWave g) * multiplier) in
  modify (fun g => Game.with_heroesInWave (Game.heroesInWave g + onslaughtCount)%Z g) ;;
  modify (fun g => Game.with_heroesRemaining (Game.heroesRemaining g + onslaughtCount)%Z g) ;;
  modify (fun g => Game.with_spawnDelay (if Game.bossWave g then 400 else 500) g) ;;
  showFloatingText OnslaughtText.


(** [startWave(options)]. *)
Definition startWave (options : WaveOptions) : M unit :=
  modify (fun g =>
    Game.with_waveNumber
      (match opt_waveNumber options with
       | Some n => n
       | None => (Game.waveNumber g + 1)%Z
       end) g) ;;
  modify (Game.with_onslaughtTriggered false) ;;
  modify (Game.with_onslaughtComplete false) ;;
  modify (Game.with_isPreparingNextWave false) ;;
  let* count :=
    match opt_heroCount options with
    | Some n => if (n =? 0)%Z then calculateHeroCount else ret n
    | None => calculateHeroCount
    end in
  modify (Game.with_heroesInWave count) ;;
  modify (fun g => Game.with_heroesRemaining (Game.heroesInWave g) g) ;;
  match opt_spawnDelay options with
  | Some d => modify (Game.with_spawnDelay d)
  | None =>
      modify (fun g =>
        Game.with_spawnDelay (Qmax 300 (1000 - inject_Z (Game.waveNumber g) * 20)) g) ;;
      let* g := get in
      if (match opt_isBossWave options with Some b => b | None => false end
          || Game.bossWave g)%bool
      then
        modify (Game.with_spawnDelay 700) ;;
        modify (Game.with_bossWave true)
      else ret tt
  end ;;
  modify (Game.with_spawnTimer 0) ;;
  let* g := get in
  if Game.bossWave g
  then showFloatingText (BossWaveText (Game.waveNumber g / 5)%Z)
  else ret tt.

(** The class [spawnHeroInLane] builds for a forced [options.heroType]. *)
Definition heroClass_of_type (heroType : string) : HeroClass :=
  let ty := toLowerCase heroType in
  if (String.eqb ty "ashbolt" || String.eqb ty "ashboltscout")%bool then AshboltScout
  else if String.eqb ty "oathblade" then Oathblade
  else Militiant.

(** [spawnHeroInLane(laneIndex, options)]; [None] is the [null] returned for
    an invalid lane index. *)
Definition spawnHeroInLane (laneIndex : Z) (options : SpawnOptions) : M (option ref) :=
  let* g := get in
  if ((laneIndex <? 0) || (laneIndex >=? Z.of_nat (length (Game.lanes g))))%Z
  then ret None
  else
    let* waveScaling := getWaveScaling in
    let startTile :=
      match opt_startTile options with
      | Some t => t
      | None => inject_Z (Game.tileCount g) - 1
      end in
    let* c :=
      match opt_heroType options with
      | Some (String a s) => ret (heroClass_of_type (String a s))
      | _ =>
          let* heroTypeRoll := Math_random in
          if ((Game.waveNumber g >=? 10)%Z && Qlt_bool 0.7 heroTypeRoll)%bool
          then ret Oathblade
          else if ((Game.waveNumber g >=? 5)%Z && Qlt_bool 0.5 heroTypeRoll)%bool
          then ret AshboltScout
          else ret Militiant
      end in
    let* hero := new_object (new_Hero c laneIndex startTile) in
    let healthScale := waveScaling * or_one (opt_healthMultiplier options) in
    let damageScale := waveScaling * or_one (opt_damageMultiplier options) in
    let speedScale := or_one (opt_speedMultiplier options) in
    update_unit hero
      (fun u => Unit.with_health (inject_Z (Qceiling (Unit.health u * healthScale))) u) ;;
    update_unit hero (fun u => Unit.with_maxHealth (Unit.health u) u) ;;
    update_unit hero
      (fun u => Unit.with_damage (inject_Z (Qceiling (Unit.damage u * damageScale))) u) ;;
    update_unit hero (fun u => Unit.with_moveSpeed (Unit.moveSpeed u * speedScale) u) ;;
    (if (Z.rem (Game.waveNumber g) 5 =? 0)%Z then
       update_unit hero
         (fun u => Unit.with_health (inject_Z (Qceiling (Unit.health u * 1.5))) u) ;;
       update_unit hero (fun u => Unit.with_maxHealth (Unit.health u) u) ;;
       update_unit hero
         (fun u => Unit.with_damage (inject_Z (Qceiling (Unit.damage u * 1.5))) u) ;;
       update_unit hero (fun u => Unit.with_moveSpeed (Unit.moveSpeed u * 0.8) u)
     else ret tt) ;;
    let waveSpeedScale := Qmin 1.5 (1 + (inject_Z (Game.waveNumber g) - 1) * 0.02) in
    update_unit hero (fun u => Unit.with_moveSpeed (Unit.moveSpeed u * waveSpeedScale) u) ;;
    let* jitter := Math_random in
    update_unit hero
      (fun u => Unit.with_moveSpeed (Unit.moveSpeed u * (0.9 + jitter * 0.2)) u) ;;
    on_lane (Z.to_nat laneIndex) (fun l => (Normal tt, Lane.addHero hero l)) ;;
    showFloatingText (WaveText (Game.waveNumber g) c) ;;
    ret (Some hero).

(** [spawnNextHero()]. *)
Definition spawnNextHero : M unit :=
  let* g := get in
  if (Game.heroesRemaining g <=? 0)%Z then
    if Game.onslaughtTriggered g then
      modify (Game.with_onslaughtComplete true) ;;
      modify (Game.with_onslaughtTriggered false)
    else ret tt
  else
    let* r := Math_random in
    let laneIndex := Qfloor (r * inject_Z (Game.laneCount g)) in
    spawnHeroInLane laneIndex no_spawn_options ;;
    modify (fun g => Game.with_heroesRemaining (Game.heroesRemaining g - 1)%Z g) ;;
    let* g1 := get in
    let onslaughtThreshold := Qceiling (inject_Z (Game.heroesInWave g1) * 0.2) in
    (if ((Game.heroesRemaining g1 =? onslaughtThreshold)%Z
         && negb (Game.onslaughtTriggered g1))%bool
     then triggerOnslaught 2
     else ret tt) ;;
    let* g2 := get in
    if (0 <? Game.heroesRemaining g2)%Z then
      let* jitter := Math_random in
      let delay := Game.spawnDelay g2 + (jitter * 200 - 100) in
      setTimeout_spawnNextHero (Qmax 100 delay)
    else if Game.onslaughtTriggered g2 then
      modify (Game.with_onslaughtComplete true) ;;
      modify (Game.with_onslaughtTriggered false)
    else ret tt.

(** [spawnWave(options)]. *)
Definition spawnWave (options : WaveOptions) : M unit :=
  startWave options ;;
  spawnNextHero.

(** The browser running the oldest pending [setTimeout] callback. *)
Definition runTimeout : M unit :=
  let* g := get in
  match Game.timeouts g with
  | [] => ret tt
  | _ :: pending =>
      modify (Game.with_timeouts pending) ;;
      spawnNextHero
  end.

(** [startNextWavePreparation(duration)]. *)
Definition startNextWavePreparation (duration : Q) : M unit :=
  let* g := get in
  if Game.isPreparingNextWave g then ret tt
  else
    let waveBonus := (10 + Game.waveNumber g * 2)%Z in
    modify (fun g => Game.with_daen (Game.daen g + inject_Z waveBonus) g) ;;
    updateDaenDisplay ;;
    showFloatingText (DaenBonusText waveBonus) ;;
    modify (Game.with_isPreparingNextWave true) ;;
    modify (Game.with_preparationTimer duration) ;;
    showFloatingText PrepareText.

(** [areAllHeroesDead()]. *)
Definition areAllHeroesDead : M bool :=
  let* g := get in
  if existsb (fun l => (0 <? length (Lane.heroes l))%nat) (Game.lanes g) then ret false
  else
    (if (negb (Game.isPreparingNextWave g) && (Game.heroesRemaining g =? 0)%Z
         && (0 <? Game.waveNumber g)%Z)%bool
     then startNextWavePreparation 15000
     else ret tt) ;;
    ret true.

(** The two nested loops of [checkGameOver]: whether some hero, in lane
    and list order, stands at position [<= 0]. *)
Fixpoint heroAtCastle (heroes : list ref) : M bool :=
  match heroes with
  | [] => ret false
  | h :: rest =>
      let* hero := deref h in
      if Qle_bool (Unit.position hero) 0 then ret true else heroAtCastle rest
  end.

(** [checkGameOver()]. *)
Definition checkGameOver : M unit :=
  let* g := get in
  let* lost := heroAtCastle (concat (map Lane.heroes (Game.lanes g))) in
  if lost then
    modify (Game.with_gameOver true) ;;
    modify (Game.with_victory (Some false))
  else if (Game.waveNumber g >=? 10)%Z then
    let* dead := areAllHeroesDead in
    if dead then
      modify (Game.with_gameOver true) ;;
      modify (Game.with_victory (Some true))
    else ret tt
  else ret tt.

(** [update(deltaTime)]. *)
Definition update (deltaTime : Q) : M unit :=
  let* g := get in
  if (Game.gameOver g || Game.isPaused g)%bool then ret tt
  else
    modify (fun g => Game.with_daen (Game.daen g + (deltaTime / 2000) * 0.64) g) ;;
    updateDaenDisplay ;;
    (if Game.isPreparingNextWave g then
       modify (fun g => Game.with_preparationTimer (Game.preparationTimer g - deltaTime) g) ;;
       let* g1 := get in
       if Qle_bool (Game.preparationTimer g1) 0 then
         modify (Game.with_isPreparingNextWave false) ;;
         spawnWave no_wave_options
       else ret tt
     else
       modify (fun g => Game.with_waveTimer (Game.waveTimer g + deltaTime) g) ;;
       let* g1 := get in
       if (Qle_bool (Game.waveInterval g1) (Game.waveTimer g1)
           && (Game.heroesInWave g1 =? 0)%Z)%bool
       then
         modify (Game.with_waveTimer 0) ;;
         spawnWave no_wave_options
       else ret tt) ;;
    let* g2 := get in
    forEach (seq 0 (length (Game.lanes g2))) (fun li => Lane_update li deltaTime) ;;
    areAllHeroesDead ;;
    checkGameOver.

End Engine.

(** * Specification vocabulary *)

(** ** Well-formed states *)

(** A lane has as many tiles as its [tileCount] says: what the constructor
    builds, and no method changes the number of tiles. *)
Definition wf_lane (l : Lane.t) : Prop :=
  Z.of_nat (length (Lane.tiles l)) = Lane.tileCount l.

(** The defender a tile of the lane holds: [None] when there is no such
    tile, [Some None] for an empty tile. *)
Definition occupant (l : Lane.t) (tileIndex : Z) : option (option ref) :=
  Tile.minion <$> at_index (Lane.tiles l) tileIndex.


(** ** Targeting *)

(** The outcome the targeting rule asks for, for a searcher at [selfPos]
    with range [range] over the candidates in iteration order: no result
    when no candidate is within range; otherwise the candidate at some place
    [i] of the list, within range, no farther than any candidate within range,
    and strictly nearer than every candidate within range that comes before
    it (so that, among the nearest, it is the first). *)
Definition nearest_first (selfPos range : Q) (candidates : list (ref * Q))
    (result : option ref) : Prop :=
  match result with
  | None =>
      forall (j : nat) (c : ref) (q : Q),
        candidates !! j = Some (c, q) -> ~ (Qabs (selfPos - q) <= range)
  | Some t =>
      exists (i : nat) (p : Q),
        candidates !! i = Some (t, p)
        /\ Qabs (selfPos - p) <= range
        /\ (forall (j : nat) (c : ref) (q : Q),
              candidates !! j = Some (c, q) -> Qabs (selfPos - q) <= range ->
              Qabs (selfPos - p) <= Qabs (selfPos - q))
        /\ (forall (j : nat) (c : ref) (q : Q),
              (j < i)%nat -> candidates !! j = Some (c, q) ->
              Qabs (selfPos - q) <= range ->
              Qabs (selfPos - p) < Qabs (selfPos - q))
  end.

(** The opposing units of a container with the positions the heap gives
    them. *)
Definition located (g : Game.t) (rs : list ref) : list (ref * Q) :=
  omap (fun r => (fun u => (r, Unit.position u)) <$> Game.heap g !! r) rs.

(** Every reference of a container is a unit of the heap. *)
Definition all_objects (g : Game.t) (rs : list ref) : Prop :=
  Forall (fun r => is_Some (Game.heap g !! r)) rs.

(** What the loop of [findTarget] knows after the candidates [seen]. *)
Definition scan_state (selfPos range : Q) (seen : list (ref * Q))
    (closest : option ref) (closestDistance : option Q) : Prop :=
  match closest, closestDistance with
  | None, None =>
      forall (j : nat) (c : ref) (q : Q),
        seen !! j = Some (c, q) -> ~ (Qabs (selfPos - q) <= range)
  | Some t, Some d =>
      exists (i : nat) (p : Q),
        seen !! i = Some (t, p)
        /\ d = Qabs (selfPos - p)
        /\ d <= range
        /\ (forall (j : nat) (c : ref) (q : Q),
              seen !! j = Some (c, q) -> Qabs (selfPos - q) <= range ->
              d <= Qabs (selfPos - q))
        /\ (forall (j : nat) (c : ref) (q : Q),
              (j < i)%nat -> seen !! j = Some (c, q) ->
              Qabs (selfPos - q) <= range -> d < Qabs (selfPos - q))
  | _, _ => False
  end.

(** ** Example states *)

(** An oracle that always answers a quarter. *)
Definition quarter (n : nat) : Q := 0.25.

Definition at_tile (heroType : string) (tile : Q) : SpawnOptions :=
  {| opt_heroType := Some heroType; opt_healthMultiplier := None;
     opt_damageMultiplier := None; opt_speedMultiplier := None;
     opt_startTile := Some tile |}.

(** The new game with [minionType] selected. *)
Definition selecting (minionType : string) : Game.t :=
  Game.with_selectedMinionType (Some minionType) Game_new.

(** Lane 0 after a Gravelim (object 0) was placed on tile 5 and two
    Militiants were spawned, object 1 on tile 6 and object 2 on tile 4. *)
Definition skirmish : Game.t :=
  let g1 := snd (placeMinionAt 0 5 (selecting "gravelim")) in
  let g2 := snd (spawnHeroInLane quarter 0 (at_tile "militant" 6) g1) in
  snd (spawnHeroInLane quarter 0 (at_tile "militant" 4) g2).

(** ** Wave start *)

(** The hero count the specification gives for wave [w]: [10 + 5 w], times
    [1.5] on a boss wave. *)
Definition heroCount_as_claimed (w : Z) : Q :=
  if (Z.rem w 5 =? 0)%Z then (10 + 5 * inject_Z w) * 1.5 else 10 + 5 * inject_Z w.

(** The spawn delay formula [max(300, 1000 - 20 w)]. *)
Definition spawnDelay_formula (w : Z) : Q := Qmax 300 (1000 - 20 * inject_Z w).

(** The wave start as the specification words it, for a call without
    options on [g].  A slower spawn is a longer delay. *)
Definition startWave_as_claimed (g : Game.t) : Prop :=
  let g' := snd (startWave no_wave_options g) in
  let w := Game.waveNumber g' in
  w = (Game.waveNumber g + 1)%Z
  /\ inject_Z (Game.heroesInWave g') == heroCount_as_claimed w
  /\ Game.bossWave g' = (Z.rem w 5 =? 0)%Z
  /\ ((Z.rem w 5 =? 0)%Z = false -> Game.spawnDelay g' == spawnDelay_formula w)
  /\ ((Z.rem w 5 =? 0)%Z = true -> spawnDelay_formula w < Game.spawnDelay g')
  /\ Game.onslaughtTriggered g' = false
  /\ Game.onslaughtComplete g' = false.

(** The game when wave 4 is over. *)
Definition after_wave4 : Game.t := Game.with_waveNumber 4 Game_new.

(** ** Spawn scaling in binary64 *)

(** The rational a finite binary64 number denotes. *)
Definition float_to_Q (x : float) : option Q :=
  match Prim2SF x with
  | S754_zero _ => Some 0
  | S754_finite s m e =>
      let magnitude :=
        if (0 <=? e)%Z then inject_Z (Z.pos m * 2 ^ e)
        else Z.pos m # (2 ^ Z.to_pos (- e)) in
      Some (if s then - magnitude else magnitude)
  | _ => None
  end.

(** [Math.ceil] of a finite binary64 number. *)
Definition Math_ceil_binary64 (x : float) : option Z := Qceiling <$> float_to_Q x.

(** A small non-negative integer as a binary64 number. *)
Definition binary64_of_Z (z : Z) : float := PrimFloat.of_uint63 (Uint63.of_Z z).

#[local] Set Warnings "-inexact-float".

(** The statements of [getWaveScaling] and [spawnHeroInLane] that compute
    the health of a hero of base health [base] on wave [waveNumber], with no
    [healthMultiplier], evaluated in binary64 as JavaScript does. *)
Definition spawn_health_binary64 (base waveNumber : Z) : option Z :=
  let waveScaling := (1 + (binary64_of_Z waveNumber - 1) * 0.05)%float in
  let healthScale := (waveScaling * 1)%float in
  h ← Math_ceil_binary64 (binary64_of_Z base * healthScale);
  if (Z.rem waveNumber 5 =? 0)%Z
  then Math_ceil_binary64 (binary64_of_Z h * 1.5)
  else Some h.

(** The new game on wave 5. *)
Definition on_wave5 : Game.t := Game.with_waveNumber 5 Game_new.

(** ** End of the game *)

(** The heroes of all lanes, in the order [checkGameOver] visits them. *)
Definition all_heroes (g : Game.t) : list ref :=
  concat (map Lane.heroes (Game.lanes g)).

(** No lane holds a hero. *)
Definition lanes_clear (g : Game.t) : Prop :=
  Forall (fun l => Lane.heroes l = []) (Game.lanes g).

(** Wave 10 has just begun: [spawnWave] ran after wave 9, which put the
    first hero of the wave (object 0) in a lane and left 89 to spawn; then
    that hero took 1000 damage and died. *)
Definition wave10_first_kill : Game.t :=
  let g1 := snd (spawnWave quarter no_wave_options (Game.with_waveNumber 9 Game_new)) in
  snd (Unit_takeDamage quarter 0%nat 1000 g1).

(** ** Pause *)



(** ** Placement requests *)

(** The grid is the one the constructor builds: [laneCount] lanes, each
    with [tileCount] tiles. *)
Definition wf_game (g : Game.t) : Prop :=
  Z.of_nat (length (Game.lanes g)) = Game.laneCount g
  /\ Forall (fun l => wf_lane l /\ Lane.tileCount l = Game.tileCount g) (Game.lanes g).

(** A placement request is valid when both indices are in bounds, a known
    defender type is selected, the Daen covers its cost and the tile is
    empty. *)
Definition valid_request (g : Game.t) (laneIndex tileIndex : Z) : Prop :=
  (0 <= laneIndex < Game.laneCount g)%Z
  /\ (0 <= tileIndex < Game.tileCount g)%Z
  /\ exists (minionType : string) (c : MinionClass) (l : Lane.t),
       Game.selectedMinionType g = Some minionType
       /\ MinionRegistry !! minionType = Some c
       /\ cost c <= Game.daen g
       /\ Game.lanes g !! Z.to_nat laneIndex = Some l
       /\ occupant l tileIndex = Some None.

(** ** Onslaught *)

(** The number of times the onslaught has fired: the ONSLAUGHT! texts
    shown so far. *)
Fixpoint count_onslaughts (texts : list FloatingText) : nat :=
  match texts with
  | [] => O
  | OnslaughtText :: rest => S (count_onslaughts rest)
  | _ :: rest => count_onslaughts rest
  end.

Definition onslaughts (g : Game.t) : nat := count_onslaughts (Game.floatingTexts g).


Section Events.

Variable random : nat -> Q.



End Events.

(** What the wave scheduler keeps about the onslaught. *)
Definition wave_view (g : Game.t) : bool * bool * Z * Z * bool * Q * nat :=
  (Game.onslaughtTriggered g, Game.onslaughtComplete g, Game.heroesInWave g,
   Game.heroesRemaining g, Game.bossWave g, Game.spawnDelay g, onslaughts g).

(** A computation leaves a view of the state as it found it, however it
    completes. *)
Definition preserves {A X : Type} (view : Game.t -> X) (c : M A) : Prop :=
  forall g : Game.t, view (snd (c g)) = view g.




(** ** Damage and death *)

(** The lane a unit names as its own: [this.game.lanes[this.lane]]. *)
Definition home_lane (g : Game.t) (u : Unit.t) : option Lane.t :=
  at_index (Game.lanes g) (Unit.lane u).

(** The containers of lane [l] that own units of the class of [u] hold the
    reference [self]: the attacker list for a hero; the defender list or a
    tile for a minion. *)
Definition holds (l : Lane.t) (u : Unit.t) (self : ref) : Prop :=
  match Unit.cls u with
  | HeroOf _ => self ∈ Lane.heroes l
  | MinionOf _ =>
      self ∈ Lane.minions l
      \/ exists tile : Tile.t, tile ∈ Lane.tiles l /\ Tile.minion tile = Some self
  end.

(** The containers of lane [l] are in order around [self]: the lane has its
    tiles; a hero is listed at most once and the defenders of the lane are
    objects; a minion is listed at most once and no tile but the one under
    its position refers to it. *)
Definition consistent (g : Game.t) (l : Lane.t) (u : Unit.t) (self : ref) : Prop :=
  wf_lane l
  /\ match Unit.cls u with
     | HeroOf _ => NoDup (Lane.heroes l) /\ all_objects g (Lane.minions l)
     | MinionOf _ =>
         NoDup (Lane.minions l)
         /\ forall (i : nat) (tile : Tile.t),
              Lane.tiles l !! i = Some tile -> Tile.minion tile = Some self ->
              Z.of_nat i = Qfloor (Unit.position u)
     end.

(** What death touches besides the unit itself: the lanes, the Daen, the
    draws from [Math.random] and the floating texts. *)
Definition death_view (g : Game.t) : list Lane.t * Q * nat * list FloatingText :=
  (Game.lanes g, Game.daen g, Game.randomCalls g, Game.floatingTexts g).

Section Strikes.

Variable random : nat -> Q.

(** Calls of [takeDamage] on the same unit, one after the other. *)
Fixpoint strikes (self : ref) (amounts : list Q) (g : Game.t) : Game.t :=
  match amounts with
  | [] => g
  | a :: rest => strikes self rest (snd (Unit_takeDamage random self a g))
  end.

End Strikes.

(** The unit behind [self] is in none of the containers of its lane, and
    these are in order. *)
Definition released (g : Game.t) (self : ref) : Prop :=
  exists (u : Unit.t) (l : Lane.t),
    Game.heap g !! self = Some u
    /\ home_lane g u = Some l
    /\ consistent g l u self
    /\ ~ holds l u self.

(** ** The tick of an attacker *)

(** Some defender of lane [l] is within the attack range of unit [u]. *)
Definition defender_in_range (g : Game.t) (u : Unit.t) (l : Lane.t) : Prop :=
  exists (m : ref) (mu : Unit.t),
    m ∈ Lane.minions l
    /\ Game.heap g !! m = Some mu
    /\ Qabs (Unit.position u - Unit.position mu) <= Unit.attackRange u.

(** The position the heap gives the unit behind [self]. *)
Definition position_of (self : ref) (g : Game.t) : option Q :=
  Unit.position <$> Game.heap g !! self.

(** The unit as the first statement of [update] leaves it: the attack
    cooldown goes down by [deltaTime] when it is positive. *)
Definition cooled (deltaTime : Q) (u : Unit.t) : Unit.t :=
  if Qlt_bool 0 (Unit.attackCooldown u)
  then Unit.with_attackCooldown (Unit.attackCooldown u - deltaTime) u
  else u.

(** The state with the unit behind [self] replaced by [u]. *)
Definition with_unit (self : ref) (u : Unit.t) (g : Game.t) : Game.t :=
  Game.with_heap (<[self := u]> (Game.heap g)) g.

(** The position [Unit.move] gives a unit: a step of
    [moveSpeed * deltaTime / 1000] in its direction, kept within the grid. *)
Definition moved_position (g : Game.t) (deltaTime : Q) (u : Unit.t) : Q :=
  Qmax 0 (Qmin (inject_Z (Game.tileCount g) - 1)
            (Unit.position u
             + (Unit.moveSpeed u * deltaTime) / 1000 * Unit.direction u)).

(** ** Allocation *)

(** Every defender a lane lists was created by [new]: its reference is
    below the next one to be handed out. *)
Definition allocated (g : Game.t) : Prop :=
  Forall (fun l => Forall (fun r => (r < Game.nextRef g)%nat) (Lane.minions l))
    (Game.lanes g).
(** * Further vocabulary *)

(** The new game after a Daemon Altar (object 0) was placed on tile 5 of
    lane 0. *)
Definition altar_field : Game.t := snd (placeMinionAt 0 5 (selecting "daemonaltar")).

(** ** Relations between the state before and the state after *)

(** A computation takes every state to one that is related to it by [R],
    however it completes. *)
Definition advances {A : Type} (R : relation Game.t) (c : M A) : Prop :=
  forall g : Game.t, R g (snd (c g)).

(** The state after has the same [view] as the state before. *)
Definition same {X : Type} (view : Game.t -> X) : relation Game.t :=
  fun g g' => view g' = view g.

(** A tile as [Lane.removeMinion] may leave it: the same tile, holding what
    it held or nothing. *)
Definition tile_kept (tile tile' : Tile.t) : Prop :=
  Tile.laneIndex tile' = Tile.laneIndex tile
  /\ Tile.position tile' = Tile.position tile
  /\ (Tile.minion tile' = Tile.minion tile \/ Tile.minion tile' = None).

(** A lane as a death may leave it: the same index and width, the tiles
    kept, and heroes and defenders taken off the lists, none added. *)
Definition lane_shrinks (l l' : Lane.t) : Prop :=
  Lane.index l' = Lane.index l
  /\ Lane.tileCount l' = Lane.tileCount l
  /\ Forall2 tile_kept (Lane.tiles l) (Lane.tiles l')
  /\ Lane.heroes l' `sublist_of` Lane.heroes l
  /\ Lane.minions l' `sublist_of` Lane.minions l.

(** The shape of the grid: the counts the game keeps and, lane by lane, the
    width the lane keeps and the number of its tiles. *)
Definition grid_shape (g : Game.t) : Z * Z * list (Z * nat) :=
  (Game.laneCount g, Game.tileCount g,
   map (fun l => (Lane.tileCount l, length (Lane.tiles l))) (Game.lanes g)).

(** The Daen does not go down (while the wave number is not negative, which
    it then stays). *)
Definition daen_grows : relation Game.t :=
  fun g g' =>
    (0 <= Game.waveNumber g)%Z ->
    (0 <= Game.waveNumber g')%Z /\ Game.daen g <= Game.daen g'.


(** A property of the state that, once it holds, holds afterwards. *)
Definition keeps (I : Game.t -> Prop) : relation Game.t := fun g g' => I g -> I g'.

(** ** Restarting *)

(** [initializeLanes()]: one new lane for each index below [laneCount],
    pushed on [this.lanes]. *)
Definition initializeLanes : M unit :=
  modify (fun g =>
    Game.with_lanes
      (Game.lanes g
       ++ map (fun i => Lane.create (Z.of_nat i) (Game.tileCount g))
            (seq 0 (Z.to_nat (Game.laneCount g)))) g).

(** [restart()].  Its last two calls, [stop()] and [start()], cancel the
    animation frame and request a new one; they touch nothing of the
    simulation state.  The callbacks [setTimeout] holds stay pending. *)
Definition restart : M unit :=
  modify (Game.with_daen 10) ;;
  modify (Game.with_lanes []) ;;
  modify (Game.with_selectedMinionType None) ;;
  modify (Game.with_gameOver false) ;;
  modify (Game.with_waveNumber 0) ;;
  modify (Game.with_waveTimer 0) ;;
  initializeLanes ;;
  updateDaenDisplay.

(** ** Play *)

(** What happens to a game: an animation frame [deltaTime] after the last,
    a [setTimeout] callback coming due, the player selecting a defender type
    or asking for a placement, a restart. *)
Inductive PlayEvent : Type :=
| Tick (deltaTime : Q)
| Timeout
| Select (minionType : option string)
| Place (laneIndex tileIndex : Z)
| Restart.

Section Play.

Variable random : nat -> Q.

Definition play_event (e : PlayEvent) : M unit :=
  match e with
  | Tick deltaTime => update random deltaTime
  | Timeout => runTimeout random
  | Select minionType => selectMinion minionType
  | Place laneIndex tileIndex => placeMinionAt laneIndex tileIndex ;; ret tt
  | Restart => restart
  end.

(** The events one after the other, each on the state the one before left
    (whether it completed or threw). *)
Fixpoint play (events : list PlayEvent) (g : Game.t) : Game.t :=
  match events with
  | [] => g
  | e :: rest => play rest (snd (play_event e g))
  end.

End Play.

(** An event that is not an action of the player on the Daen: a frame
    after a time that is not negative, a callback, a selection. *)
Definition idle (e : PlayEvent) : Prop :=
  match e with
  | Tick deltaTime => 0 <= deltaTime
  | Timeout => True
  | Select _ => True
  | Place _ _ => False
  | Restart => False
  end.

(** A wave has been started and no preparation is under way, yet the wave
    number is [0]: the state a restart leaves when it comes during a wave. *)
Definition stalled (g : Game.t) : Prop :=
  Game.waveNumber g = 0%Z
  /\ Game.heroesInWave g <> 0%Z
  /\ Game.isPreparingNextWave g = false.

(** The first wave has begun: the new game after a frame of 30 seconds. *)
Definition in_wave1 : Game.t := snd (update quarter 30000 Game_new).

(** ** Spawning *)

(** The fields a spawn leaves to the new hero. *)
Definition spawned_as (c : HeroClass) (laneIndex : Z) (startTile : Q) (u : Unit.t) : Prop :=
  Unit.cls u = HeroOf c
  /\ Unit.lane u = laneIndex
  /\ Unit.position u = startTile
  /\ Unit.direction u = -1
  /\ Unit.attackCooldown u = 0
  /\ Unit.attackRange u = Unit.attackRange (new_Hero c laneIndex startTile)
  /\ Unit.attackSpeed u = Unit.attackSpeed (new_Hero c laneIndex startTile)
  /\ Unit.maxHealth u = Unit.health u
  /\ (exists z : Z, Unit.health u = inject_Z z)
  /\ (exists z : Z, Unit.damage u = inject_Z z).

(** The calls of [spawnNextHero] a wave still needs: the heroes left, and
    before the onslaught has fired the [2 * heroesInWave] it will add. *)
Definition spawns_left (g : Game.t) : Z :=
  if Game.onslaughtTriggered g then Game.heroesRemaining g
  else (Game.heroesRemaining g + 2 * Game.heroesInWave g)%Z.

(** The size the wave has at its end: three times the count it began with. *)
Definition wave_total (g : Game.t) : Z :=
  if Game.onslaughtTriggered g then Game.heroesInWave g
  else (3 * Game.heroesInWave g)%Z.

(** The onslaughts shown when the wave ends. *)
Definition onslaughts_due (g : Game.t) : nat :=
  if Game.onslaughtTriggered g then onslaughts g else S (onslaughts g).

(** A wave is spawning: heroes are left, and when the onslaught has not
    fired the count left is still above its threshold. *)
Definition chain_open (g : Game.t) : Prop :=
  (0 < Game.heroesRemaining g)%Z
  /\ (Game.onslaughtTriggered g = false ->
      (0 < Game.heroesInWave g)%Z
      /\ (Qceiling (inject_Z (Game.heroesInWave g) * 0.2) < Game.heroesRemaining g)%Z).

(** A wave that still needs [n] calls of [spawnNextHero], the next of
    which is the one callback pending, and that will end with [total]
    heroes in the wave and [due] onslaughts shown. *)
Definition spawning (n : nat) (total : Z) (due : nat) (g : Game.t) : Prop :=
  chain_open g
  /\ spawns_left g = Z.of_nat n
  /\ wave_total g = total
  /\ onslaughts_due g = due
  /\ exists delay : Q, Game.timeouts g = [delay].

(** ** The bounty of a kill *)

(** Defender [m] is a Dreadchant within [conversionRange] of a hero at
    [heroPos]. *)
Definition converts (g : Game.t) (heroPos : Q) (m : ref) : bool :=
  match Game.heap g !! m with
  | Some mu =>
      match Unit.cls mu with
      | MinionOf Dreadchant => Qle_bool (Qabs (Unit.position mu - heroPos)) conversionRange
      | _ => false
      end
  | None => false
  end.

(** The number of entries of a defender list that convert a hero dying at
    [heroPos]. *)
Definition conversions (g : Game.t) (heroPos : Q) (ms : list ref) : nat :=
  length (List.filter (converts g heroPos) ms).

(** Lane 0 after a Dreadchant (object 0) was placed on tile 5 and a
    Militiant (object 1) was spawned on tile 6. *)
Definition chant_field : Game.t :=
  snd (spawnHeroInLane quarter 0 (at_tile "militant" 6)
         (snd (placeMinionAt 0 5 (selecting "dreadchant")))).

(** ** The tick of a defender *)

(** Some hero of lane [l] is within the attack range of unit [u]. *)
Definition attacker_in_range (g : Game.t) (u : Unit.t) (l : Lane.t) : Prop :=
  exists (h : ref) (hu : Unit.t),
    h ∈ Lane.heroes l
    /\ Game.heap g !! h = Some hu
    /\ Qabs (Unit.position u - Unit.position hu) <= Unit.attackRange u.

(** The unit as the last statement of [Minion.update] leaves it: the
    ability cooldown goes down by [deltaTime] when it is positive. *)
Definition tick_cooldown (deltaTime : Q) (u : Unit.t) : Unit.t :=
  if Qlt_bool 0 (Unit.cooldown u)
  then Unit.with_cooldown (Unit.cooldown u - deltaTime) u
  else u.

(** The unit after an attack: the attack cooldown is one period of its
    attack speed. *)
Definition rearmed (u : Unit.t) : Unit.t :=
  Unit.with_attackCooldown (1000 / Unit.attackSpeed u) u.

(** The unit after a hit of [damage] that it survives. *)
Definition struck (damage : Q) (u : Unit.t) : Unit.t :=
  Unit.with_health (Unit.health u - damage) u.
(** ** Sound states *)

(** The reference names a unit whose class is one of [kind]. *)
Definition is_unit (g : Game.t) (kind : UnitClass -> Prop) (r : ref) : Prop :=
  exists u : Unit.t, Game.heap g !! r = Some u /\ kind (Unit.cls u).

Definition hero_class (c : UnitClass) : Prop := exists h : HeroClass, c = HeroOf h.

Definition minion_class (c : UnitClass) : Prop := exists m : MinionClass, c = MinionOf m.

(** The containers of a lane hold units of their side: heroes in the
    attacker list, defenders in the defender list and on the tiles. *)
Definition sound_lane (g : Game.t) (l : Lane.t) : Prop :=
  Forall (is_unit g hero_class) (Lane.heroes l)
  /\ Forall (is_unit g minion_class) (Lane.minions l)
  /\ Forall (fun tile => forall m : ref, Tile.minion tile = Some m ->
                                         is_unit g minion_class m) (Lane.tiles l).

(** A state the engine can run on: the grid has its shape, the containers
    of every lane hold units of their side, and every unit names a lane of
    the game and was created by [new]. *)
Definition sound (g : Game.t) : Prop :=
  wf_game g
  /\ Forall (sound_lane g) (Game.lanes g)
  /\ forall (r : ref) (u : Unit.t),
       Game.heap g !! r = Some u ->
       (0 <= Unit.lane u < Game.laneCount g)%Z /\ (r < Game.nextRef g)%nat.

(** The state after knows the units of the state before, each with the
    class and the lane it had, and the grid has the same counts. *)
Definition extends : relation Game.t :=
  fun g g' =>
    Game.laneCount g' = Game.laneCount g
    /\ Game.tileCount g' = Game.tileCount g
    /\ forall (r : ref) (u : Unit.t),
         Game.heap g !! r = Some u ->
         exists u' : Unit.t,
           Game.heap g' !! r = Some u'
           /\ Unit.cls u' = Unit.cls u /\ Unit.lane u' = Unit.lane u.

(** The attacker lists of the lanes. *)
Definition hero_lists (g : Game.t) : list (list ref) := map Lane.heroes (Game.lanes g).

(** An event that is not a placement request. *)
Definition no_placement (e : PlayEvent) : Prop :=
  match e with
  | Place _ _ => False
  | _ => True
  end.

(** A computation that completes normally on every state. *)
Definition total {A : Type} (c : M A) : Prop :=
  forall g : Game.t, exists (a : A) (g' : Game.t), c g = (Normal a, g').

(** A computation that completes normally on every sound state, and
    leaves a sound state. *)
Definition safe {A : Type} (c : M A) : Prop :=
  forall g : Game.t, sound g -> exists (a : A) (g' : Game.t), c g = (Normal a, g') /\ sound g'.

(** ** The castle *)




(** ** Tidy states *)

(** Reference [r] names a unit of a defender class that stands at [p]. *)
Definition stands_at (r : ref) (p : Q) (g : Game.t) : Prop :=
  is_unit g minion_class r /\ position_of r g = Some p.

(** Every lane of the state after is what deaths leave of the lane it was
    before. *)
Definition lanes_shrink : relation Game.t :=
  fun g g' => Forall2 lane_shrinks (Game.lanes g) (Game.lanes g').


(** * Properties *)

(** Arithmetic on [Q] stays folded under [simpl] and [cbn]. *)
Arguments Qfloor : simpl never.
Arguments Qceiling : simpl never.
Arguments Qmax : simpl never.
Arguments Qmin : simpl never.
Arguments Qabs : simpl never.
Arguments Qle_bool : simpl never.
Arguments Qlt_bool : simpl never.
Arguments Qeq_bool : simpl never.
Arguments Qplus : simpl never.
Arguments Qminus : simpl never.
Arguments Qmult : simpl never.
Arguments Qdiv : simpl never.
Arguments Qopp : simpl never.
Arguments inject_Z : simpl never.
Arguments Z.rem : simpl never.
Arguments Z.add : simpl never.
Arguments Z.mul : simpl never.
Arguments Z.div : simpl never.

(** ** Numbers and arrays *)

Lemma Qlt_bool_iff (x y : Q) : Qlt_bool x y = true <-> (x < y)%Q.
Proof.
  unfold Qlt_bool. rewrite negb_true_iff.
  destruct (Qle_bool y x) eqn:E.
  - apply Qle_bool_iff in E. split; [discriminate | intros H; lra].
  - split; [intros _ | reflexivity].
    destruct (Qlt_le_dec x y) as [H | H]; [exact H |].
    apply Qle_bool_iff in H. congruence.
Qed.

Lemma Qle_bool_false (x y : Q) : Qle_bool x y = false <-> (y < x)%Q.
Proof.
  destruct (Qle_bool x y) eqn:E.
  - apply Qle_bool_iff in E. split; [discriminate | intros H; lra].
  - split; [intros _ | reflexivity].
    destruct (Qlt_le_dec y x) as [H | H]; [exact H |].
    apply Qle_bool_iff in H. congruence.
Qed.

Lemma at_index_Some {A : Type} (l : list A) (i : Z) :
  (0 <= i < Z.of_nat (length l))%Z -> exists x, at_index l i = Some x.
Proof.
  intros [H0 H1]. unfold at_index.
  destruct (Z.ltb_spec i 0); [lia |].
  destruct (lookup_lt_is_Some_2 l (Z.to_nat i)) as [x Hx]; [lia |].
  exists x. exact Hx.
Qed.

Lemma at_index_lookup {A : Type} (l : list A) (i : Z) (x : A) :
  at_index l i = Some x -> (0 <= i)%Z /\ l !! Z.to_nat i = Some x.
Proof.
  unfold at_index. destruct (Z.ltb_spec i 0); [discriminate |].
  intros H'. split; [lia | exact H'].
Qed.

Lemma at_index_insert {A : Type} (l : list A) (i : Z) (x y : A) :
  at_index l i = Some x -> at_index (<[Z.to_nat i := y]> l) i = Some y.
Proof.
  intros H. apply at_index_lookup in H as [H0 H1].
  unfold at_index. destruct (Z.ltb_spec i 0); [lia |].
  apply list_lookup_insert_eq. eapply lookup_lt_Some. exact H1.
Qed.

Lemma count_occ_snoc (m x : nat) (l : list nat) :
  count_occ Nat.eq_dec (l ++ [x]) m
  = (count_occ Nat.eq_dec l m + (if Nat.eq_dec x m then 1 else 0))%nat.
Proof.
  rewrite count_occ_app. simpl. destruct (Nat.eq_dec x m); reflexivity.
Qed.

Lemma wf_lane_create (index tileCount : Z) :
  (0 <= tileCount)%Z -> wf_lane (Lane.create index tileCount).
Proof.
  intros H. unfold wf_lane, Lane.create. simpl.
  rewrite length_map, length_seq. lia.
Qed.

(** ** Placement on a lane *)

Lemma canPlaceAt_true (l : Lane.t) (tileIndex : Z) :
  Lane.canPlaceAt tileIndex l = Normal true ->
  (0 <= tileIndex < Lane.tileCount l)%Z /\ occupant l tileIndex = Some None.
Proof.
  unfold Lane.canPlaceAt, occupant.
  destruct (Z.ltb_spec tileIndex 0); simpl; [discriminate |].
  destruct (Z.geb_spec tileIndex (Lane.tileCount l)); simpl; [discriminate |].
  destruct (at_index (Lane.tiles l) tileIndex) as [tile |]; [| discriminate].
  unfold Tile.isEmpty. destruct (Tile.minion tile) eqn:E; [discriminate |].
  intros _. simpl. rewrite E. split; [lia | reflexivity].
Qed.

Lemma canPlaceAt_iff (l : Lane.t) (tileIndex : Z) :
  wf_lane l ->
  exists b : bool,
    Lane.canPlaceAt tileIndex l = Normal b
    /\ (b = true <->
        (0 <= tileIndex < Lane.tileCount l)%Z /\ occupant l tileIndex = Some None).
Proof.
  intros Hwf. destruct (Lane.canPlaceAt tileIndex l) as [b | e] eqn:E.
  - exists b. split; [reflexivity |]. split.
    + intros ->. apply canPlaceAt_true. exact E.
    + intros [Hb Ho]. revert E. unfold Lane.canPlaceAt, occupant in *.
      destruct (Z.ltb_spec tileIndex 0); [lia |].
      destruct (Z.geb_spec tileIndex (Lane.tileCount l)); [lia |]. simpl.
      destruct (at_index (Lane.tiles l) tileIndex) as [tile |]; [| discriminate].
      simpl in Ho. unfold Tile.isEmpty.
      destruct (Tile.minion tile); [discriminate |]. congruence.
  - exfalso. revert E. unfold Lane.canPlaceAt.
    destruct (Z.ltb_spec tileIndex 0); simpl; [discriminate |].
    destruct (Z.geb_spec tileIndex (Lane.tileCount l)); simpl; [discriminate |].
    destruct (at_index_Some (Lane.tiles l) tileIndex) as [tile Ht].
    { unfold wf_lane in Hwf. lia. }
    rewrite Ht. discriminate.
Qed.

Lemma placeMinion_success (l l' : Lane.t) (tileIndex : Z) (m : ref) :
  Lane.placeMinion m tileIndex l = (Normal true, l') ->
  occupant l' tileIndex = Some (Some m)
  /\ Lane.minions l' = Lane.minions l ++ [m]
  /\ count_occ Nat.eq_dec (Lane.minions l') m
     = S (count_occ Nat.eq_dec (Lane.minions l) m).
Proof.
  intros Hp. unfold Lane.placeMinion in Hp.
  destruct (Lane.canPlaceAt tileIndex l) as [[|] | e] eqn:E;
    [| inversion Hp | inversion Hp].
  apply canPlaceAt_true in E as [Hb Ho]. unfold occupant in Ho.
  destruct (at_index (Lane.tiles l) tileIndex) as [tile |] eqn:Ht; [| discriminate].
  simpl in Ho. unfold Tile.placeMinion, Tile.isEmpty in Hp.
  destruct (Tile.minion tile) eqn:Em; [discriminate |]. simpl in Hp.
  inversion Hp; subst l'; clear Hp. simpl.
  split; [| split; [reflexivity |]].
  - unfold occupant. simpl. erewrite at_index_insert by exact Ht. reflexivity.
  - rewrite count_occ_snoc. destruct (Nat.eq_dec m m); [lia | congruence].
Qed.

(** C8.  On a lane with its [tileCount] tiles, [canPlaceAt(tileIndex)]
    returns a boolean, which is [true] exactly when
    [0 <= tileIndex < tileCount] and the tile holds no defender; and a
    [placeMinion(minion, tileIndex)] that succeeds leaves the tile holding
    the defender and adds one reference to it to the lane's defender list, so
    that the list holds exactly one when the defender was not yet in it. *)
Theorem lane_placement (l : Lane.t) (tileIndex : Z) (Hwf : wf_lane l) :
  (exists b : bool,
      Lane.canPlaceAt tileIndex l = Normal b
      /\ (b = true <->
          (0 <= tileIndex < Lane.tileCount l)%Z /\ occupant l tileIndex = Some None))
  /\ (forall (m : ref) (l' : Lane.t),
        Lane.placeMinion m tileIndex l = (Normal true, l') ->
        occupant l' tileIndex = Some (Some m)
        /\ count_occ Nat.eq_dec (Lane.minions l') m
           = S (count_occ Nat.eq_dec (Lane.minions l) m)
        /\ (count_occ Nat.eq_dec (Lane.minions l) m = O ->
            count_occ Nat.eq_dec (Lane.minions l') m = 1%nat)).
Proof.
  split; [apply canPlaceAt_iff; exact Hwf |].
  intros m l' Hp.
  destruct (placeMinion_success l l' tileIndex m Hp) as (Ho & _ & Hc).
  split; [exact Ho |]. split; [exact Hc |].
  intros H0. rewrite Hc, H0. reflexivity.
Qed.

(** A witness of [lane_placement]: tile 3 of a fresh lane of ten tiles. *)
Lemma lane_placement_witness :
  wf_lane (Lane.create 0 10)
  /\ Lane.canPlaceAt 3 (Lane.create 0 10) = Normal true
  /\ exists l' : Lane.t,
       Lane.placeMinion 7%nat 3 (Lane.create 0 10) = (Normal true, l')
       /\ occupant l' 3 = Some (Some 7%nat)
       /\ count_occ Nat.eq_dec (Lane.minions l') 7%nat = 1%nat.
Proof.
  assert (Hwf : wf_lane (Lane.create 0 10)) by (apply wf_lane_create; lia).
  destruct (lane_placement (Lane.create 0 10) 3 Hwf) as [_ Hplace].
  split; [exact Hwf |]. split; [reflexivity |].
  eexists. split; [reflexivity |].
  edestruct Hplace as (Ho & _ & Hone); [reflexivity |].
  split; [exact Ho | apply Hone; reflexivity].
Defined.

(** ** Targeting *)

Lemma lookup_snoc_cases {A : Type} (l : list A) (x y : A) (j : nat) :
  (l ++ [x]) !! j = Some y ->
  l !! j = Some y \/ (j = length l /\ y = x).
Proof.
  intros H. destruct (Nat.lt_ge_cases j (length l)) as [Hlt | Hge].
  - left. rewrite lookup_app_l in H by exact Hlt. exact H.
  - right. rewrite lookup_app_r in H by exact Hge.
    destruct (j - length l)%nat eqn:E; simpl in H; [| discriminate].
    split; [lia | congruence].
Qed.

Lemma scan_state_final (selfPos range : Q) (seen : list (ref * Q))
    (closest : option ref) (closestDistance : option Q) :
  scan_state selfPos range seen closest closestDistance ->
  nearest_first selfPos range seen closest.
Proof.
  unfold scan_state, nearest_first.
  destruct closest as [t |], closestDistance as [d |]; try tauto.
  intros (i & p & Hi & -> & Hr & Hmin & Hfirst). exists i, p. auto.
Qed.

Lemma scanTargets_scan_state (selfPos range : Q) (rest : list (ref * Q)) :
  forall (seen : list (ref * Q)) (closest : option ref) (closestDistance : option Q),
    scan_state selfPos range seen closest closestDistance ->
    nearest_first selfPos range (seen ++ rest)
      (scanTargets selfPos range rest closest closestDistance).
Proof.
  induction rest as [| [c cpos] rest IH]; intros seen closest cd Hinv.
  - simpl. rewrite app_nil_r. eapply scan_state_final. exact Hinv.
  - cbn [scanTargets].
    replace (seen ++ (c, cpos) :: rest) with ((seen ++ [(c, cpos)]) ++ rest)
      by (rewrite <- app_assoc; reflexivity).
    destruct (Qle_bool (Qabs (selfPos - cpos)) range) eqn:Er; cbn [andb].
    + apply Qle_bool_iff in Er.
      destruct closest as [t |], cd as [d |]; cbn [scan_state] in Hinv; try contradiction.
      * destruct Hinv as (i & p & Hi & Hd & Hr & Hmin & Hfirst).
        destruct (Qlt_bool (Qabs (selfPos - cpos)) d) eqn:El.
        -- apply Qlt_bool_iff in El. apply IH. cbn [scan_state].
           exists (length seen), cpos. split; [| split; [| split; [| split]]].
           ++ rewrite lookup_app_r by lia. rewrite Nat.sub_diag. reflexivity.
           ++ reflexivity.
           ++ exact Er.
           ++ intros j c' q Hj Hq.
              apply lookup_snoc_cases in Hj as [Hj | [_ Hj]].
              ** specialize (Hmin j c' q Hj Hq). lra.
              ** inversion Hj; subst. lra.
           ++ intros j c' q Hlt Hj Hq.
              apply lookup_snoc_cases in Hj as [Hj | [Hj _]]; [| lia].
              specialize (Hmin j c' q Hj Hq). lra.
        -- assert (Hge : d <= Qabs (selfPos - cpos)).
           { destruct (Qlt_le_dec (Qabs (selfPos - cpos)) d) as [H | H]; [| exact H].
             apply Qlt_bool_iff in H. congruence. }
           apply IH. cbn [scan_state].
           exists i, p. split; [| split; [| split; [| split]]].
           ++ rewrite lookup_app_l by (eapply lookup_lt_Some; exact Hi). exact Hi.
           ++ exact Hd.
           ++ exact Hr.
           ++ intros j c' q Hj Hq.
              apply lookup_snoc_cases in Hj as [Hj | [_ Hj]].
              ** exact (Hmin j c' q Hj Hq).
              ** inversion Hj; subst. exact Hge.
           ++ intros j c' q Hlt Hj Hq.
              apply lookup_snoc_cases in Hj as [Hj | [Hj _]].
              ** exact (Hfirst j c' q Hlt Hj Hq).
              ** apply lookup_lt_Some in Hi. lia.
      * apply IH. cbn [scan_state].
        exists (length seen), cpos. split; [| split; [| split; [| split]]].
        -- rewrite lookup_app_r by lia. rewrite Nat.sub_diag. reflexivity.
        -- reflexivity.
        -- exact Er.
        -- intros j c' q Hj Hq.
           apply lookup_snoc_cases in Hj as [Hj | [_ Hj]].
           ++ exfalso. exact (Hinv j c' q Hj Hq).
           ++ inversion Hj; subst. lra.
        -- intros j c' q Hlt Hj Hq.
           apply lookup_snoc_cases in Hj as [Hj | [Hj _]]; [| lia].
           exfalso. exact (Hinv j c' q Hj Hq).
    + apply Qle_bool_false in Er. apply IH.
      destruct closest as [t |], cd as [d |]; cbn [scan_state] in Hinv |- *; try contradiction.
      * destruct Hinv as (i & p & Hi & Hd & Hr & Hmin & Hfirst).
        exists i, p. split; [| split; [| split; [| split]]].
        -- rewrite lookup_app_l by (eapply lookup_lt_Some; exact Hi). exact Hi.
        -- exact Hd.
        -- exact Hr.
        -- intros j c' q Hj Hq.
           apply lookup_snoc_cases in Hj as [Hj | [_ Hj]].
           ++ exact (Hmin j c' q Hj Hq).
           ++ inversion Hj; subst. lra.
        -- intros j c' q Hlt Hj Hq.
           apply lookup_snoc_cases in Hj as [Hj | [Hj _]].
           ++ exact (Hfirst j c' q Hlt Hj Hq).
           ++ apply lookup_lt_Some in Hi. lia.
      * intros j c' q Hj Hq.
        apply lookup_snoc_cases in Hj as [Hj | [_ Hj]].
        -- exact (Hinv j c' q Hj Hq).
        -- inversion Hj; subst. lra.
Qed.

Lemma scanTargets_nearest_first (selfPos range : Q) (candidates : list (ref * Q)) :
  nearest_first selfPos range candidates
    (scanTargets selfPos range candidates None None).
Proof.
  apply (scanTargets_scan_state selfPos range candidates [] None None).
  cbn [scan_state]. intros j c q Hj. rewrite lookup_nil in Hj. discriminate.
Qed.

Lemma bind_Normal {A B : Type} (c : M A) (k : A -> M B) (g g' : Game.t) (a : A) :
  c g = (Normal a, g') -> bind c k g = k a g'.
Proof. unfold bind. intros ->. reflexivity. Qed.

Lemma bind_Throw {A B : Type} (c : M A) (k : A -> M B) (g g' : Game.t) (e : JsError) :
  c g = (Throw e, g') -> bind c k g = (Throw e, g').
Proof. unfold bind. intros ->. reflexivity. Qed.

Lemma deref_Some (g : Game.t) (r : ref) (u : Unit.t) :
  Game.heap g !! r = Some u -> deref r g = (Normal u, g).
Proof. unfold deref. intros ->. reflexivity. Qed.

Lemma read_lane_Some (g : Game.t) (li : nat) (l : Lane.t) :
  Game.lanes g !! li = Some l -> read_lane li g = (Normal l, g).
Proof. unfold read_lane. intros ->. reflexivity. Qed.

Lemma positions_of_located (g : Game.t) (rs : list ref) :
  all_objects g rs -> positions_of rs g = (Normal (located g rs), g).
Proof.
  unfold all_objects, positions_of, located.
  induction 1 as [| r rs [u Hu] _ IH]; [reflexivity |].
  cbn [mapM omap list_omap]. rewrite Hu. cbn [fmap option_fmap option_map].
  fold (@omap list _ ref (ref * Q)%type).
  rewrite (bind_Normal _ _ g g (r, Unit.position u)).
  - rewrite (bind_Normal _ _ g g _ IH). reflexivity.
  - rewrite (bind_Normal _ _ g g u (deref_Some g r u Hu)). reflexivity.
Qed.

Lemma Minion_findTarget_eq (g : Game.t) (self : ref) (s : Unit.t) (li : nat) (l : Lane.t) :
  Game.heap g !! self = Some s -> Game.lanes g !! li = Some l ->
  all_objects g (Lane.heroes l) ->
  Minion_findTarget self (Some li) g
  = (Normal (scanTargets (Unit.position s) (Unit.attackRange s)
               (located g (Lane.heroes l)) None None), g).
Proof.
  intros Hs Hl Hall. unfold Minion_findTarget.
  rewrite (bind_Normal _ _ g g l (read_lane_Some g li l Hl)).
  rewrite (bind_Normal _ _ g g _ (positions_of_located g _ Hall)).
  rewrite (bind_Normal _ _ g g s (deref_Some g self s Hs)). reflexivity.
Qed.

Lemma Hero_findTarget_eq (g : Game.t) (self : ref) (s : Unit.t) (li : nat) (l : Lane.t) :
  Game.heap g !! self = Some s -> Game.lanes g !! li = Some l ->
  all_objects g (Lane.minions l) ->
  Hero_findTarget self (Some li) g
  = (Normal (scanTargets (Unit.position s) (Unit.attackRange s)
               (located g (Lane.minions l)) None None), g).
Proof.
  intros Hs Hl Hall. unfold Hero_findTarget.
  rewrite (bind_Normal _ _ g g l (read_lane_Some g li l Hl)).
  rewrite (bind_Normal _ _ g g _ (positions_of_located g _ Hall)).
  rewrite (bind_Normal _ _ g g s (deref_Some g self s Hs)). reflexivity.
Qed.

(** C3.  For a defender searching the attackers of its lane, and for an
    attacker searching the defenders of its lane: [findTarget] leaves the
    state as it is and returns no target when no opposing unit is within
    [attackRange], and otherwise an opposing unit within [attackRange], no
    farther than any other within range and strictly nearer than every unit
    within range that comes before it in the container (among equidistant
    nearest units, the first in iteration order).  The result is a function
    of the searcher's position and range and of the container in its order:
    any two states that agree on these give the same target. *)
Theorem findTarget_nearest_first (g : Game.t) (self : ref) (s : Unit.t)
    (li : nat) (l : Lane.t)
    (Hself : Game.heap g !! self = Some s)
    (Hlane : Game.lanes g !! li = Some l)
    (Hheroes : all_objects g (Lane.heroes l))
    (Hminions : all_objects g (Lane.minions l)) :
  (exists target : option ref,
      Minion_findTarget self (Some li) g = (Normal target, g)
      /\ nearest_first (Unit.position s) (Unit.attackRange s)
           (located g (Lane.heroes l)) target
      /\ forall (g' : Game.t) (s' : Unit.t) (l' : Lane.t),
           Game.heap g' !! self = Some s' -> Game.lanes g' !! li = Some l' ->
           all_objects g' (Lane.heroes l') ->
           Unit.position s' = Unit.position s ->
           Unit.attackRange s' = Unit.attackRange s ->
           located g' (Lane.heroes l') = located g (Lane.heroes l) ->
           Minion_findTarget self (Some li) g' = (Normal target, g'))
  /\ (exists target : option ref,
        Hero_findTarget self (Some li) g = (Normal target, g)
        /\ nearest_first (Unit.position s) (Unit.attackRange s)
             (located g (Lane.minions l)) target
        /\ forall (g' : Game.t) (s' : Unit.t) (l' : Lane.t),
             Game.heap g' !! self = Some s' -> Game.lanes g' !! li = Some l' ->
             all_objects g' (Lane.minions l') ->
             Unit.position s' = Unit.position s ->
             Unit.attackRange s' = Unit.attackRange s ->
             located g' (Lane.minions l') = located g (Lane.minions l) ->
             Hero_findTarget self (Some li) g' = (Normal target, g')).
Proof.
  split.
  - eexists. split; [apply (Minion_findTarget_eq g self s li l); assumption |].
    split; [apply scanTargets_nearest_first |].
    intros g' s' l' Hs' Hl' Hall' Hp Hr Hloc.
    rewrite (Minion_findTarget_eq g' self s' li l' Hs' Hl' Hall'), Hp, Hr, Hloc.
    reflexivity.
  - eexists. split; [apply (Hero_findTarget_eq g self s li l); assumption |].
    split; [apply scanTargets_nearest_first |].
    intros g' s' l' Hs' Hl' Hall' Hp Hr Hloc.
    rewrite (Hero_findTarget_eq g' self s' li l' Hs' Hl' Hall'), Hp, Hr, Hloc.
    reflexivity.
Qed.

(** A witness of [findTarget_nearest_first]: in [skirmish] the Gravelim on
    tile 5 has the attackers of tiles 6 and 4 at the same distance and
    targets the one that comes first in [lane.heroes]. *)
Lemma findTarget_nearest_first_witness :
  exists (s : Unit.t) (l : Lane.t) (target : option ref),
    Game.heap skirmish !! 0%nat = Some s
    /\ Game.lanes skirmish !! 0%nat = Some l
    /\ Lane.heroes l = [1%nat; 2%nat]
    /\ Minion_findTarget 0%nat (Some 0%nat) skirmish = (Normal target, skirmish)
    /\ nearest_first (Unit.position s) (Unit.attackRange s)
         (located skirmish (Lane.heroes l)) target
    /\ target = Some 1%nat.
Proof.
  destruct (Game.heap skirmish !! 0%nat) as [s |] eqn:Hs; [| vm_compute in Hs; discriminate].
  destruct (Game.lanes skirmish !! 0%nat) as [l |] eqn:Hl; [| vm_compute in Hl; discriminate].
  assert (Hh : Lane.heroes l = [1%nat; 2%nat]).
  { vm_compute in Hl. inversion Hl. reflexivity. }
  assert (Hm : Lane.minions l = [0%nat]).
  { vm_compute in Hl. inversion Hl. reflexivity. }
  assert (Hheroes : all_objects skirmish (Lane.heroes l)).
  { rewrite Hh. repeat constructor; vm_compute; eauto. }
  assert (Hminions : all_objects skirmish (Lane.minions l)).
  { rewrite Hm. repeat constructor; vm_compute; eauto. }
  destruct (findTarget_nearest_first skirmish 0%nat s 0%nat l Hs Hl Hheroes Hminions)
    as [(target & Ht & Hn & _) _].
  exists s, l, target. repeat split; try assumption.
  assert (E : fst (Minion_findTarget 0%nat (Some 0%nat) skirmish) = Normal (Some 1%nat))
    by (vm_compute; reflexivity).
  rewrite Ht in E. simpl in E. congruence.
Defined.

(** ** Wave start *)

Lemma Qfloor_times_1_5 (c : Z) : Qfloor (inject_Z c * 1.5) = (c * 3 / 2)%Z.
Proof.
  unfold Qfloor, Qmult, inject_Z. simpl Qnum. simpl Qden.
  replace (c * 15)%Z with (c * 3 * 5)%Z by lia.
  change (Z.pos (1 * 10)) with (2 * 5)%Z.
  apply Z.div_mul_cancel_r; lia.
Qed.

(** C6, as the specification states it, fails when wave 5 starts: the hero
    count is 52 and not 52.5, and the boss delay of 700 ms is shorter than
    the 900 ms of the formula. *)
Lemma startWave_as_claimed_fails :
  ~ startWave_as_claimed after_wave4
  /\ Game.heroesInWave (snd (startWave no_wave_options after_wave4)) = 52%Z
  /\ heroCount_as_claimed 5 == 52.5
  /\ Game.spawnDelay (snd (startWave no_wave_options after_wave4)) = 700
  /\ spawnDelay_formula 5 == 900.
Proof.
  split; [| repeat split; reflexivity].
  intros (_ & _ & _ & _ & Hslow & _).
  specialize (Hslow eq_refl). vm_compute in Hslow. discriminate.
Qed.

(** What [startWave()] leaves when it is called without options. *)
Lemma startWave_default_state (g : Game.t) :
  let g' := snd (startWave no_wave_options g) in
  let w := Game.waveNumber g' in
  let boss := (Z.rem w 5 =? 0)%Z in
  fst (startWave no_wave_options g) = Normal tt
  /\ w = (Game.waveNumber g + 1)%Z
  /\ Game.bossWave g' = boss
  /\ Game.heroesInWave g' = (if boss then (10 + 5 * w) * 3 / 2 else 10 + 5 * w)%Z
  /\ Game.heroesRemaining g' = Game.heroesInWave g'
  /\ Game.spawnDelay g' = (if boss then 700 else Qmax 300 (1000 - inject_Z w * 20))
  /\ Game.onslaughtTriggered g' = false
  /\ Game.onslaughtComplete g' = false.
Proof.
  unfold startWave, calculateHeroCount, no_wave_options.
  unfold bind, modify, ret, get, showFloatingText. simpl.
  destruct (Z.rem (Game.waveNumber g + 1) 5 =? 0)%Z eqn:E; simpl; rewrite ?E; simpl.
  - rewrite Qfloor_times_1_5.
    replace (10 + (Game.waveNumber g + 1) * 5)%Z
      with (10 + 5 * (Game.waveNumber g + 1))%Z by lia.
    repeat split; reflexivity.
  - replace (10 + (Game.waveNumber g + 1) * 5)%Z
      with (10 + 5 * (Game.waveNumber g + 1))%Z by lia.
    repeat split; reflexivity.
Qed.

Lemma spawnDelay_formula_vs_700 (w : Z) :
  ((w < 15)%Z -> 700 < spawnDelay_formula w)
  /\ (w = 15%Z -> spawnDelay_formula w == 700)
  /\ ((15 < w)%Z -> spawnDelay_formula w < 700).
Proof.
  unfold spawnDelay_formula. repeat split; intros H.
  - apply Q.max_lt_iff. right.
    assert (inject_Z w < inject_Z 15) by (rewrite <- Zlt_Qlt; exact H).
    change (inject_Z 15) with 15 in *. lra.
  - rewrite H. reflexivity.
  - apply Q.max_lub_lt; [lra |].
    assert (inject_Z 15 < inject_Z w) by (rewrite <- Zlt_Qlt; exact H).
    change (inject_Z 15) with 15 in *. lra.
Qed.

(** C6, amended.  [startWave()] called without options returns normally,
    adds one to the wave number [w], flags a boss wave exactly when the new
    [w % 5 == 0], sets [heroesInWave] and [heroesRemaining] to [10 + 5 w],
    on a boss wave to that count times [1.5] rounded down, sets the spawn
    delay to [max(300, 1000 - 20 w)] on a wave that is not a boss wave and to
    the fixed 700 ms on a boss wave, and resets both onslaught flags.  The
    700 ms are shorter than the formula value below wave 15 (boss waves 5 and
    10), equal to it at wave 15 and longer from wave 20 on. *)
Theorem startWave_default (g : Game.t) :
  let g' := snd (startWave no_wave_options g) in
  let w := Game.waveNumber g' in
  let boss := (Z.rem w 5 =? 0)%Z in
  fst (startWave no_wave_options g) = Normal tt
  /\ w = (Game.waveNumber g + 1)%Z
  /\ Game.bossWave g' = boss
  /\ Game.heroesInWave g' = (if boss then (10 + 5 * w) * 3 / 2 else 10 + 5 * w)%Z
  /\ Game.heroesRemaining g' = Game.heroesInWave g'
  /\ Game.spawnDelay g' = (if boss then 700 else Qmax 300 (1000 - inject_Z w * 20))
  /\ Game.onslaughtTriggered g' = false
  /\ Game.onslaughtComplete g' = false
  /\ ((w < 15)%Z -> 700 < spawnDelay_formula w)
  /\ (w = 15%Z -> spawnDelay_formula w == 700)
  /\ ((15 < w)%Z -> spawnDelay_formula w < 700).
Proof.
  cbv zeta.
  destruct (startWave_default_state g) as (H1 & H2 & H3 & H4 & H5 & H6 & H7 & H8).
  cbv zeta in H2, H3, H4, H5, H6, H7, H8.
  repeat (split; [assumption |]).
  apply spawnDelay_formula_vs_700.
Qed.

(** A witness of [startWave_default]: the start of wave 5, a boss wave of
    52 heroes spawning every 700 ms, where the formula gives 900 ms. *)
Lemma startWave_default_witness :
  Game.waveNumber (snd (startWave no_wave_options after_wave4)) = 5%Z
  /\ Game.bossWave (snd (startWave no_wave_options after_wave4)) = true
  /\ Game.heroesInWave (snd (startWave no_wave_options after_wave4)) = 52%Z
  /\ Game.spawnDelay (snd (startWave no_wave_options after_wave4)) = 700
  /\ 700 < spawnDelay_formula 5.
Proof.
  destruct (startWave_default after_wave4)
    as (_ & Hw & Hb & Hc & _ & Hd & _ & _ & Hlt & _).
  cbv zeta in Hw, Hb, Hc, Hd, Hlt.
  split; [exact Hw |]. split; [exact Hb |]. split; [exact Hc |]. split; [exact Hd |].
  apply Hlt. reflexivity.
Defined.

(** ** Running the monad *)

Lemma update_unit_run (g : Game.t) (r : ref) (u : Unit.t) (f : Unit.t -> Unit.t) :
  Game.heap g !! r = Some u ->
  update_unit r f g = (Normal tt, Game.with_heap (<[r := f u]> (Game.heap g)) g).
Proof.
  intros H. unfold update_unit.
  rewrite (bind_Normal _ _ g g u (deref_Some g r u H)). reflexivity.
Qed.

Lemma lanes_at_Some (g : Game.t) (i : Z) :
  (0 <= i < Z.of_nat (length (Game.lanes g)))%Z ->
  lanes_at i g = (Normal (Some (Z.to_nat i)), g).
Proof.
  intros H. unfold lanes_at.
  destruct (at_index_Some (Game.lanes g) i H) as [l ->]. reflexivity.
Qed.

Lemma bind_get {B : Type} (k : Game.t -> M B) (g : Game.t) : bind get k g = k g g.
Proof. reflexivity. Qed.

Lemma bind_ret {A B : Type} (a : A) (k : A -> M B) (g : Game.t) : bind (ret a) k g = k a g.
Proof. reflexivity. Qed.

Lemma bind_modify {B : Type} (f : Game.t -> Game.t) (k : unit -> M B) (g : Game.t) :
  bind (modify f) k g = k tt (f g).
Proof. reflexivity. Qed.

Lemma bind_bind {A B C : Type} (c : M A) (k : A -> M B) (k' : B -> M C) (g : Game.t) :
  bind (bind c k) k' g = bind c (fun a => bind (k a) k') g.
Proof. unfold bind. destruct (c g) as [[a | e] g']; reflexivity. Qed.

(** Runs the next [update_unit] of the goal on an object that was just
    written. *)
Ltac run_update :=
  match goal with
  | |- context [bind (update_unit ?r ?f) ?k ?g] =>
      erewrite (bind_Normal (update_unit r f) k g)
        by (apply update_unit_run; cbn; apply lookup_insert_eq);
      cbn [Game.heap Game.with_heap]
  end.

(** ** Spawn scaling *)

Lemma new_object_run (g : Game.t) (u : Unit.t) :
  new_object u g
  = (Normal (Game.nextRef g),
     Game.with_nextRef (S (Game.nextRef g))
       (Game.with_heap (<[Game.nextRef g := u]> (Game.heap g)) g)).
Proof. reflexivity. Qed.

Lemma on_lane_run {A : Type} (g : Game.t) (li : nat) (l l' : Lane.t) (a : A)
    (f : Lane.t -> completion A * Lane.t) :
  Game.lanes g !! li = Some l -> f l = (Normal a, l') ->
  on_lane li f g = (Normal a, Game.with_lanes (<[li := l']> (Game.lanes g)) g).
Proof.
  intros Hl Hf. unfold on_lane.
  rewrite (bind_Normal _ _ g g l (read_lane_Some g li l Hl)), Hf.
  unfold write_lane. rewrite bind_modify. reflexivity.
Qed.

(** Runs [spawnHeroInLane] on wave 5 from the point where the class of the
    hero is known. *)
Ltac run_spawn Hl random :=
  rewrite ?bind_ret;
  rewrite (bind_Normal _ _ _ _ _ (new_object_run _ _));
  change (Z.rem 5 5 =? 0)%Z with true; cbv iota;
  do 9 (rewrite ?bind_bind; run_update);
  rewrite (bind_Normal (Math_random random) _ _ _ _ eq_refl);
  run_update;
  erewrite (bind_Normal (on_lane _ _) _ _ _ tt)
    by (eapply on_lane_run; [cbn; exact Hl | reflexivity]);
  unfold showFloatingText; rewrite bind_modify; reflexivity.

Ltac read_spawned :=
  cbn [Game.heap Game.with_heap Game.with_lanes Game.with_floatingTexts
       Game.with_randomCalls Game.with_nextRef];
  rewrite lookup_insert_eq; split; [reflexivity |];
  split; [reflexivity |]; split; reflexivity.

(** The health of the hero that [spawnHeroInLane] spawns on wave 5 without
    a health multiplier: the base health of its class times the wave scaling,
    rounded up, times [1.5], rounded up. *)
Lemma wave5_spawn_health (random : nat -> Q) (g : Game.t) (laneIndex : Z)
    (options : SpawnOptions) :
  Game.waveNumber g = 5%Z ->
  (0 <= laneIndex < Z.of_nat (length (Game.lanes g)))%Z ->
  opt_healthMultiplier options = None ->
  exists (hero : ref) (u : Unit.t) (c : HeroClass) (g' : Game.t),
    spawnHeroInLane random laneIndex options g = (Normal (Some hero), g')
    /\ Game.heap g' !! hero = Some u
    /\ Unit.cls u = HeroOf c
    /\ Unit.health u
       = inject_Z (Qceiling (inject_Z (Qceiling
           (Unit.health (new_Hero c laneIndex 0) * ((1 + (inject_Z 5 - 1) * 0.05) * 1))) * 1.5))
    /\ Unit.maxHealth u = Unit.health u.
Proof.
  intros Hwave Hlane Hmult.
  destruct (at_index_Some (Game.lanes g) laneIndex Hlane) as [l Hl].
  apply at_index_lookup in Hl as [_ Hl].
  unfold spawnHeroInLane.
  rewrite bind_get.
  destruct (Z.ltb_spec laneIndex 0) as [? | _]; [lia |].
  destruct (Z.geb_spec laneIndex (Z.of_nat (length (Game.lanes g)))) as [? | _]; [lia |].
  cbn [orb].
  unfold getWaveScaling. rewrite bind_bind, bind_get, bind_ret.
  rewrite Hwave, Hmult. cbv zeta. change (or_one None) with 1.
  change (5 >=? 10)%Z with false. change (5 >=? 5)%Z with true. cbn [andb].
  destruct (opt_heroType options) as [[| a s] |].
  - rewrite bind_bind, (bind_Normal (Math_random random) _ _ _ _ eq_refl).
    destruct (Qlt_bool 0.5 (random (Game.randomCalls g))).
    + eexists _, _, AshboltScout, _. split; [run_spawn Hl random | read_spawned].
    + eexists _, _, Militiant, _. split; [run_spawn Hl random | read_spawned].
  - eexists _, _, (heroClass_of_type (String a s)), _.
    split; [run_spawn Hl random |].
    cbn [Game.heap Game.with_heap Game.with_lanes Game.with_floatingTexts
         Game.with_randomCalls Game.with_nextRef].
    rewrite lookup_insert_eq. split; [reflexivity |].
    destruct (heroClass_of_type (String a s)); repeat split; reflexivity.
  - rewrite bind_bind, (bind_Normal (Math_random random) _ _ _ _ eq_refl).
    destruct (Qlt_bool 0.5 (random (Game.randomCalls g))).
    + eexists _, _, AshboltScout, _. split; [run_spawn Hl random | read_spawned].
    + eexists _, _, Militiant, _. split; [run_spawn Hl random | read_spawned].
Qed.

(** C7.  On wave 5, [spawnHeroInLane] on a valid lane with no
    [healthMultiplier] returns a new hero, and when that hero is a Militiant
    (base health 80) its health and its maximum health are exactly 144
    (80 times 1.20 is 96, times 1.5 is 144, both already integers).  The
    same statements evaluated in binary64 arithmetic give 144 too. *)
Theorem wave5_militiant_health (random : nat -> Q) (g : Game.t) (laneIndex : Z)
    (options : SpawnOptions)
    (Hwave : Game.waveNumber g = 5%Z)
    (Hlane : (0 <= laneIndex < Z.of_nat (length (Game.lanes g)))%Z)
    (Hmult : opt_healthMultiplier options = None) :
  (exists (hero : ref) (u : Unit.t),
      fst (spawnHeroInLane random laneIndex options g) = Normal (Some hero)
      /\ Game.heap (snd (spawnHeroInLane random laneIndex options g)) !! hero = Some u
      /\ (Unit.cls u = HeroOf Militiant ->
          Unit.health u = 144 /\ Unit.maxHealth u = 144))
  /\ Unit.health (new_Hero Militiant laneIndex 9) = 80
  /\ getWaveScaling g = (Normal (1 + (5 - 1) * 0.05), g)
  /\ spawn_health_binary64 80 5 = Some 144%Z.
Proof.
  split; [| split; [reflexivity | split; [| reflexivity]]].
  - destruct (wave5_spawn_health random g laneIndex options Hwave Hlane Hmult)
      as (hero & u & c & g' & Hrun & Hu & Hc & Hh & Hm).
    exists hero, u. rewrite Hrun. cbn [fst snd].
    split; [reflexivity |]. split; [exact Hu |].
    intros Hcls. rewrite Hm, Hh. rewrite Hc in Hcls.
    injection Hcls as ->. split; reflexivity.
  - unfold getWaveScaling. rewrite bind_get, Hwave. reflexivity.
Qed.

(** A witness of [wave5_militiant_health]: a Militiant spawned in lane 2 of
    the new game on wave 5. *)
Lemma wave5_militiant_health_witness :
  exists u : Unit.t,
    Game.heap (snd (spawnHeroInLane quarter 2 (at_tile "militant" 9) on_wave5)) !! 0%nat
    = Some u
    /\ Unit.cls u = HeroOf Militiant
    /\ Unit.health u = 144 /\ Unit.maxHealth u = 144.
Proof.
  destruct (wave5_militiant_health quarter on_wave5 2 (at_tile "militant" 9))
    as [(hero & u & Hrun & Hu & Hh) _].
  - reflexivity.
  - vm_compute. split; [discriminate | reflexivity].
  - reflexivity.
  - assert (E : hero = 0%nat).
    { vm_compute in Hrun. congruence. }
    subst hero. exists u. split; [exact Hu |].
    assert (Hc : Unit.cls u = HeroOf Militiant).
    { vm_compute in Hu. injection Hu as <-. reflexivity. }
    split; [exact Hc |]. exact (Hh Hc).
Defined.

(** ** End of the game *)

Lemma heroAtCastle_true (g : Game.t) (hs : list ref) :
  all_objects g hs ->
  (exists (h : ref) (u : Unit.t),
      h ∈ hs /\ Game.heap g !! h = Some u /\ Unit.position u <= 0) ->
  heroAtCastle hs g = (Normal true, g).
Proof.
  unfold all_objects.
  induction 1 as [| h hs [u Hu] _ IH]; intros (h' & u' & Hin & Hu' & Hp).
  - inversion Hin.
  - cbn [heroAtCastle]. rewrite (bind_Normal _ _ g g u (deref_Some g h u Hu)).
    destruct (Qle_bool (Unit.position u) 0) eqn:E; [reflexivity |].
    apply IH. apply elem_of_cons in Hin as [-> | Hin].
    + apply Qle_bool_iff in Hp. congruence.
    + exists h', u'. auto.
Qed.

Lemma heroAtCastle_cases (g : Game.t) (hs : list ref) :
  (exists e, heroAtCastle hs g = (Throw e, g))
  \/ heroAtCastle hs g = (Normal true, g)
  \/ (heroAtCastle hs g = (Normal false, g)
      /\ forall (h : ref) (u : Unit.t),
           h ∈ hs -> Game.heap g !! h = Some u -> ~ (Unit.position u <= 0)).
Proof.
  induction hs as [| h hs IH].
  - right. right. split; [reflexivity |]. intros h u Hin. inversion Hin.
  - cbn [heroAtCastle].
    destruct (Game.heap g !! h) as [u |] eqn:Hu.
    2: { left. eexists. apply bind_Throw. unfold deref. rewrite Hu. reflexivity. }
    rewrite !(bind_Normal _ _ g g u (deref_Some g h u Hu)).
    destruct (Qle_bool (Unit.position u) 0) eqn:E; [right; left; reflexivity |].
    destruct IH as [[e He] | [Ht | [Hf Hall]]].
    + left. eauto.
    + right. left. exact Ht.
    + right. right. split; [exact Hf |].
      intros h' u' Hin Hu'. apply elem_of_cons in Hin as [-> | Hin].
      * rewrite Hu in Hu'. injection Hu' as <-.
        intros Hp. apply Qle_bool_iff in Hp. congruence.
      * eapply Hall; eassumption.
Qed.

Lemma existsb_heroes_false (g : Game.t) :
  existsb (fun l => (0 <? length (Lane.heroes l))%nat) (Game.lanes g) = false
  <-> lanes_clear g.
Proof.
  unfold lanes_clear. induction (Game.lanes g) as [| l ls IH]; simpl.
  - split; [constructor | reflexivity].
  - rewrite orb_false_iff, IH. split.
    + intros [Hl Hls]. constructor; [| exact Hls].
      destruct (Lane.heroes l); [reflexivity | discriminate].
    + intros H. inversion H as [| ? ? Hl Hls]; subst. rewrite Hl. auto.
Qed.

(** The loss check: a hero at position [<= 0] ends the game as a loss,
    whatever the wave counters, timers and flags are. *)
Lemma checkGameOver_loss (g : Game.t) :
  all_objects g (all_heroes g) ->
  (exists (l : Lane.t) (h : ref) (u : Unit.t),
      l ∈ Game.lanes g /\ h ∈ Lane.heroes l
      /\ Game.heap g !! h = Some u /\ Unit.position u <= 0) ->
  checkGameOver g
  = (Normal tt, Game.with_victory (Some false) (Game.with_gameOver true g)).
Proof.
  intros Hall (l & h & u & Hl & Hh & Hu & Hp).
  unfold checkGameOver. rewrite bind_get.
  rewrite (bind_Normal _ _ g g true); [reflexivity |].
  apply heroAtCastle_true; [exact Hall |].
  exists h, u. split; [| auto].
  unfold all_heroes. apply list_elem_of_In, in_concat.
  exists (Lane.heroes l). split; [| apply list_elem_of_In; exact Hh].
  apply in_map. apply list_elem_of_In. exact Hl.
Qed.

(** The win check of the code: when no hero stands at position [<= 0],
    [checkGameOver] ends the game as a win exactly when the wave number is at
    least 10 and no lane holds a hero; [heroesRemaining] is not read. *)
Lemma checkGameOver_victory (g : Game.t) :
  heroAtCastle (all_heroes g) g = (Normal false, g) ->
  (10 <= Game.waveNumber g)%Z -> lanes_clear g ->
  fst (checkGameOver g) = Normal tt
  /\ Game.gameOver (snd (checkGameOver g)) = true
  /\ Game.victory (snd (checkGameOver g)) = Some true
  /\ Game.heroesRemaining (snd (checkGameOver g)) = Game.heroesRemaining g.
Proof.
  intros Hc Hw Hclear.
  unfold checkGameOver. rewrite bind_get.
  unfold all_heroes in Hc. rewrite (bind_Normal _ _ g g false Hc). cbv iota.
  destruct (Z.geb_spec (Game.waveNumber g) 10) as [_ | ?]; [| lia].
  unfold areAllHeroesDead. rewrite bind_bind, bind_get.
  apply existsb_heroes_false in Hclear. rewrite Hclear.
  rewrite bind_bind.
  destruct (negb (Game.isPreparingNextWave g) && (Game.heroesRemaining g =? 0)%Z
            && (0 <? Game.waveNumber g)%Z)%bool.
  - unfold startNextWavePreparation. rewrite bind_bind, bind_get.
    destruct (Game.isPreparingNextWave g); repeat split; reflexivity.
  - repeat split; reflexivity.
Qed.

Lemma checkGameOver_victory_only (g : Game.t) :
  Game.victory g <> Some true ->
  Game.victory (snd (checkGameOver g)) = Some true ->
  (10 <= Game.waveNumber g)%Z /\ lanes_clear g.
Proof.
  intros Hold. unfold checkGameOver. rewrite bind_get.
  destruct (heroAtCastle_cases g (concat (map Lane.heroes (Game.lanes g))))
    as [[e He] | [Ht | [Hf _]]].
  - rewrite (bind_Throw _ _ g g e He). simpl. congruence.
  - rewrite (bind_Normal _ _ g g true Ht). simpl. discriminate.
  - rewrite (bind_Normal _ _ g g false Hf). cbv iota.
    destruct (Z.geb_spec (Game.waveNumber g) 10) as [Hw | ?]; [| simpl; congruence].
    unfold areAllHeroesDead. rewrite bind_bind, bind_get.
    destruct (existsb (fun l => (0 <? length (Lane.heroes l))%nat) (Game.lanes g)) eqn:E.
    + simpl. congruence.
    + intros _. split; [lia |]. apply existsb_heroes_false. exact E.
Qed.

(** C4 (the code departs from the claim).  In [wave10_first_kill] the wave
    number is 10, 89 heroes of the wave are still to be spawned and no lane
    holds a hero; [checkGameOver] ends the game there as a win. *)
Theorem checkGameOver_victory_before_wave_is_spawned :
  Game.waveNumber wave10_first_kill = 10%Z
  /\ Game.heroesInWave wave10_first_kill = 90%Z
  /\ Game.heroesRemaining wave10_first_kill = 89%Z
  /\ Game.timeouts wave10_first_kill <> []
  /\ lanes_clear wave10_first_kill
  /\ Game.gameOver wave10_first_kill = false
  /\ checkGameOver wave10_first_kill
     = (Normal tt,
        Game.with_victory (Some true) (Game.with_gameOver true wave10_first_kill)).
Proof.
  repeat split; try reflexivity.
  - vm_compute. discriminate.
  - vm_compute. repeat constructor.
Qed.

(** ** Pause *)


(** A tick of a game that is over changes nothing either. *)
Lemma update_gameOver (random : nat -> Q) (g : Game.t) (deltaTime : Q) :
  Game.gameOver g = true -> update random deltaTime g = (Normal tt, g).
Proof.
  intros H. unfold update. rewrite bind_get, H. reflexivity.
Qed.


(** ** Placement requests *)

Lemma wf_game_new : wf_game Game_new.
Proof.
  split; [reflexivity |]. unfold Game_new. cbn [Game.lanes Game.tileCount].
  apply Forall_forall. intros l Hl. apply list_elem_of_In, in_map_iff in Hl.
  destruct Hl as (i & <- & _). split; [apply wf_lane_create; lia | reflexivity].
Qed.

Lemma registry_nonempty_key (minionType : string) (c : MinionClass) :
  MinionRegistry !! minionType = Some c -> minionType <> EmptyString.
Proof. intros H ->. vm_compute in H. discriminate. Qed.

Lemma canPlaceMinion_total (g : Game.t) (laneIndex tileIndex : Z) :
  exists b : bool, canPlaceMinion laneIndex tileIndex g = (Normal b, g).
Proof.
  unfold canPlaceMinion. rewrite bind_get.
  destruct ((laneIndex <? 0) || (laneIndex >=? Game.laneCount g)
            || (tileIndex <? 0) || (tileIndex >=? Game.tileCount g))%Z; [eexists; reflexivity |].
  destruct (Game.selectedMinionType g) as [[| a s] |]; try (eexists; reflexivity).
  destruct (MinionRegistry !! String a s) as [c |]; [| eexists; reflexivity].
  destruct (Qlt_bool (Game.daen g) (cost c)); [eexists; reflexivity |].
  destruct (at_index (Game.lanes g) laneIndex) as [l |]; [| eexists; reflexivity].
  destruct (at_index (Lane.tiles l) tileIndex) as [tile |]; eexists; reflexivity.
Qed.

Lemma canPlaceMinion_true (g : Game.t) (laneIndex tileIndex : Z) :
  canPlaceMinion laneIndex tileIndex g = (Normal true, g) ->
  valid_request g laneIndex tileIndex.
Proof.
  unfold canPlaceMinion. rewrite bind_get.
  destruct (Z.ltb_spec laneIndex 0); [discriminate |].
  destruct (Z.geb_spec laneIndex (Game.laneCount g)); [discriminate |].
  destruct (Z.ltb_spec tileIndex 0); [discriminate |].
  destruct (Z.geb_spec tileIndex (Game.tileCount g)); [discriminate |].
  cbn [orb].
  destruct (Game.selectedMinionType g) as [[| a s] |] eqn:Hsel; try discriminate.
  destruct (MinionRegistry !! String a s) as [c |] eqn:Hreg; [| discriminate].
  destruct (Qlt_bool (Game.daen g) (cost c)) eqn:Hd; [discriminate |].
  destruct (at_index (Game.lanes g) laneIndex) as [l |] eqn:Hl; [| discriminate].
  destruct (at_index (Lane.tiles l) tileIndex) as [tile |] eqn:Ht; [| discriminate].
  destruct (Tile.minion tile) eqn:Hm; [discriminate |]. intros _.
  split; [lia |]. split; [lia |].
  exists (String a s), c, l. repeat split; try assumption.
  - destruct (Qlt_le_dec (Game.daen g) (cost c)) as [Hlt | Hle]; [| exact Hle].
    apply Qlt_bool_iff in Hlt. congruence.
  - apply at_index_lookup in Hl. tauto.
  - unfold occupant. rewrite Ht. simpl. rewrite Hm. reflexivity.
Qed.

Lemma canPlaceMinion_valid (g : Game.t) (laneIndex tileIndex : Z) :
  valid_request g laneIndex tileIndex ->
  canPlaceMinion laneIndex tileIndex g = (Normal true, g).
Proof.
  intros (Hli & Hti & ty & c & l & Hsel & Hreg & Hd & Hl & Ho).
  unfold canPlaceMinion. rewrite bind_get.
  destruct (Z.ltb_spec laneIndex 0); [lia |].
  destruct (Z.geb_spec laneIndex (Game.laneCount g)); [lia |].
  destruct (Z.ltb_spec tileIndex 0); [lia |].
  destruct (Z.geb_spec tileIndex (Game.tileCount g)); [lia |].
  cbn [orb]. rewrite Hsel.
  destruct ty as [| a s]; [exfalso; exact (registry_nonempty_key _ _ Hreg eq_refl) |].
  rewrite Hreg.
  destruct (Qlt_bool (Game.daen g) (cost c)) eqn:E.
  { apply Qlt_bool_iff in E. lra. }
  unfold at_index at 1. destruct (Z.ltb_spec laneIndex 0); [lia |]. rewrite Hl.
  unfold occupant in Ho.
  destruct (at_index (Lane.tiles l) tileIndex) as [tile |]; [| discriminate].
  simpl in Ho. destruct (Tile.minion tile); [discriminate | reflexivity].
Qed.

(** An invalid request is rejected and nothing changes: [placeMinionAt]
    returns [false] and leaves the whole state, the Daen and every tile
    with it, as it was. *)
Lemma placeMinionAt_invalid (g : Game.t) (laneIndex tileIndex : Z) :
  ~ valid_request g laneIndex tileIndex ->
  placeMinionAt laneIndex tileIndex g = (Normal false, g).
Proof.
  intros Hinv. unfold placeMinionAt.
  destruct (canPlaceMinion_total g laneIndex tileIndex) as [[|] Hb].
  - exfalso. apply Hinv. apply canPlaceMinion_true. exact Hb.
  - rewrite (bind_Normal _ _ g g false Hb). reflexivity.
Qed.

(** A valid request places the defender and debits its cost, and then the
    call of the missing [playSound] throws: [placeMinionAt] does not return
    [true]. *)
Lemma placeMinionAt_valid (g : Game.t) (laneIndex tileIndex : Z) :
  wf_game g -> valid_request g laneIndex tileIndex ->
  exists (c : MinionClass) (l l' : Lane.t) (g' : Game.t),
    (Game.selectedMinionType g ≫= fun ty => MinionRegistry !! ty) = Some c
    /\ placeMinionAt laneIndex tileIndex g
       = (Throw (TypeError "this.playSound is not a function"), g')
    /\ Game.daen g' = Game.daen g - cost c
    /\ Game.lanes g !! Z.to_nat laneIndex = Some l
    /\ Lane.placeMinion (Game.nextRef g) tileIndex l = (Normal true, l')
    /\ Game.lanes g' = <[Z.to_nat laneIndex := l']> (Game.lanes g)
    /\ Game.nextRef g' = S (Game.nextRef g)
    /\ Game.laneCount g' = Game.laneCount g
    /\ Game.tileCount g' = Game.tileCount g
    /\ Game.lanes g' !! Z.to_nat laneIndex = Some l'
    /\ occupant l' tileIndex = Some (Some (Game.nextRef g))
    /\ Game.heap g' !! Game.nextRef g
       = Some (new_Minion c laneIndex (inject_Z tileIndex)).
Proof.
  intros [Hlen Hlanes] Hv.
  pose proof (canPlaceMinion_valid g laneIndex tileIndex Hv) as Hcan.
  destruct Hv as (Hli & Hti & ty & c & l & Hsel & Hreg & Hd & Hl & Ho).
  assert (Hwf : wf_lane l /\ Lane.tileCount l = Game.tileCount g).
  { rewrite Forall_forall in Hlanes. apply Hlanes.
    eapply list_elem_of_lookup_2. exact Hl. }
  destruct Hwf as [Hwf Htc].
  destruct (canPlaceAt_iff l tileIndex Hwf) as (b & Hb & Hiff).
  assert (b = true) as -> by (apply Hiff; split; [lia | exact Ho]).
  unfold occupant in Ho.
  destruct (at_index (Lane.tiles l) tileIndex) as [tile |] eqn:Ht; [| discriminate].
  simpl in Ho. injection Ho as Hm.
  assert (Hplace : Lane.placeMinion (Game.nextRef g) tileIndex l
                   = (Normal true,
                      Lane.with_minions (Lane.minions l ++ [Game.nextRef g])
                        (Lane.with_tiles
                           (<[Z.to_nat tileIndex :=
                                {| Tile.laneIndex := Tile.laneIndex tile;
                                   Tile.position := Tile.position tile;
                                   Tile.minion := Some (Game.nextRef g) |}]>
                              (Lane.tiles l)) l))).
  { unfold Lane.placeMinion. rewrite Hb, Ht.
    unfold Tile.placeMinion, Tile.isEmpty. rewrite Hm. reflexivity. }
  exists c, l. eexists _, _. split; [rewrite Hsel; exact Hreg |].
  split.
  - unfold placeMinionAt.
    rewrite (bind_Normal _ _ g g true Hcan). cbn [negb].
    rewrite bind_get, Hsel. cbn [mbind option_bind]. rewrite Hreg.
    rewrite (bind_Normal _ _ g g _ (lanes_at_Some g laneIndex ltac:(lia))).
    rewrite (bind_Normal _ _ _ _ _ (new_object_run _ _)).
    erewrite (bind_Normal (on_lane _ _) _ _ _ true).
    2: { eapply on_lane_run; [cbn; exact Hl | exact Hplace]. }
    cbv iota. rewrite bind_modify.
    unfold updateDaenDisplay. rewrite bind_ret.
    apply bind_Throw. reflexivity.
  - cbn. split; [reflexivity |]. split; [exact Hl |]. split; [exact Hplace |].
    split; [reflexivity |]. split; [reflexivity |].
    split; [reflexivity |]. split; [reflexivity |].
    split; [apply list_lookup_insert_eq; eapply lookup_lt_Some; exact Hl |].
    split; [| apply lookup_insert_eq].
    unfold occupant. cbn. erewrite at_index_insert by exact Ht. reflexivity.
Qed.

Lemma allocated_new : allocated Game_new.
Proof.
  unfold allocated, Game_new. cbn [Game.lanes Game.nextRef].
  apply Forall_forall. intros l Hl. apply list_elem_of_In, in_map_iff in Hl.
  destruct Hl as (i & <- & _). constructor.
Qed.

(** In a game whose defenders were all created by [new], the defender that
    [placeMinionAt] builds for a valid request is a new object: the lane's
    defender list holds exactly one reference to it afterwards, the grid is
    still the one of the constructor and every listed defender is still one
    that [new] created. *)
Lemma placeMinionAt_registers_once (g : Game.t) (laneIndex tileIndex : Z) :
  wf_game g -> allocated g -> valid_request g laneIndex tileIndex ->
  let g' := snd (placeMinionAt laneIndex tileIndex g) in
  (exists l' : Lane.t,
      Game.lanes g' !! Z.to_nat laneIndex = Some l'
      /\ occupant l' tileIndex = Some (Some (Game.nextRef g))
      /\ count_occ Nat.eq_dec (Lane.minions l') (Game.nextRef g) = 1%nat)
  /\ wf_game g' /\ allocated g'.
Proof.
  intros Hwf Halloc Hv. cbv zeta.
  destruct (placeMinionAt_valid g laneIndex tileIndex Hwf Hv)
    as (c & l & l' & g' & _ & -> & _ & Hl & Hp & Hlanes & Hnext & Hlc & Htc
        & Hl' & Ho & _).
  cbn [snd].
  destruct (placeMinion_success l l' tileIndex _ Hp) as (_ & Hmin & Hcount).
  unfold allocated in *. rewrite Forall_forall in Halloc.
  pose proof (Halloc l (list_elem_of_lookup_2 _ _ _ Hl)) as Hallocl.
  assert (Hfresh : count_occ Nat.eq_dec (Lane.minions l) (Game.nextRef g) = O).
  { apply count_occ_not_In. intros Hin. rewrite Forall_forall in Hallocl.
    specialize (Hallocl _ (proj2 (list_elem_of_In _ _) Hin)). lia. }
  split; [exists l'; split; [exact Hl' |]; split; [exact Ho |]; lia |].
  destruct Hwf as [Hlen Hall].
  assert (Hl'wf : wf_lane l' /\ Lane.tileCount l' = Game.tileCount g).
  { rewrite Forall_forall in Hall.
    destruct (Hall l (list_elem_of_lookup_2 _ _ _ Hl)) as [Hwfl Htcl].
    revert Hp. unfold Lane.placeMinion.
    destruct (Lane.canPlaceAt tileIndex l) as [[|] |]; try discriminate.
    destruct (at_index (Lane.tiles l) tileIndex) as [tile |]; [| discriminate].
    destruct (Tile.placeMinion (Game.nextRef g) tile) as [[|] tile']; intros [= <-].
    split; [| exact Htcl]. unfold wf_lane in *. cbn. rewrite length_insert. exact Hwfl. }
  split.
  - split.
    + rewrite Hlanes, length_insert, Hlc. exact Hlen.
    + rewrite Hlanes, Htc. apply Forall_insert; [exact Hall | exact Hl'wf].
  - rewrite Hlanes, Hnext. apply Forall_insert.
    + apply Forall_forall. intros x Hx. specialize (Halloc x Hx).
      eapply Forall_impl; [exact Halloc |]. intros r Hr. cbn beta in *. lia.
    + rewrite Hmin. apply Forall_app. split.
      * eapply Forall_impl; [exact Hallocl |]. intros r Hr. cbn beta in *. lia.
      * repeat constructor.
Qed.

(** C1 (the code departs from the claim).  With Daen 10 and the 5-cost
    Gravelim selected, the request for lane 0, tile 0 of the new game is
    valid; [placeMinionAt] places the Gravelim and leaves Daen 5, but throws
    a [TypeError] at [this.playSound('place')] and so returns no [true].
    With Daen 3 the request is rejected: [false], and the state, Daen 3
    included, is unchanged. *)
Theorem placeMinionAt_throws_on_valid_request :
  valid_request (selecting "gravelim") 0 0
  /\ Game.daen (selecting "gravelim") = 10
  /\ cost Gravelim = 5
  /\ fst (placeMinionAt 0 0 (selecting "gravelim"))
     = Throw (TypeError "this.playSound is not a function")
  /\ Game.daen (snd (placeMinionAt 0 0 (selecting "gravelim"))) == 5
  /\ (Game.lanes (snd (placeMinionAt 0 0 (selecting "gravelim"))) !! 0%nat
        ≫= fun l => occupant l 0) = Some (Some 0%nat)
  /\ ~ valid_request (Game.with_daen 3 (selecting "gravelim")) 0 0
  /\ placeMinionAt 0 0 (Game.with_daen 3 (selecting "gravelim"))
     = (Normal false, Game.with_daen 3 (selecting "gravelim")).
Proof.
  assert (Hv : valid_request (selecting "gravelim") 0 0).
  { apply canPlaceMinion_true. reflexivity. }
  assert (Hinv : ~ valid_request (Game.with_daen 3 (selecting "gravelim")) 0 0).
  { intros H. apply canPlaceMinion_valid in H. vm_compute in H. discriminate. }
  split; [exact Hv |].
  split; [reflexivity |]. split; [reflexivity |]. split; [reflexivity |].
  split; [reflexivity |]. split; [reflexivity |].
  split; [exact Hinv |].
  apply placeMinionAt_invalid. exact Hinv.
Qed.

(** ** Frames *)

Lemma preserves_ret {A X : Type} (view : Game.t -> X) (a : A) : preserves view (ret a).
Proof. intros g. reflexivity. Qed.

Lemma preserves_throw {A X : Type} (view : Game.t -> X) (e : JsError) :
  preserves view (throw e : M A).
Proof. intros g. reflexivity. Qed.

Lemma preserves_get {X : Type} (view : Game.t -> X) : preserves view get.
Proof. intros g. reflexivity. Qed.

Lemma preserves_bind {A B X : Type} (view : Game.t -> X) (c : M A) (k : A -> M B) :
  preserves view c -> (forall a, preserves view (k a)) -> preserves view (bind c k).
Proof.
  intros Hc Hk g. unfold bind. specialize (Hc g).
  destruct (c g) as [[a | e] g']; cbn [snd] in *.
  - rewrite (Hk a g'). exact Hc.
  - exact Hc.
Qed.

Lemma preserves_modify {X : Type} (view : Game.t -> X) (f : Game.t -> Game.t) :
  (forall g, view (f g) = view g) -> preserves view (modify f).
Proof. intros H g. apply H. Qed.

Lemma preserves_when {X : Type} (view : Game.t -> X) (b : bool) (c : M unit) :
  preserves view c -> preserves view (when b c).
Proof. intros H. destruct b; [exact H | apply preserves_ret]. Qed.

Lemma preserves_forEach {A X : Type} (view : Game.t -> X) (l : list A) (body : A -> M unit) :
  (forall a, preserves view (body a)) -> preserves view (forEach l body).
Proof.
  intros H. induction l as [| a l IH]; cbn [forEach].
  - apply preserves_ret.
  - apply preserves_bind; [apply H | intros _; exact IH].
Qed.

Lemma preserves_mapM {A B X : Type} (view : Game.t -> X) (f : A -> M B) (l : list A) :
  (forall a, preserves view (f a)) -> preserves view (mapM f l).
Proof.
  intros H. induction l as [| a l IH]; cbn [mapM].
  - apply preserves_ret.
  - apply preserves_bind; [apply H | intros b].
    apply preserves_bind; [exact IH | intros bs; apply preserves_ret].
Qed.

Lemma preserves_deref {X : Type} (view : Game.t -> X) (r : ref) : preserves view (deref r).
Proof. intros g. unfold deref. destruct (Game.heap g !! r); reflexivity. Qed.

Lemma preserves_read_lane {X : Type} (view : Game.t -> X) (li : nat) :
  preserves view (read_lane li).
Proof. intros g. unfold read_lane. destruct (Game.lanes g !! li); reflexivity. Qed.

Lemma preserves_lanes_at {X : Type} (view : Game.t -> X) (i : Z) :
  preserves view (lanes_at i).
Proof. intros g. unfold lanes_at. destruct (at_index (Game.lanes g) i); reflexivity. Qed.

Lemma preserves_update_unit {X : Type} (view : Game.t -> X) (r : ref) (f : Unit.t -> Unit.t) :
  (forall g u, Game.heap g !! r = Some u ->
               view (Game.with_heap (<[r := f u]> (Game.heap g)) g) = view g) ->
  preserves view (update_unit r f).
Proof.
  intros H g. unfold update_unit, bind, deref.
  destruct (Game.heap g !! r) as [u |] eqn:E; [| reflexivity].
  cbn. apply H. exact E.
Qed.

Lemma preserves_on_lane {A X : Type} (view : Game.t -> X) (li : nat)
    (f : Lane.t -> completion A * Lane.t) :
  (forall g l, Game.lanes g !! li = Some l ->
               view (Game.with_lanes (<[li := snd (f l)]> (Game.lanes g)) g) = view g) ->
  preserves view (on_lane li f).
Proof.
  intros H g. unfold on_lane, bind, read_lane.
  destruct (Game.lanes g !! li) as [l |] eqn:E; [| reflexivity].
  specialize (H g l E). destruct (f l) as [[a | e] l']; cbn in *; exact H.
Qed.

(** One step of a frame proof, by the shape of the computation. *)
Ltac frame_step :=
  lazymatch goal with
  | |- preserves _ (bind _ _) => apply preserves_bind; [| intros]
  | |- preserves _ (ret _) => apply preserves_ret
  | |- preserves _ (throw _) => apply preserves_throw
  | |- preserves _ get => apply preserves_get
  | |- preserves _ (deref _) => apply preserves_deref
  | |- preserves _ (read_lane _) => apply preserves_read_lane
  | |- preserves _ (lanes_at _) => apply preserves_lanes_at
  | |- preserves _ (when _ _) => apply preserves_when
  | |- preserves _ (forEach _ _) => apply preserves_forEach; intros
  | |- preserves _ (mapM _ _) => apply preserves_mapM; intros
  | |- preserves _ (update_unit _ _) => apply preserves_update_unit; intros
  | |- preserves _ (on_lane _ _) => apply preserves_on_lane; intros
  | |- preserves _ (modify _) => apply preserves_modify; intros
  | |- preserves _ updateDaenDisplay => apply preserves_ret
  | |- preserves _ (if ?b then _ else _) => destruct b
  | |- preserves _ (match ?x with _ => _ end) => destruct x
  | |- preserves _ (let '(_, _) := ?x in _) => destruct x
  end.

(** *** The wave view *)

Lemma wave_view_heap (h : gmap ref Unit.t) (g : Game.t) :
  wave_view (Game.with_heap h g) = wave_view g.
Proof. reflexivity. Qed.

Lemma wave_view_eq (g g' : Game.t) :
  wave_view g' = wave_view g ->
  Game.onslaughtTriggered g' = Game.onslaughtTriggered g
  /\ Game.onslaughtComplete g' = Game.onslaughtComplete g
  /\ Game.heroesInWave g' = Game.heroesInWave g
  /\ Game.heroesRemaining g' = Game.heroesRemaining g
  /\ Game.bossWave g' = Game.bossWave g
  /\ Game.spawnDelay g' = Game.spawnDelay g
  /\ onslaughts g' = onslaughts g.
Proof. unfold wave_view. intros H. injection H. auto 10. Qed.

Lemma count_onslaughts_app (l1 l2 : list FloatingText) :
  count_onslaughts (l1 ++ l2) = (count_onslaughts l1 + count_onslaughts l2)%nat.
Proof.
  induction l1 as [| t l1 IH]; [reflexivity |].
  destruct t; cbn [app count_onslaughts]; rewrite IH; reflexivity.
Qed.

Lemma wave_view_text (t : FloatingText) (g : Game.t) :
  t <> OnslaughtText ->
  wave_view (Game.with_floatingTexts (Game.floatingTexts g ++ [t]) g) = wave_view g.
Proof.
  intros H. unfold wave_view, onslaughts. cbn.
  rewrite count_onslaughts_app.
  destruct t; try congruence; cbn; rewrite Nat.add_0_r; reflexivity.
Qed.

(** Spawning a hero leaves the onslaught state of the wave alone. *)
Lemma spawnHeroInLane_wave_view (random : nat -> Q) (laneIndex : Z)
    (options : SpawnOptions) :
  preserves wave_view (spawnHeroInLane random laneIndex options).
Proof.
  unfold spawnHeroInLane, getWaveScaling, showFloatingText. cbv zeta.
  repeat frame_step; try (intros g'; reflexivity); try reflexivity.
  apply wave_view_text. discriminate.
Qed.

(** ** Onslaught *)


Lemma Qceiling_double (h : Z) : Qceiling (inject_Z h * 2) = (2 * h)%Z.
Proof.
  change 2 with (inject_Z 2). rewrite <- inject_Z_mult, Qceiling_Z. lia.
Qed.









(** ** Damage and death *)

Lemma indexOf_None (x : nat) (l : list nat) : indexOf x l = None <-> x ∉ l.
Proof.
  induction l as [| y l IH]; cbn [indexOf].
  - split; [intros _ H; inversion H | reflexivity].
  - destruct (Nat.eqb_spec y x) as [-> | Hne].
    + split; [discriminate | intros H; exfalso; apply H; left].
    + rewrite not_elem_of_cons. destruct (indexOf x l); cbn.
      * split; [discriminate | intros [_ H]; apply IH in H; discriminate].
      * split; [intros _; split; [congruence | apply IH; reflexivity] | reflexivity].
Qed.

Lemma indexOf_Some (x : nat) (l : list nat) (i : nat) :
  indexOf x l = Some i -> l !! i = Some x /\ x ∉ take i l.
Proof.
  revert i. induction l as [| y l IH]; intros i; cbn [indexOf]; [discriminate |].
  destruct (Nat.eqb_spec y x) as [-> | Hne].
  - intros [= <-]. split; [reflexivity | cbn; apply not_elem_of_nil].
  - destruct (indexOf x l) as [j |]; [| discriminate]. cbn. intros [= <-].
    destruct (IH j eq_refl) as [Hj Ht]. split; [exact Hj |].
    cbn. rewrite not_elem_of_cons. split; [congruence | exact Ht].
Qed.

Lemma NoDup_delete_indexOf (x : nat) (l : list nat) (i : nat) :
  NoDup l -> indexOf x l = Some i -> x ∉ delete i l.
Proof.
  intros Hnd Hi. apply indexOf_Some in Hi as [Hi Ht].
  rewrite delete_take_drop. rewrite not_elem_of_app. split; [exact Ht |].
  rewrite <- (take_drop_middle l i x Hi) in Hnd.
  apply NoDup_app in Hnd as (_ & _ & Hnd). apply NoDup_cons in Hnd. tauto.
Qed.

Lemma NoDup_delete {A : Type} (l : list A) (i : nat) : NoDup l -> NoDup (delete i l).
Proof.
  intros H. eapply sublist_NoDup; [exact H | apply sublist_delete].
Qed.

Lemma wf_lane_insert (l : Lane.t) (i : nat) (tile : Tile.t) :
  wf_lane l -> wf_lane (Lane.with_tiles (<[i := tile]> (Lane.tiles l)) l).
Proof. unfold wf_lane. cbn. rewrite length_insert. auto. Qed.

(** [Lane.removeMinion] on a lane with its tiles: it returns normally,
    leaves the attackers alone, takes the first reference to the minion out of
    the defender list and empties the tile under the minion when that tile
    refers to it. *)
Lemma removeMinion_run (self : ref) (pos : Q) (l : Lane.t) :
  wf_lane l ->
  exists l' : Lane.t,
    Lane.removeMinion self pos l = (Normal tt, l')
    /\ wf_lane l'
    /\ Lane.heroes l' = Lane.heroes l
    /\ (NoDup (Lane.minions l) -> (self ∉ Lane.minions l') /\ NoDup (Lane.minions l'))
    /\ ((forall (i : nat) (tile : Tile.t),
           Lane.tiles l !! i = Some tile -> Tile.minion tile = Some self ->
           Z.of_nat i = Qfloor pos) ->
        forall tile : Tile.t, tile ∈ Lane.tiles l' -> Tile.minion tile <> Some self)
    /\ (self ∉ Lane.minions l ->
        (forall tile : Tile.t, tile ∈ Lane.tiles l -> Tile.minion tile <> Some self) ->
        l' = l).
Proof.
  intros Hwf. unfold Lane.removeMinion.
  set (l1 := match indexOf self (Lane.minions l) with
             | Some i => Lane.with_minions (delete i (Lane.minions l)) l
             | None => l
             end).
  assert (Ht1 : Lane.tiles l1 = Lane.tiles l)
    by (unfold l1; destruct (indexOf self (Lane.minions l)); reflexivity).
  assert (Hc1 : Lane.tileCount l1 = Lane.tileCount l)
    by (unfold l1; destruct (indexOf self (Lane.minions l)); reflexivity).
  assert (Hh1 : Lane.heroes l1 = Lane.heroes l)
    by (unfold l1; destruct (indexOf self (Lane.minions l)); reflexivity).
  assert (Hwf1 : wf_lane l1) by (unfold wf_lane; rewrite Ht1, Hc1; exact Hwf).
  assert (Hm1 : NoDup (Lane.minions l) ->
                (self ∉ Lane.minions l1) /\ NoDup (Lane.minions l1)).
  { intros Hnd. unfold l1. destruct (indexOf self (Lane.minions l)) as [i |] eqn:E; cbn.
    - split; [eapply NoDup_delete_indexOf; eassumption | apply NoDup_delete; exact Hnd].
    - split; [apply indexOf_None; exact E | exact Hnd]. }
  assert (Hid1 : self ∉ Lane.minions l -> l1 = l).
  { intros Hn. unfold l1. apply indexOf_None in Hn. rewrite Hn. reflexivity. }
  clearbody l1.
  destruct ((Qfloor pos >=? 0)%Z && (Qfloor pos <? Lane.tileCount l1)%Z)%bool eqn:Eb.
  - apply andb_true_iff in Eb as [Eb0 Eb1].
    apply Z.geb_le in Eb0. apply Z.ltb_lt in Eb1.
    destruct (at_index_Some (Lane.tiles l1) (Qfloor pos)) as [tile Ht].
    { unfold wf_lane in Hwf1. lia. }
    rewrite Ht. pose proof (at_index_lookup _ _ _ Ht) as [_ Hlk].
    destruct (bool_decide (Tile.minion tile = Some self)) eqn:Ed.
    + apply bool_decide_eq_true in Ed.
      eexists. split; [reflexivity |].
      split; [apply wf_lane_insert; exact Hwf1 |].
      split; [exact Hh1 |]. split; [exact Hm1 |]. split.
      * intros Hcons tile' Hin Hself. cbn in Hin.
        apply list_elem_of_lookup in Hin as [i Hi].
        destruct (Nat.eq_dec i (Z.to_nat (Qfloor pos))) as [-> | Hne].
        -- rewrite list_lookup_insert_eq in Hi by (eapply lookup_lt_Some; exact Hlk).
           injection Hi as <-. discriminate.
        -- rewrite list_lookup_insert_ne in Hi by congruence.
           rewrite Ht1 in Hi. specialize (Hcons i tile' Hi Hself). lia.
      * intros Hn Hnone. exfalso. apply (Hnone tile); [| exact Ed].
        rewrite <- Ht1. eapply list_elem_of_lookup_2. exact Hlk.
    + apply bool_decide_eq_false in Ed.
      exists l1. split; [reflexivity |]. split; [exact Hwf1 |].
      split; [exact Hh1 |]. split; [exact Hm1 |]. split.
      * intros Hcons tile' Hin Hself. rewrite Ht1 in Hin.
        apply list_elem_of_lookup in Hin as [i Hi].
        pose proof (Hcons i tile' Hi Hself) as Hpos.
        rewrite Ht1 in Hlk. assert (i = Z.to_nat (Qfloor pos)) as -> by lia.
        rewrite Hlk in Hi. injection Hi as <-. contradiction.
      * intros Hn _. apply Hid1. exact Hn.
  - exists l1. split; [reflexivity |]. split; [exact Hwf1 |].
    split; [exact Hh1 |]. split; [exact Hm1 |]. split.
    + intros Hcons tile' Hin Hself. rewrite Ht1 in Hin.
      apply list_elem_of_lookup in Hin as [i Hi].
      pose proof (Hcons i tile' Hi Hself) as Hpos.
      apply lookup_lt_Some in Hi. unfold wf_lane in Hwf.
      rewrite <- Hc1 in Hwf. rewrite <- Ht1 in Hwf.
      destruct (Z.geb_spec (Qfloor pos) 0), (Z.ltb_spec (Qfloor pos) (Lane.tileCount l1));
        cbn in Eb; try discriminate; rewrite Ht1 in Hwf; lia.
    + intros Hn _. apply Hid1. exact Hn.
Qed.

Lemma all_objects_insert (g g' : Game.t) (rs : list ref) (r : ref) (u : Unit.t) :
  Game.heap g' = <[r := u]> (Game.heap g) -> all_objects g rs -> all_objects g' rs.
Proof.
  unfold all_objects. intros Hh H. eapply Forall_impl; [exact H |].
  intros r' Hr'. rewrite Hh. destruct (decide (r = r')) as [-> | Hne].
  - rewrite lookup_insert_eq. eauto.
  - rewrite lookup_insert_ne by exact Hne. exact Hr'.
Qed.

Lemma all_objects_same_heap (g g' : Game.t) (rs : list ref) :
  Game.heap g' = Game.heap g -> all_objects g rs -> all_objects g' rs.
Proof. unfold all_objects. intros ->. auto. Qed.

Lemma Dreadchant_onEnemyDeath_run (g : Game.t) (m hero : ref) :
  is_Some (Game.heap g !! m) -> is_Some (Game.heap g !! hero) ->
  exists g' : Game.t,
    Dreadchant_onEnemyDeath m hero g = (Normal tt, g')
    /\ Game.heap g' = Game.heap g /\ Game.lanes g' = Game.lanes g
    /\ Game.randomCalls g' = Game.randomCalls g.
Proof.
  intros [mu Hm] [hu Hh]. unfold Dreadchant_onEnemyDeath.
  rewrite (bind_Normal _ _ g g mu (deref_Some g m mu Hm)).
  rewrite (bind_Normal _ _ g g hu (deref_Some g hero hu Hh)).
  destruct (Qle_bool (Qabs (Unit.position mu - Unit.position hu)) conversionRange).
  - eexists. split; [reflexivity |]. auto.
  - eexists. split; [reflexivity |]. auto.
Qed.

Lemma hooks_run (hero : ref) (ms : list ref) :
  forall g : Game.t,
    all_objects g ms -> is_Some (Game.heap g !! hero) ->
    exists g' : Game.t,
      forEach ms
        (fun m =>
           let* mu := deref m in
           match Unit.cls mu with
           | MinionOf Dreadchant => Dreadchant_onEnemyDeath m hero
           | _ => ret tt
           end) g = (Normal tt, g')
      /\ Game.heap g' = Game.heap g /\ Game.lanes g' = Game.lanes g
      /\ Game.randomCalls g' = Game.randomCalls g.
Proof.
  induction ms as [| m ms IH]; intros g Hall Hhero.
  - exists g. auto.
  - inversion Hall as [| ? ? Hm Hms]; subst. cbn [forEach].
    assert (Hstep : exists g1 : Game.t,
               (let* mu := deref m in
                match Unit.cls mu with
                | MinionOf Dreadchant => Dreadchant_onEnemyDeath m hero
                | _ => ret tt
                end) g = (Normal tt, g1)
               /\ Game.heap g1 = Game.heap g /\ Game.lanes g1 = Game.lanes g
               /\ Game.randomCalls g1 = Game.randomCalls g).
    { destruct Hm as [mu Hmu].
      rewrite (bind_Normal _ _ g g mu (deref_Some g m mu Hmu)).
      destruct (Unit.cls mu) as [[| | | |] | c]; try solve [exists g; auto].
      apply Dreadchant_onEnemyDeath_run; [eauto | exact Hhero]. }
    destruct Hstep as (g1 & Hrun & Hh1 & Hl1 & Hr1).
    rewrite (bind_Normal _ _ g g1 tt Hrun).
    destruct (IH g1) as (g' & Hrun' & Hh' & Hl' & Hr').
    + eapply all_objects_same_heap; eassumption.
    + rewrite Hh1. exact Hhero.
    + exists g'. split; [exact Hrun' |]. repeat split; congruence.
Qed.

(** [Lane.removeHero(hero)] in a lane whose defenders are objects: nothing
    at all happens when the hero is not in the attacker list; otherwise the
    hooks run, one number is drawn and the first reference to the hero
    leaves the list. *)
Lemma Lane_removeHero_run (random : nat -> Q) (g : Game.t) (li : nat) (l : Lane.t)
    (hero : ref) :
  Game.lanes g !! li = Some l -> all_objects g (Lane.minions l) ->
  is_Some (Game.heap g !! hero) ->
  exists g' : Game.t,
    Lane_removeHero random li hero g = (Normal tt, g')
    /\ Game.heap g' = Game.heap g
    /\ match indexOf hero (Lane.heroes l) with
       | Some i =>
           Game.lanes g'
           = <[li := Lane.with_heroes (delete i (Lane.heroes l)) l]> (Game.lanes g)
           /\ Game.randomCalls g' = S (Game.randomCalls g)
       | None => g' = g
       end.
Proof.
  intros Hl Hall Hhero. unfold Lane_removeHero.
  rewrite (bind_Normal _ _ g g l (read_lane_Some g li l Hl)).
  destruct (indexOf hero (Lane.heroes l)) as [i |]; [| exists g; auto].
  destruct (hooks_run hero (Lane.minions l) g Hall Hhero) as (g1 & Hrun & Hh1 & Hl1 & Hr1).
  rewrite (bind_Normal _ _ g g1 tt Hrun).
  rewrite (bind_Normal (Math_random random) _ _ _ _ eq_refl).
  destruct (Qlt_bool (random (Game.randomCalls g1)) 0.5); cbn [when].
  - unfold updateDaenDisplay, showFloatingText.
    eexists. split.
    + rewrite bind_bind, bind_modify, bind_bind, bind_ret, bind_modify.
      erewrite (bind_Normal (read_lane li) _ _ _ l)
        by (apply read_lane_Some; cbn; rewrite Hl1; exact Hl).
      reflexivity.
    + cbn. rewrite Hh1, Hl1, Hr1. auto.
  - eexists. split.
    + rewrite bind_ret.
      erewrite (bind_Normal (read_lane li) _ _ _ l)
        by (apply read_lane_Some; cbn; rewrite Hl1; exact Hl).
      reflexivity.
    + cbn. rewrite Hh1, Hl1, Hr1. auto.
Qed.

Lemma home_lane_lookup (g : Game.t) (u : Unit.t) (l : Lane.t) :
  home_lane g u = Some l ->
  (0 <= Unit.lane u < Z.of_nat (length (Game.lanes g)))%Z
  /\ Game.lanes g !! Z.to_nat (Unit.lane u) = Some l.
Proof.
  unfold home_lane. intros H. apply at_index_lookup in H as [H0 H1].
  split; [| exact H1]. apply lookup_lt_Some in H1. lia.
Qed.

(** Damage that leaves health above zero changes that health and nothing
    else. *)
Lemma takeDamage_survives (random : nat -> Q) (g : Game.t) (self : ref) (u : Unit.t)
    (amount : Q) :
  Game.heap g !! self = Some u ->
  Qle_bool (Unit.health u - amount) 0 = false ->
  Unit_takeDamage random self amount g
  = (Normal false,
     Game.with_heap (<[self := Unit.with_health (Unit.health u - amount) u]> (Game.heap g)) g).
Proof.
  intros Hself Hpos. unfold Unit_takeDamage.
  rewrite (bind_Normal _ _ _ _ _ (update_unit_run g self u _ Hself)).
  erewrite (bind_Normal (deref self) _ _ _ _)
    by (apply deref_Some; cbn; apply lookup_insert_eq).
  cbn [Unit.health Unit.with_health]. rewrite Hpos. reflexivity.
Qed.

(** Damage that takes health to zero or below: health is set to [0] and
    the unit leaves the containers of its lane; when it was in none of them,
    nothing but its health changes. *)
Lemma takeDamage_kills (random : nat -> Q) (g : Game.t) (self : ref) (u : Unit.t)
    (l : Lane.t) (amount : Q) :
  Game.heap g !! self = Some u ->
  Qle_bool (Unit.health u - amount) 0 = true ->
  home_lane g u = Some l -> consistent g l u self ->
  exists (g' : Game.t) (l' : Lane.t),
    Unit_takeDamage random self amount g = (Normal true, g')
    /\ Game.heap g' = <[self := Unit.with_health 0 u]> (Game.heap g)
    /\ home_lane g' (Unit.with_health 0 u) = Some l'
    /\ consistent g' l' (Unit.with_health 0 u) self
    /\ ~ holds l' (Unit.with_health 0 u) self
    /\ (~ holds l u self -> death_view g' = death_view g)
    /\ (forall c : HeroClass,
          Unit.cls u = HeroOf c -> self ∈ Lane.heroes l ->
          Game.randomCalls g' = S (Game.randomCalls g)).
Proof.
  intros Hself Hle Hhome [Hwf Hcons].
  pose proof (home_lane_lookup g u l Hhome) as [Hrange Hl].
  unfold Unit_takeDamage.
  rewrite (bind_Normal _ _ _ _ _ (update_unit_run g self u _ Hself)).
  erewrite (bind_Normal (deref self) _ _ _ _)
    by (apply deref_Some; cbn; apply lookup_insert_eq).
  cbn [Unit.health Unit.with_health]. rewrite Hle.
  erewrite (bind_Normal (update_unit self _) _ _ _ tt)
    by (apply update_unit_run; cbn; apply lookup_insert_eq).
  cbn [Game.heap Game.with_heap]. rewrite insert_insert_eq.
  change (Unit.with_health 0 (Unit.with_health (Unit.health u - amount) u))
    with (Unit.with_health 0 u).
  set (g2 := Game.with_heap (<[self := Unit.with_health 0 u]> (Game.heap g))
               (Game.with_heap
                  (<[self := Unit.with_health (Unit.health u - amount) u]> (Game.heap g)) g)).
  assert (Hself2 : Game.heap g2 !! self = Some (Unit.with_health 0 u))
    by (cbn; apply lookup_insert_eq).
  assert (Hlanes2 : Game.lanes g2 = Game.lanes g) by reflexivity.
  assert (Hview2 : death_view g2 = death_view g) by reflexivity.
  assert (Hrand2 : Game.randomCalls g2 = Game.randomCalls g) by reflexivity.
  assert (Hheap2 : Game.heap g2 = <[self := Unit.with_health 0 u]> (Game.heap g))
    by reflexivity.
  assert (Hobj : forall rs, all_objects g rs -> all_objects g2 rs).
  { intros rs Hrs. eapply all_objects_insert; [exact Hheap2 | exact Hrs]. }
  clearbody g2.
  assert (Hat : lanes_at (Unit.lane u) g2 = (Normal (Some (Z.to_nat (Unit.lane u))), g2)).
  { apply lanes_at_Some. rewrite Hlanes2. exact Hrange. }
  unfold Unit_die.
  rewrite (bind_bind (deref self)), (bind_Normal _ _ _ _ _ (deref_Some _ _ _ Hself2)).
  unfold holds, consistent in *. cbn [Unit.cls Unit.with_health Unit.position Unit.lane] in *.
  unfold home_lane. cbn [Unit.lane Unit.with_health].
  destruct (Unit.cls u) as [c | c].
  - destruct Hcons as [Hnd Htiles].
    unfold Minion_die.
    rewrite (bind_bind (deref self)), (bind_Normal _ _ _ _ _ (deref_Some _ _ _ Hself2)).
    cbn [Unit.lane Unit.with_health Unit.position].
    rewrite (bind_bind (lanes_at _)), (bind_Normal _ _ _ _ _ Hat).
    destruct (removeMinion_run self (Unit.position u) l Hwf)
      as (l' & Hrm & Hwf' & _ & Hmin & Htl & Hid).
    destruct (Hmin Hnd) as [Hnin Hnd'].
    specialize (Htl Htiles).
    erewrite (bind_Normal (on_lane _ _) _ _ _ tt)
      by (eapply on_lane_run; [rewrite Hlanes2; exact Hl | exact Hrm]).
    eexists _, l'. split; [reflexivity |].
    cbn [Game.heap Game.with_lanes Game.lanes].
    split; [exact Hheap2 |].
    split.
    { rewrite Hlanes2. apply at_index_insert with (x := l). exact Hhome. }
    split.
    { split; [exact Hwf' |]. split; [exact Hnd' |].
      intros i tile Hi Hs. exfalso. apply (Htl tile); [| exact Hs].
      eapply list_elem_of_lookup_2. exact Hi. }
    split.
    { intros [Hin | (tile & Hin & Hs)]; [contradiction |]. exact (Htl tile Hin Hs). }
    split; [| intros c' Hc'; discriminate].
    intros Hnot. rewrite Hid.
    + unfold death_view in *. cbn [Game.lanes Game.with_lanes Game.daen
        Game.randomCalls Game.floatingTexts].
      rewrite Hlanes2, list_insert_id by exact Hl.
      injection Hview2 as _ -> -> ->. reflexivity.
    + intros Hin. apply Hnot. left. exact Hin.
    + intros tile Hin Hs. apply Hnot. right. eauto.
  - destruct Hcons as [Hnd Hobjs].
    unfold Hero_die.
    rewrite (bind_bind (deref self)), (bind_Normal _ _ _ _ _ (deref_Some _ _ _ Hself2)).
    cbn [Unit.lane Unit.with_health].
    rewrite (bind_bind (lanes_at _)), (bind_Normal _ _ _ _ _ Hat).
    destruct (Lane_removeHero_run random g2 (Z.to_nat (Unit.lane u)) l self)
      as (g3 & Hrun & Hheap3 & Hcase).
    { rewrite Hlanes2. exact Hl. }
    { apply Hobj. exact Hobjs. }
    { rewrite Hself2. eauto. }
    rewrite (bind_Normal _ _ _ _ _ Hrun).
    destruct (indexOf self (Lane.heroes l)) as [i |] eqn:Ei.
    + destruct Hcase as [Hlanes3 Hrand3].
      exists g3, (Lane.with_heroes (delete i (Lane.heroes l)) l).
      split; [reflexivity |].
      split; [rewrite Hheap3; exact Hheap2 |].
      split.
      { rewrite Hlanes3, Hlanes2. apply at_index_insert with (x := l). exact Hhome. }
      split.
      { split; [exact Hwf |]. cbn. split; [apply NoDup_delete; exact Hnd |].
        eapply all_objects_same_heap; [exact Hheap3 |]. apply Hobj. exact Hobjs. }
      split.
      { cbn. eapply NoDup_delete_indexOf; eassumption. }
      split; [| intros _ _ _; rewrite Hrand3, Hrand2; reflexivity].
      intros Hnot. exfalso. apply Hnot.
      apply indexOf_Some in Ei as [Ei _]. eapply list_elem_of_lookup_2. exact Ei.
    + subst g3. exists g2, l.
      split; [reflexivity |]. split; [exact Hheap2 |].
      split; [rewrite Hlanes2; exact Hhome |].
      split; [split; [exact Hwf |]; split; [exact Hnd | apply Hobj; exact Hobjs] |].
      split; [apply indexOf_None; exact Ei |].
      split; [intros _; exact Hview2 |].
      intros _ _ Hin. apply indexOf_None in Ei. contradiction.
Qed.

(** A call of [takeDamage] on a unit that is in no container of its lane
    changes nothing but the health of that unit, and leaves it out of the
    containers. *)
Lemma released_strike (random : nat -> Q) (g : Game.t) (self : ref) (amount : Q) :
  released g self ->
  released (snd (Unit_takeDamage random self amount g)) self
  /\ death_view (snd (Unit_takeDamage random self amount g)) = death_view g.
Proof.
  intros (u & l & Hself & Hhome & Hcons & Hnot).
  destruct (Qle_bool (Unit.health u - amount) 0) eqn:E.
  - destruct (takeDamage_kills random g self u l amount Hself E Hhome Hcons)
      as (g' & l' & -> & Hheap & Hhome' & Hcons' & Hnot' & Hview & _).
    cbn [snd]. split; [| exact (Hview Hnot)].
    exists (Unit.with_health 0 u), l'.
    split; [rewrite Hheap; apply lookup_insert_eq | auto].
  - rewrite (takeDamage_survives random g self u amount Hself E). cbn [snd].
    split; [| reflexivity].
    exists (Unit.with_health (Unit.health u - amount) u), l.
    split; [apply lookup_insert_eq |]. split; [exact Hhome |].
    split; [| exact Hnot].
    destruct Hcons as [Hwf Hcons]. split; [exact Hwf |].
    unfold consistent in *. cbn [Unit.cls Unit.with_health Unit.position].
    destruct (Unit.cls u); [exact Hcons |].
    destruct Hcons as [Hnd Hobj]. split; [exact Hnd |].
    eapply all_objects_insert; [reflexivity | exact Hobj].
Qed.

Lemma released_strikes (random : nat -> Q) (self : ref) (amounts : list Q) :
  forall g : Game.t,
    released g self ->
    released (strikes random self amounts g) self
    /\ death_view (strikes random self amounts g) = death_view g.
Proof.
  induction amounts as [| a amounts IH]; intros g Hrel; [split; [exact Hrel | reflexivity] |].
  cbn [strikes].
  destruct (released_strike random g self a Hrel) as [Hrel1 Hview1].
  destruct (IH _ Hrel1) as [Hrel2 Hview2].
  split; [exact Hrel2 | congruence].
Qed.

(** C2.  For a unit of health [H] whose lane containers are in order and
    every amount [a]: [takeDamage(a)] returns normally and leaves the unit
    with health [max(0, H - a)]; it reports a death exactly when
    [H - a <= 0], and then the unit has health [0] and has left the containers
    of its lane (the attacker list for a hero, which draws the kill reward
    once on leaving; the defender list and its tile for a minion) before the
    call returns.  Whatever calls of [takeDamage] follow on that dead unit,
    the lanes, the Daen, the draws from [Math.random] and the floating texts
    stay as the death left them: no hook runs, no reward is drawn and nothing
    is removed again. *)
Theorem takeDamage_dies_once (random : nat -> Q) (g : Game.t) (self : ref)
    (u : Unit.t) (l : Lane.t) (amount : Q)
    (Hself : Game.heap g !! self = Some u)
    (Hhome : home_lane g u = Some l)
    (Hcons : consistent g l u self) :
  exists (died : bool) (g' : Game.t) (u' : Unit.t),
    Unit_takeDamage random self amount g = (Normal died, g')
    /\ Game.heap g' !! self = Some u'
    /\ Unit.health u' == Qmax 0 (Unit.health u - amount)
    /\ (died = true <-> Unit.health u - amount <= 0)
    /\ (died = true ->
        Unit.health u' = 0
        /\ released g' self
        /\ (forall c : HeroClass,
              Unit.cls u = HeroOf c -> self ∈ Lane.heroes l ->
              Game.randomCalls g' = S (Game.randomCalls g))
        /\ forall amounts : list Q,
             released (strikes random self amounts g') self
             /\ death_view (strikes random self amounts g') = death_view g').
Proof.
  destruct (Qle_bool (Unit.health u - amount) 0) eqn:E.
  - destruct (takeDamage_kills random g self u l amount Hself E Hhome Hcons)
      as (g' & l' & Hrun & Hheap & Hhome' & Hcons' & Hnot' & _ & Hroll).
    apply Qle_bool_iff in E.
    assert (Hrel : released g' self).
    { exists (Unit.with_health 0 u), l'.
      split; [rewrite Hheap; apply lookup_insert_eq | auto]. }
    exists true, g', (Unit.with_health 0 u).
    split; [exact Hrun |].
    split; [rewrite Hheap; apply lookup_insert_eq |].
    split; [cbn; rewrite Q.max_l by exact E; reflexivity |].
    split; [tauto |]. intros _.
    split; [reflexivity |]. split; [exact Hrel |]. split; [exact Hroll |].
    intros amounts. apply released_strikes. exact Hrel.
  - rewrite (takeDamage_survives random g self u amount Hself E).
    apply Qle_bool_false in E.
    eexists false, _, (Unit.with_health (Unit.health u - amount) u).
    split; [reflexivity |]. split; [apply lookup_insert_eq |].
    split; [cbn; rewrite Q.max_r by lra; reflexivity |].
    split; [| discriminate].
    split; [discriminate | intros H; lra].
Qed.

(** A witness of [takeDamage_dies_once]: in [skirmish], the Militiant of
    tile 6 (object 1, health 114) takes 200 damage, dies with one draw of the
    kill reward and leaves the attacker list; two more hits change nothing. *)
Lemma takeDamage_dies_once_witness :
  exists (g' : Game.t) (u' : Unit.t),
    Unit_takeDamage quarter 1%nat 200 skirmish = (Normal true, g')
    /\ Game.heap g' !! 1%nat = Some u'
    /\ Unit.health u' = 0
    /\ released g' 1%nat
    /\ Game.randomCalls g' = S (Game.randomCalls skirmish)
    /\ death_view (strikes quarter 1%nat [5; 7] g') = death_view g'.
Proof.
  destruct (Game.heap skirmish !! 1%nat) as [u |] eqn:Hs; [| vm_compute in Hs; discriminate].
  destruct (Game.lanes skirmish !! 0%nat) as [l |] eqn:Hl; [| vm_compute in Hl; discriminate].
  assert (Hu : Unit.cls u = HeroOf Militiant /\ Unit.lane u = 0%Z /\ Unit.health u = 114).
  { vm_compute in Hs. injection Hs as <-. repeat split; reflexivity. }
  destruct Hu as (Hcls & Hlane & Hhealth).
  assert (Hlists : Lane.heroes l = [1%nat; 2%nat] /\ Lane.minions l = [0%nat]
                   /\ wf_lane l).
  { vm_compute in Hl. injection Hl as <-. repeat split; reflexivity. }
  destruct Hlists as (Hheroes & Hminions & Hwf).
  assert (Hhome : home_lane skirmish u = Some l).
  { unfold home_lane. rewrite Hlane. exact Hl. }
  assert (Hcons : consistent skirmish l u 1%nat).
  { split; [exact Hwf |]. rewrite Hcls, Hheroes, Hminions. split.
    - apply NoDup_cons. split; [| apply NoDup_singleton].
      rewrite list_elem_of_singleton. discriminate.
    - repeat constructor. vm_compute. eauto. }
  destruct (takeDamage_dies_once quarter skirmish 1%nat u l 200 Hs Hhome Hcons)
    as (died & g' & u' & Hrun & Hheap & _ & Hiff & Hdead).
  assert (died = true) as ->.
  { apply Hiff. rewrite Hhealth. vm_compute. discriminate. }
  destruct (Hdead eq_refl) as (Hzero & Hrel & Hroll & Hlater).
  exists g', u'. split; [exact Hrun |]. split; [exact Hheap |].
  split; [exact Hzero |]. split; [exact Hrel |].
  split; [apply (Hroll Militiant Hcls); rewrite Hheroes; apply list_elem_of_here |].
  apply Hlater.
Defined.

(** ** The tick of an attacker *)

Lemma located_insert (g : Game.t) (self : ref) (u u1 : Unit.t) (rs : list ref) :
  Game.heap g !! self = Some u -> Unit.position u1 = Unit.position u ->
  located (with_unit self u1 g) rs = located g rs.
Proof.
  intros Hself Hpos. unfold located, with_unit. cbn [Game.heap Game.with_heap].
  induction rs as [| r rs IH]; [reflexivity |].
  cbn [omap list_omap]. fold (@omap list _ ref (ref * Q)%type).
  rewrite IH. destruct (decide (self = r)) as [<- | Hne].
  - rewrite lookup_insert_eq, Hself. cbn. rewrite Hpos. reflexivity.
  - rewrite lookup_insert_ne by exact Hne. reflexivity.
Qed.

Lemma located_lookup (g : Game.t) (rs : list ref) (j : nat) (c : ref) (q : Q) :
  located g rs !! j = Some (c, q) ->
  exists u : Unit.t, c ∈ rs /\ Game.heap g !! c = Some u /\ q = Unit.position u.
Proof.
  intros H. apply list_elem_of_lookup_2 in H. unfold located in H.
  apply list_elem_of_omap in H as (r & Hin & Hr).
  destruct (Game.heap g !! r) as [u |] eqn:E; [| discriminate].
  cbn in Hr. injection Hr as <- <-. exists u. auto.
Qed.

Lemma located_elem (g : Game.t) (rs : list ref) (m : ref) (mu : Unit.t) :
  m ∈ rs -> Game.heap g !! m = Some mu ->
  exists j : nat, located g rs !! j = Some (m, Unit.position mu).
Proof.
  intros Hin Hm. apply list_elem_of_lookup. unfold located.
  apply list_elem_of_omap. exists m. split; [exact Hin |]. rewrite Hm. reflexivity.
Qed.

(** [findTarget] finds a target exactly when a defender is in range. *)
Lemma scanTargets_Some_iff (g : Game.t) (u : Unit.t) (l : Lane.t) :
  defender_in_range g u l
  <-> scanTargets (Unit.position u) (Unit.attackRange u)
        (located g (Lane.minions l)) None None <> None.
Proof.
  pose proof (scanTargets_nearest_first (Unit.position u) (Unit.attackRange u)
                (located g (Lane.minions l))) as Hn.
  destruct (scanTargets _ _ _ None None) as [t |]; cbn [nearest_first] in Hn.
  - split; [discriminate | intros _].
    destruct Hn as (i & p & Hi & Hr & _).
    apply located_lookup in Hi as (mu & Hin & Hmu & ->).
    exists t, mu. auto.
  - split; [| congruence]. intros (m & mu & Hin & Hmu & Hr). exfalso.
    destruct (located_elem g _ m mu Hin Hmu) as [j Hj].
    exact (Hn j m _ Hj Hr).
Qed.

(** Writing a unit back with its position unchanged leaves every position
    of the heap as it was. *)
Lemma position_of_insert (self r : ref) (f : Unit.t -> Unit.t) (g : Game.t) (u : Unit.t) :
  (forall x, Unit.position (f x) = Unit.position x) ->
  Game.heap g !! r = Some u ->
  position_of self (Game.with_heap (<[r := f u]> (Game.heap g)) g) = position_of self g.
Proof.
  intros Hf Hr. unfold position_of. cbn [Game.heap Game.with_heap].
  destruct (decide (r = self)) as [-> | Hne].
  - rewrite lookup_insert_eq, Hr. cbn. rewrite Hf. reflexivity.
  - rewrite lookup_insert_ne by exact Hne. reflexivity.
Qed.

(** An attack moves nobody. *)
Lemma Unit_attack_position (random : nat -> Q) (self attacker target : ref) :
  preserves (position_of self) (Unit_attack random attacker target).
Proof.
  unfold Unit_attack, Unit_canAttack, Unit_takeDamage, Unit_die, Minion_die, Hero_die,
    Lane_removeHero, Dreadchant_onEnemyDeath, showFloatingText, write_lane.
  repeat frame_step;
    try (intros g'; reflexivity); try reflexivity;
    try (apply position_of_insert; [intros x; reflexivity | assumption]).
Qed.

Lemma with_unit_id (g : Game.t) (self : ref) (u : Unit.t) :
  Game.heap g !! self = Some u -> with_unit self u g = g.
Proof.
  intros H. unfold with_unit. rewrite insert_id by exact H. destruct g. reflexivity.
Qed.

Lemma with_unit_twice (g : Game.t) (self : ref) (u u' : Unit.t) :
  with_unit self u' (with_unit self u g) = with_unit self u' g.
Proof.
  unfold with_unit. cbn [Game.heap Game.with_heap]. rewrite insert_insert_eq.
  reflexivity.
Qed.

Lemma cooled_fields (deltaTime : Q) (u : Unit.t) :
  Unit.position (cooled deltaTime u) = Unit.position u
  /\ Unit.attackRange (cooled deltaTime u) = Unit.attackRange u
  /\ Unit.lane (cooled deltaTime u) = Unit.lane u
  /\ Unit.cls (cooled deltaTime u) = Unit.cls u.
Proof.
  unfold cooled. destruct (Qlt_bool 0 (Unit.attackCooldown u)); repeat split; reflexivity.
Qed.

(** The start of [Hero.update], up to the test on the target. *)
Lemma Hero_update_prefix (random : nat -> Q) (g : Game.t) (self : ref) (u : Unit.t)
    (l : Lane.t) (deltaTime : Q) :
  Game.heap g !! self = Some u -> home_lane g u = Some l ->
  all_objects g (Lane.minions l) ->
  let u1 := cooled deltaTime u in
  let g1 := with_unit self u1 g in
  let target := scanTargets (Unit.position u) (Unit.attackRange u)
                  (located g (Lane.minions l)) None None in
  Game.heap g1 !! self = Some u1
  /\ Hero_update random self deltaTime g
     = match target with
       | Some t =>
           (if Qle_bool (Unit.attackCooldown u1) 0 then
              Unit_attack random self t ;;
              update_unit self
                (fun u => Unit.with_attackCooldown (1000 / Unit.attackSpeed u) u)
            else ret tt) g1
       | None => Unit_move self deltaTime (Unit.direction u1) g1
       end.
Proof.
  intros Hself Hhome Hobj u1 g1 target.
  pose proof (cooled_fields deltaTime u) as (Hpos & Hrange & Hlane & _).
  fold u1 in Hpos, Hrange, Hlane.
  assert (Hself1 : Game.heap g1 !! self = Some u1) by (cbn; apply lookup_insert_eq).
  split; [exact Hself1 |].
  pose proof (home_lane_lookup g u l Hhome) as [Hin Hl].
  unfold Hero_update.
  rewrite (bind_Normal _ _ _ _ _ (deref_Some g self u Hself)).
  assert (Hwhen :
            when (Qlt_bool 0 (Unit.attackCooldown u))
              (update_unit self
                 (fun u => Unit.with_attackCooldown (Unit.attackCooldown u - deltaTime) u)) g
            = (Normal tt, g1)).
  { unfold g1, u1, cooled. destruct (Qlt_bool 0 (Unit.attackCooldown u)); cbn [when].
    - exact (update_unit_run g self u _ Hself).
    - rewrite with_unit_id by exact Hself. reflexivity. }
  rewrite (bind_Normal _ _ _ _ _ Hwhen).
  rewrite (bind_Normal _ _ _ _ _ (lanes_at_Some g1 (Unit.lane u) Hin)).
  rewrite (bind_Normal _ _ _ _ _
             (Hero_findTarget_eq g1 self u1 (Z.to_nat (Unit.lane u)) l Hself1 Hl
                (all_objects_insert g g1 _ self u1 eq_refl Hobj))).
  rewrite (bind_Normal _ _ _ _ _ (deref_Some g1 self u1 Hself1)).
  rewrite Hpos, Hrange.
  unfold g1 at 1. rewrite (located_insert g self u u1 _ Hself Hpos).
  unfold target.
  destruct (scanTargets (Unit.position u) (Unit.attackRange u)
              (located g (Lane.minions l)) None None); reflexivity.
Qed.

Lemma Unit_move_run (g : Game.t) (self : ref) (u : Unit.t) (deltaTime : Q) :
  Game.heap g !! self = Some u ->
  Unit_move self deltaTime (Unit.direction u) g
  = (Normal tt, with_unit self (Unit.with_position (moved_position g deltaTime u) u) g).
Proof.
  intros Hself. unfold Unit_move.
  rewrite (bind_Normal _ _ _ _ _ (deref_Some g self u Hself)).
  rewrite (bind_Normal _ _ _ _ _ (update_unit_run g self u _ Hself)).
  rewrite bind_get.
  erewrite update_unit_run by (cbn; apply lookup_insert_eq).
  cbn [Game.heap Game.with_heap]. rewrite insert_insert_eq. reflexivity.
Qed.

Lemma Hero_update_in_range (random : nat -> Q) (g : Game.t) (self : ref) (u : Unit.t)
    (l : Lane.t) (deltaTime : Q) :
  Game.heap g !! self = Some u -> home_lane g u = Some l ->
  all_objects g (Lane.minions l) -> defender_in_range g u l ->
  position_of self (snd (Hero_update random self deltaTime g)) = Some (Unit.position u)
  /\ (0 < Unit.attackCooldown (cooled deltaTime u) ->
      Hero_update random self deltaTime g
      = (Normal tt, with_unit self (cooled deltaTime u) g)).
Proof.
  intros Hself Hhome Hobj Hin.
  destruct (Hero_update_prefix random g self u l deltaTime Hself Hhome Hobj)
    as [Hself1 Hrun].
  apply scanTargets_Some_iff in Hin.
  destruct (scanTargets _ _ _ None None) as [t |]; [clear Hin | congruence].
  rewrite Hrun.
  assert (Hpos1 : position_of self (with_unit self (cooled deltaTime u) g)
                  = Some (Unit.position u)).
  { unfold position_of. rewrite Hself1. cbn.
    destruct (cooled_fields deltaTime u) as [-> _]. reflexivity. }
  destruct (Qle_bool (Unit.attackCooldown (cooled deltaTime u)) 0) eqn:E.
  - split.
    + rewrite <- Hpos1. apply preserves_bind; [apply Unit_attack_position |].
      intros _. apply preserves_update_unit. intros g' u' Hu'.
      apply position_of_insert; [intros x; reflexivity | exact Hu'].
    + intros Hcd. apply Qle_bool_iff in E. lra.
  - split; [exact Hpos1 | reflexivity].
Qed.

Lemma Hero_update_out_of_range (random : nat -> Q) (g : Game.t) (self : ref) (u : Unit.t)
    (l : Lane.t) (deltaTime : Q) :
  Game.heap g !! self = Some u -> home_lane g u = Some l ->
  all_objects g (Lane.minions l) -> ~ defender_in_range g u l ->
  Hero_update random self deltaTime g
  = (Normal tt,
     with_unit self
       (Unit.with_position (moved_position g deltaTime (cooled deltaTime u))
          (cooled deltaTime u)) g).
Proof.
  intros Hself Hhome Hobj Hout.
  destruct (Hero_update_prefix random g self u l deltaTime Hself Hhome Hobj)
    as [Hself1 Hrun].
  rewrite scanTargets_Some_iff in Hout.
  destruct (scanTargets _ _ _ None None) as [t |]; [exfalso; apply Hout; discriminate |].
  rewrite Hrun, (Unit_move_run _ self _ deltaTime Hself1), with_unit_twice.
  reflexivity.
Qed.

Lemma defender_in_range_insert (g : Game.t) (self : ref) (u u0 : Unit.t) (l : Lane.t) :
  Game.heap g !! self = Some u ->
  Unit.position u0 = Unit.position u -> Unit.attackRange u0 = Unit.attackRange u ->
  defender_in_range g u l -> defender_in_range (with_unit self u0 g) u0 l.
Proof.
  intros Hself Hpos Hrange (m & mu & Hin & Hm & Hr).
  unfold defender_in_range, with_unit. cbn [Game.heap Game.with_heap].
  rewrite Hpos, Hrange. destruct (decide (self = m)) as [<- | Hne].
  - exists self, u0. rewrite lookup_insert_eq. split; [exact Hin |].
    split; [reflexivity |]. rewrite Hpos. rewrite Hself in Hm. injection Hm as <-. exact Hr.
  - exists m, mu. rewrite lookup_insert_ne by exact Hne. auto.
Qed.

(** C10.  For a hero in a lane whose defenders are objects, and a tick of
    [deltaTime]:
    - when a defender of the lane is within its [attackRange], its position
      after [update] is its position before, for the plain [Hero.update] and
      for the one of Oathblade; and when its attack cooldown is still positive
      after the tick has been counted off, the tick changes nothing but that
      cooldown: no attack, no move;
    - when no defender is within range, [Hero.update] changes nothing but the
      cooldown and the position of the hero, which [Unit.move] sets: no unit
      is attacked;
    - so a hero whose position changed had no defender within range. *)
Theorem hero_tick_attacks_or_moves (random : nat -> Q) (g : Game.t) (self : ref)
    (u : Unit.t) (l : Lane.t) (deltaTime : Q)
    (Hself : Game.heap g !! self = Some u)
    (Hhome : home_lane g u = Some l)
    (Hobj : all_objects g (Lane.minions l)) :
  (defender_in_range g u l ->
   position_of self (snd (Hero_update random self deltaTime g)) = Some (Unit.position u)
   /\ position_of self (snd (Oathblade_update random self deltaTime g))
      = Some (Unit.position u)
   /\ (0 < Unit.attackCooldown (cooled deltaTime u) ->
       Hero_update random self deltaTime g
       = (Normal tt, with_unit self (cooled deltaTime u) g)))
  /\ (~ defender_in_range g u l ->
      Hero_update random self deltaTime g
      = (Normal tt,
         with_unit self
           (Unit.with_position (moved_position g deltaTime (cooled deltaTime u))
              (cooled deltaTime u)) g))
  /\ (position_of self (snd (Hero_update random self deltaTime g))
      <> Some (Unit.position u) ->
      ~ defender_in_range g u l).
Proof.
  split; [| split].
  - intros Hin.
    destruct (Hero_update_in_range random g self u l deltaTime Hself Hhome Hobj Hin)
      as [Hpos Hwait].
    split; [exact Hpos |]. split; [| exact Hwait].
    unfold Oathblade_update.
    rewrite (bind_Normal _ _ _ _ _ (update_unit_run g self u _ Hself)).
    set (u0 := Unit.with_attackSpeed
                 (Unit.baseAttackSpeed u * (2 - Unit.health u / Unit.maxHealth u)) u).
    change (Game.with_heap (<[self := u0]> (Game.heap g)) g) with (with_unit self u0 g).
    apply (Hero_update_in_range random (with_unit self u0 g) self u0 l deltaTime).
    + cbn. apply lookup_insert_eq.
    + exact Hhome.
    + eapply all_objects_insert; [reflexivity | exact Hobj].
    + exact (defender_in_range_insert g self u u0 l Hself eq_refl eq_refl Hin).
  - apply Hero_update_out_of_range; assumption.
  - intros Hmoved Hin. apply Hmoved.
    apply (Hero_update_in_range random g self u l deltaTime Hself Hhome Hobj Hin).
Qed.

(** A witness of [hero_tick_attacks_or_moves]: in [skirmish], the Militiant
    of tile 6 (object 1) has the Gravelim of tile 5 within its range and
    stays on tile 6 through a tick of 16 ms. *)
Lemma hero_tick_attacks_or_moves_witness :
  exists (u : Unit.t) (l : Lane.t),
    Game.heap skirmish !! 1%nat = Some u
    /\ Unit.position u = 6
    /\ home_lane skirmish u = Some l
    /\ defender_in_range skirmish u l
    /\ position_of 1%nat (snd (Hero_update quarter 1%nat 16 skirmish)) = Some 6.
Proof.
  destruct (Game.heap skirmish !! 1%nat) as [u |] eqn:Hs; [| vm_compute in Hs; discriminate].
  destruct (Game.lanes skirmish !! 0%nat) as [l |] eqn:Hl; [| vm_compute in Hl; discriminate].
  assert (Hu : Unit.lane u = 0%Z /\ Unit.position u = 6 /\ Unit.attackRange u = 1).
  { vm_compute in Hs. injection Hs as <-. repeat split; reflexivity. }
  destruct Hu as (Hlane & Hpos & Hrange).
  assert (Hminions : Lane.minions l = [0%nat]).
  { vm_compute in Hl. injection Hl as <-. reflexivity. }
  assert (Hhome : home_lane skirmish u = Some l).
  { unfold home_lane. rewrite Hlane. exact Hl. }
  assert (Hobj : all_objects skirmish (Lane.minions l)).
  { rewrite Hminions. repeat constructor. vm_compute. eauto. }
  assert (Hin : defender_in_range skirmish u l).
  { destruct (Game.heap skirmish !! 0%nat) as [mu |] eqn:Hm;
      [| vm_compute in Hm; discriminate].
    exists 0%nat, mu. rewrite Hminions.
    split; [apply list_elem_of_here |]. split; [exact Hm |].
    rewrite Hpos, Hrange. vm_compute in Hm. injection Hm as <-.
    vm_compute. discriminate. }
  destruct (hero_tick_attacks_or_moves quarter skirmish 1%nat u l 16 Hs Hhome Hobj)
    as [Hstay _].
  destruct (Hstay Hin) as (Hsame & _).
  exists u, l. rewrite Hsame, Hpos. auto.
Defined.
(** * Further properties of the engine *)

(** Reading a field of a state written as updates of another. *)
Ltac game_fields :=
  cbn [Game.daen Game.lanes Game.selectedMinionType Game.gameOver Game.victory
       Game.waveNumber Game.waveTimer Game.waveInterval Game.heroesInWave
       Game.heroesRemaining Game.onslaughtTriggered Game.onslaughtComplete
       Game.bossWave Game.spawnTimer Game.spawnDelay Game.laneCount Game.tileCount
       Game.isPaused Game.isPreparingNextWave Game.preparationTimer Game.heap
       Game.nextRef Game.randomCalls Game.timeouts Game.floatingTexts
       Game.with_daen Game.with_lanes Game.with_selectedMinionType Game.with_gameOver
       Game.with_victory Game.with_waveNumber Game.with_waveTimer
       Game.with_heroesInWave Game.with_heroesRemaining Game.with_onslaughtTriggered
       Game.with_onslaughtComplete Game.with_bossWave Game.with_spawnTimer
       Game.with_spawnDelay Game.with_isPaused Game.with_isPreparingNextWave
       Game.with_preparationTimer Game.with_heap Game.with_nextRef
       Game.with_randomCalls Game.with_timeouts Game.with_floatingTexts] in *.

(** ** Placing and removing on a lane *)

Lemma indexOf_snoc_fresh (m : ref) (ms : list ref) :
  m ∉ ms -> indexOf m (ms ++ [m]) = Some (length ms).
Proof.
  induction ms as [| y ms IH]; intros Hfresh; cbn.
  - rewrite Nat.eqb_refl. reflexivity.
  - apply not_elem_of_cons in Hfresh as [Hne Hfresh].
    destruct (Nat.eqb_spec y m) as [-> | _]; [congruence |].
    rewrite (IH Hfresh). reflexivity.
Qed.

Lemma delete_snoc_last {A : Type} (l : list A) (x : A) : delete (length l) (l ++ [x]) = l.
Proof. induction l as [| y l IH]; [reflexivity | cbn; f_equal; exact IH]. Qed.

Lemma Qfloor_inject_Z (z : Z) : Qfloor (inject_Z z) = z.
Proof. unfold Qfloor, inject_Z. cbn. apply Z.div_1_r. Qed.

Lemma placeMinion_inv (l l' : Lane.t) (m : ref) (tileIndex : Z) :
  Lane.placeMinion m tileIndex l = (Normal true, l') ->
  exists tile : Tile.t,
    (0 <= tileIndex < Lane.tileCount l)%Z
    /\ at_index (Lane.tiles l) tileIndex = Some tile
    /\ Tile.minion tile = None
    /\ l' = Lane.with_minions (Lane.minions l ++ [m])
              (Lane.with_tiles
                 (<[Z.to_nat tileIndex :=
                      {| Tile.laneIndex := Tile.laneIndex tile;
                         Tile.position := Tile.position tile;
                         Tile.minion := Some m |}]> (Lane.tiles l)) l).
Proof.
  unfold Lane.placeMinion. intros H.
  destruct (Lane.canPlaceAt tileIndex l) as [[|] | e] eqn:Hcan; try discriminate.
  destruct (canPlaceAt_true l tileIndex Hcan) as [Hin Hocc].
  unfold occupant in Hocc.
  destruct (at_index (Lane.tiles l) tileIndex) as [tile |] eqn:Htile; [| discriminate].
  cbn in Hocc. injection Hocc as Hnone.
  exists tile. split; [exact Hin |]. split; [reflexivity |]. split; [exact Hnone |].
  unfold Tile.placeMinion, Tile.isEmpty in H. rewrite Hnone in H. cbn in H.
  injection H as <-. reflexivity.
Qed.

(** X1.  Removing a defender undoes its placement: when [placeMinion] put
    [m], which the lane did not list, on tile [tileIndex], then
    [removeMinion] of [m], standing at position [tileIndex], gives back the
    lane as it was before, tiles and defender list. *)
Theorem placeMinion_removeMinion_round_trip (l l' : Lane.t) (m : ref) (tileIndex : Z)
    (Hplace : Lane.placeMinion m tileIndex l = (Normal true, l'))
    (Hfresh : m ∉ Lane.minions l) :
  Lane.removeMinion m (inject_Z tileIndex) l' = (Normal tt, l).
Proof.
  destruct (placeMinion_inv l l' m tileIndex Hplace) as (tile & Hin & Htile & Hnone & ->).
  unfold Lane.removeMinion. cbn [Lane.minions Lane.with_minions Lane.with_tiles].
  rewrite (indexOf_snoc_fresh m _ Hfresh), delete_snoc_last, Qfloor_inject_Z.
  cbn [Lane.tileCount Lane.with_minions Lane.with_tiles Lane.tiles].
  replace ((tileIndex >=? 0)%Z && (tileIndex <? Lane.tileCount l)%Z)%bool with true
    by (symmetry; apply andb_true_iff; split; [apply Z.geb_le | apply Z.ltb_lt]; lia).
  rewrite (at_index_insert _ _ _ _ Htile). cbn [Tile.minion].
  rewrite bool_decide_eq_true_2 by reflexivity.
  f_equal. rewrite list_insert_insert_eq.
  destruct (at_index_lookup _ _ _ Htile) as [_ Hlook].
  replace (Tile.removeMinion _) with tile
    by (destruct tile; cbn in Hnone; subst; reflexivity).
  rewrite (list_insert_id _ _ _ Hlook). destruct l; reflexivity.
Qed.

(** A witness of [placeMinion_removeMinion_round_trip]: defender 7 on tile 3
    of a new lane. *)
Lemma placeMinion_removeMinion_round_trip_witness :
  exists l' : Lane.t,
    Lane.placeMinion 7%nat 3 (Lane.create 0 10) = (Normal true, l')
    /\ Lane.removeMinion 7%nat (inject_Z 3) l' = (Normal tt, Lane.create 0 10).
Proof.
  eexists. split; [reflexivity |].
  apply (placeMinion_removeMinion_round_trip (Lane.create 0 10) _ 7%nat 3 eq_refl).
  cbn. apply not_elem_of_nil.
Defined.

(** X2.  A placement that does not succeed leaves the lane as it was:
    whether [placeMinion] returns [false] or throws, no tile and no list of
    the lane has changed. *)
Theorem placeMinion_failure_unchanged (l : Lane.t) (m : ref) (tileIndex : Z)
    (Hfail : fst (Lane.placeMinion m tileIndex l) <> Normal true) :
  snd (Lane.placeMinion m tileIndex l) = l.
Proof.
  revert Hfail. unfold Lane.placeMinion.
  destruct (Lane.canPlaceAt tileIndex l) as [[|] | e] eqn:Hcan; try reflexivity.
  destruct (canPlaceAt_true l tileIndex Hcan) as [_ Hocc]. unfold occupant in Hocc.
  destruct (at_index (Lane.tiles l) tileIndex) as [tile |]; [| reflexivity].
  cbn in Hocc. injection Hocc as Hnone.
  unfold Tile.placeMinion, Tile.isEmpty. rewrite Hnone. cbn. congruence.
Qed.

(** A witness of [placeMinion_failure_unchanged]: a second placement on the
    tile defender 7 holds. *)
Lemma placeMinion_failure_unchanged_witness :
  let l := snd (Lane.placeMinion 7%nat 3 (Lane.create 0 10)) in
  fst (Lane.placeMinion 8%nat 3 l) = Normal false
  /\ snd (Lane.placeMinion 8%nat 3 l) = l.
Proof.
  split; [reflexivity |].
  apply (placeMinion_failure_unchanged _ 8%nat 3). cbn. discriminate.
Defined.
(** ** Moving, pulsing and attacking *)

Lemma Unit_move_run_any (g : Game.t) (self : ref) (u : Unit.t) (deltaTime direction : Q) :
  Game.heap g !! self = Some u ->
  Unit_move self deltaTime direction g
  = (Normal tt,
     with_unit self
       (Unit.with_position
          (Qmax 0 (Qmin (inject_Z (Game.tileCount g) - 1)
                     (Unit.position u
                      + (Unit.moveSpeed u * deltaTime) / 1000 * direction))) u) g).
Proof.
  intros Hself. unfold Unit_move.
  rewrite (bind_Normal _ _ _ _ _ (deref_Some g self u Hself)).
  rewrite (bind_Normal _ _ _ _ _ (update_unit_run g self u _ Hself)).
  rewrite bind_get.
  erewrite update_unit_run by (cbn; apply lookup_insert_eq).
  cbn [Game.heap Game.with_heap]. rewrite insert_insert_eq. reflexivity.
Qed.

Lemma step_sign (moveSpeed deltaTime direction : Q) :
  0 <= moveSpeed -> 0 <= deltaTime ->
  (direction <= 0 -> moveSpeed * deltaTime / 1000 * direction <= 0)
  /\ (0 <= direction -> 0 <= moveSpeed * deltaTime / 1000 * direction).
Proof.
  intros Hs Ht.
  assert (Hd : 0 <= moveSpeed * deltaTime / 1000).
  { apply Qle_shift_div_l; [reflexivity |]. rewrite Qmult_0_l.
    apply Qmult_le_0_compat; assumption. }
  split; intros Hdir.
  - assert (H : 0 <= moveSpeed * deltaTime / 1000 * - direction)
      by (apply Qmult_le_0_compat; [exact Hd | lra]).
    assert (E : moveSpeed * deltaTime / 1000 * - direction
                == - (moveSpeed * deltaTime / 1000 * direction)) by ring.
    rewrite E in H. lra.
  - apply Qmult_le_0_compat; assumption.
Qed.

(** X3.  [Unit.move] keeps a unit on the grid: on a grid of at least one
    tile the position after the move is within [0 .. tileCount - 1],
    whatever the position before, the speed, the time step and the
    direction; nothing but the position of the unit changes; and a unit on
    the grid that moves with a direction [<= 0] (a hero, towards the castle)
    does not go up, one with a direction [>= 0] does not go down. *)
Theorem Unit_move_stays_on_grid (g : Game.t) (self : ref) (u : Unit.t)
    (deltaTime direction : Q)
    (Hself : Game.heap g !! self = Some u)
    (Hgrid : (1 <= Game.tileCount g)%Z) :
  exists p : Q,
    Unit_move self deltaTime direction g
    = (Normal tt, with_unit self (Unit.with_position p u) g)
    /\ 0 <= p <= inject_Z (Game.tileCount g) - 1
    /\ (0 <= Unit.moveSpeed u -> 0 <= deltaTime -> direction <= 0 ->
        0 <= Unit.position u -> p <= Unit.position u)
    /\ (0 <= Unit.moveSpeed u -> 0 <= deltaTime -> 0 <= direction ->
        Unit.position u <= inject_Z (Game.tileCount g) - 1 -> Unit.position u <= p).
Proof.
  eexists. split; [apply (Unit_move_run_any g self u deltaTime direction Hself) |].
  set (top := inject_Z (Game.tileCount g) - 1).
  set (x := Unit.position u + Unit.moveSpeed u * deltaTime / 1000 * direction).
  assert (Htop : 0 <= top).
  { unfold top. rewrite Zle_Qle in Hgrid. change (inject_Z 1) with 1 in Hgrid. lra. }
  split; [split |]; [| | split].
  - apply Q.le_max_l.
  - apply Q.max_lub; [exact Htop | apply Q.le_min_l].
  - intros Hs Ht Hdir Hpos.
    destruct (step_sign _ _ direction Hs Ht) as [Hneg _]. specialize (Hneg Hdir).
    apply Q.max_lub; [exact Hpos |].
    apply Qle_trans with x; [apply Q.le_min_r | unfold x; lra].
  - intros Hs Ht Hdir Hpos.
    destruct (step_sign _ _ direction Hs Ht) as [_ Hnn]. specialize (Hnn Hdir).
    apply Qle_trans with (Qmin top x); [| apply Q.le_max_r].
    apply Q.min_glb; [exact Hpos | unfold x; lra].
Qed.

(** A witness of [Unit_move_stays_on_grid]: the Militiant of tile 4 of
    [skirmish] stepping for ten minutes stops at the castle. *)
Lemma Unit_move_stays_on_grid_witness :
  exists (u : Unit.t) (p : Q),
    Game.heap skirmish !! 2%nat = Some u
    /\ Unit_move 2%nat 600000 (-1) skirmish
       = (Normal tt, with_unit 2%nat (Unit.with_position p u) skirmish)
    /\ 0 <= p <= inject_Z (Game.tileCount skirmish) - 1.
Proof.
  destruct (Game.heap skirmish !! 2%nat) as [u |] eqn:Hu; [| vm_compute in Hu; discriminate].
  assert (Hgrid : (1 <= Game.tileCount skirmish)%Z) by (vm_compute; discriminate).
  destruct (Unit_move_stays_on_grid skirmish 2%nat u 600000 (-1) Hu Hgrid)
    as (p & Hrun & Hin & _).
  exists u, p. auto.
Defined.

(** X4.  A Daemon Altar pulses at most once a tick.  When the timer plus
    the time step reaches [daenPulseRate] the Daen goes up by
    [daenPulseAmount] and the timer restarts from [0], so that the time by
    which it overshot the rate is dropped; otherwise the Daen is unchanged
    and the timer has advanced by the step.  With a timer and a step that
    are not negative, the timer stays within [0 .. daenPulseRate). *)
Theorem DaemonAltar_update_pulse (g : Game.t) (self : ref) (u : Unit.t) (deltaTime : Q)
    (Hself : Game.heap g !! self = Some u) :
  exists (g' : Game.t) (u' : Unit.t),
    DaemonAltar_update self deltaTime g = (Normal tt, g')
    /\ Game.heap g' !! self = Some u'
    /\ ((daenPulseRate <= Unit.pulseTimer u + deltaTime
         /\ Game.daen g' = Game.daen g + daenPulseAmount
         /\ Unit.pulseTimer u' = 0)
        \/ (Unit.pulseTimer u + deltaTime < daenPulseRate
            /\ Game.daen g' = Game.daen g
            /\ Unit.pulseTimer u' = Unit.pulseTimer u + deltaTime))
    /\ (0 <= Unit.pulseTimer u -> 0 <= deltaTime ->
        0 <= Unit.pulseTimer u' < daenPulseRate).
Proof.
  unfold DaemonAltar_update.
  rewrite (bind_Normal _ _ _ _ _ (update_unit_run g self u _ Hself)).
  erewrite (bind_Normal (deref self)) by (apply deref_Some; cbn; apply lookup_insert_eq).
  cbn [Unit.pulseTimer Unit.with_pulseTimer].
  destruct (Qle_bool daenPulseRate (Unit.pulseTimer u + deltaTime)) eqn:E.
  - apply Qle_bool_iff in E.
    rewrite bind_modify. unfold updateDaenDisplay. rewrite bind_ret.
    erewrite update_unit_run by (cbn; apply lookup_insert_eq).
    eexists _, _. split; [reflexivity |]. cbn [Game.heap Game.with_heap Game.with_daen].
    split; [apply lookup_insert_eq |]. cbn [Unit.pulseTimer Unit.with_pulseTimer].
    split; [left; split; [exact E | split; reflexivity] |].
    intros _ _. unfold daenPulseRate. lra.
  - apply Qle_bool_false in E.
    eexists _, _. split; [reflexivity |]. cbn [Game.heap Game.with_heap].
    split; [apply lookup_insert_eq |]. cbn [Unit.pulseTimer Unit.with_pulseTimer].
    split; [right; split; [exact E | split; reflexivity] |].
    intros Ht Hd. lra.
Qed.

(** A witness of [DaemonAltar_update_pulse]: the altar of [altar_field],
    updated with a step of a minute, gives one Daen. *)
Lemma DaemonAltar_update_pulse_witness :
  exists (g' : Game.t) (u' : Unit.t),
    DaemonAltar_update 0%nat 60000 altar_field = (Normal tt, g')
    /\ Game.heap g' !! 0%nat = Some u'
    /\ Game.daen g' = Game.daen altar_field + daenPulseAmount
    /\ Unit.pulseTimer u' = 0.
Proof.
  destruct (Game.heap altar_field !! 0%nat) as [u |] eqn:Hu;
    [| vm_compute in Hu; discriminate].
  destruct (DaemonAltar_update_pulse altar_field 0%nat u 60000 Hu)
    as (g' & u' & Hrun & Hu' & [(_ & Hd & Ht) | (Hlt & _)] & _).
  - exists g', u'. auto.
  - exfalso. vm_compute in Hu. injection Hu as <-. vm_compute in Hlt. discriminate.
Defined.



(** ** The end of a wave *)

(** X6.  [areAllHeroesDead] answers whether no lane holds a hero, and pays
    the wave bonus at most once: it either leaves the state as it was, or
    (no hero in a lane, none left to spawn, a wave begun, no preparation
    under way) adds [10 + 2 * waveNumber] Daen and starts a preparation of
    15 seconds; and a second call right after the first gives the same
    answer and changes nothing. *)
Theorem areAllHeroesDead_pays_once (g : Game.t) :
  exists (b : bool) (g' : Game.t),
    areAllHeroesDead g = (Normal b, g')
    /\ (b = true <-> lanes_clear g)
    /\ areAllHeroesDead g' = (Normal b, g')
    /\ (g' = g
        \/ (b = true
            /\ Game.isPreparingNextWave g = false
            /\ Game.heroesRemaining g = 0%Z
            /\ (0 < Game.waveNumber g)%Z
            /\ Game.daen g' = Game.daen g + inject_Z (10 + Game.waveNumber g * 2)
            /\ Game.isPreparingNextWave g' = true
            /\ Game.preparationTimer g' = 15000)).
Proof.
  destruct (existsb (fun l => (0 <? length (Lane.heroes l))%nat) (Game.lanes g)) eqn:Hex.
  - exists false, g.
    assert (Hrun : areAllHeroesDead g = (Normal false, g))
      by (unfold areAllHeroesDead; rewrite bind_get, Hex; reflexivity).
    split; [exact Hrun |]. split.
    + split; [discriminate |]. intros Hclear. apply existsb_heroes_false in Hclear. congruence.
    + split; [exact Hrun | left; reflexivity].
  - pose proof (proj1 (existsb_heroes_false g) Hex) as Hclear.
    destruct (negb (Game.isPreparingNextWave g) && (Game.heroesRemaining g =? 0)%Z
              && (0 <? Game.waveNumber g)%Z)%bool eqn:Hcond.
    + pose proof Hcond as Hcond'.
      apply andb_true_iff in Hcond' as [Hcond' Hw].
      apply andb_true_iff in Hcond' as [Hp Hr].
      apply negb_true_iff in Hp. apply Z.eqb_eq in Hr. apply Z.ltb_lt in Hw.
      eexists true, _. split.
      { unfold areAllHeroesDead. rewrite bind_get, Hex, Hcond.
        unfold startNextWavePreparation. rewrite ?bind_bind, bind_get, Hp.
        unfold updateDaenDisplay, showFloatingText.
        rewrite ?bind_bind, ?bind_modify, ?bind_ret.
        rewrite ?bind_bind, ?bind_modify, ?bind_ret. reflexivity. }
      split; [tauto |].
      split; [| right; repeat split; assumption].
      unfold areAllHeroesDead. rewrite bind_get. game_fields. rewrite Hex. reflexivity.
    + assert (Hrun : areAllHeroesDead g = (Normal true, g))
        by (unfold areAllHeroesDead; rewrite bind_get, Hex, Hcond, bind_ret; reflexivity).
      exists true, g. split; [exact Hrun |]. split; [tauto |].
      split; [exact Hrun | left; reflexivity].
Qed.
(** ** Frames *)

Section Combinators.

Context (R : relation Game.t) `{!PreOrder R}.

Lemma advances_ret {A : Type} (a : A) : advances R (ret a).
Proof. intros g. reflexivity. Qed.

Lemma advances_throw {A : Type} (e : JsError) : advances R (throw e : M A).
Proof. intros g. reflexivity. Qed.

Lemma advances_get : advances R get.
Proof. intros g. reflexivity. Qed.

Lemma advances_bind {A B : Type} (c : M A) (k : A -> M B) :
  advances R c -> (forall a, advances R (k a)) -> advances R (bind c k).
Proof.
  intros Hc Hk g. unfold bind. specialize (Hc g).
  destruct (c g) as [[a | e] g1]; cbn in *; [| exact Hc].
  transitivity g1; [exact Hc | apply Hk].
Qed.

Lemma advances_modify (f : Game.t -> Game.t) :
  (forall g, R g (f g)) -> advances R (modify f).
Proof. intros H g. apply H. Qed.

Lemma advances_when (b : bool) (c : M unit) : advances R c -> advances R (when b c).
Proof. intros H. destruct b; [exact H | apply advances_ret]. Qed.

Lemma advances_forEach {A : Type} (l : list A) (body : A -> M unit) :
  (forall a, advances R (body a)) -> advances R (forEach l body).
Proof.
  intros H. induction l as [| x l IH]; cbn [forEach]; [apply advances_ret |].
  apply advances_bind; [apply H | intros _; exact IH].
Qed.

Lemma advances_mapM {A B : Type} (f : A -> M B) (l : list A) :
  (forall a, advances R (f a)) -> advances R (mapM f l).
Proof.
  intros H. induction l as [| x l IH]; cbn [mapM]; [apply advances_ret |].
  apply advances_bind; [apply H | intros y].
  apply advances_bind; [exact IH | intros ys; apply advances_ret].
Qed.

Lemma advances_deref (r : ref) : advances R (deref r).
Proof. intros g. unfold deref. destruct (Game.heap g !! r); reflexivity. Qed.

Lemma advances_read_lane (li : nat) : advances R (read_lane li).
Proof. intros g. unfold read_lane. destruct (Game.lanes g !! li); reflexivity. Qed.

Lemma advances_lanes_at (i : Z) : advances R (lanes_at i).
Proof. intros g. unfold lanes_at. destruct (at_index (Game.lanes g) i); reflexivity. Qed.

Lemma advances_update_unit (r : ref) (f : Unit.t -> Unit.t) :
  (forall g u, Game.heap g !! r = Some u ->
               R g (Game.with_heap (<[r := f u]> (Game.heap g)) g)) ->
  advances R (update_unit r f).
Proof.
  intros H g. unfold update_unit, bind, deref, modify.
  destruct (Game.heap g !! r) as [u |] eqn:E; [apply H; exact E | reflexivity].
Qed.

Lemma advances_on_lane {A : Type} (li : nat) (f : Lane.t -> completion A * Lane.t) :
  (forall g l, Game.lanes g !! li = Some l ->
               R g (Game.with_lanes (<[li := snd (f l)]> (Game.lanes g)) g)) ->
  advances R (on_lane li f).
Proof.
  intros H g. unfold on_lane, bind, read_lane.
  destruct (Game.lanes g !! li) as [l |] eqn:E; [| reflexivity].
  specialize (H g l E). destruct (f l) as [[a | e] l']; cbn in *; exact H.
Qed.

(** The lane object read and written back in one step. *)
Lemma advances_read_write_lane (li : nat) (f : Lane.t -> Lane.t) :
  (forall g l, Game.lanes g !! li = Some l ->
               R g (Game.with_lanes (<[li := f l]> (Game.lanes g)) g)) ->
  advances R (let* l := read_lane li in write_lane li (f l)).
Proof.
  intros H g. unfold bind, read_lane, write_lane, modify.
  destruct (Game.lanes g !! li) as [l |] eqn:E; [apply H; exact E | reflexivity].
Qed.

(** A computation that changes nothing. *)
Lemma advances_pure {A : Type} (c : M A) : (forall g, snd (c g) = g) -> advances R c.
Proof. intros H g. rewrite H. reflexivity. Qed.

End Combinators.

#[global] Instance same_preorder {X : Type} (view : Game.t -> X) : PreOrder (same view).
Proof.
  split; [intros g; reflexivity |].
  intros a b c Hab Hbc. unfold same in *. congruence.
Qed.

Lemma preserves_same {A X : Type} (view : Game.t -> X) (c : M A) :
  preserves view c <-> advances (same view) c.
Proof. reflexivity. Qed.

(** One step of a frame proof for a relation, by the shape of the
    computation. *)
Ltac advance_step :=
  lazymatch goal with
  | |- advances ?R (bind (read_lane ?li) (fun l => write_lane ?li _)) =>
      apply (advances_read_write_lane R); intros
  | |- advances ?R (bind _ _) => apply (advances_bind R); [| intros]
  | |- advances ?R (ret _) => apply (advances_ret R)
  | |- advances ?R (throw _) => apply (advances_throw R)
  | |- advances ?R get => apply (advances_get R)
  | |- advances ?R (deref _) => apply (advances_deref R)
  | |- advances ?R (read_lane _) => apply (advances_read_lane R)
  | |- advances ?R (lanes_at _) => apply (advances_lanes_at R)
  | |- advances ?R (when _ _) => apply (advances_when R)
  | |- advances ?R (forEach _ _) => apply (advances_forEach R); intros
  | |- advances ?R (mapM _ _) => apply (advances_mapM R); intros
  | |- advances ?R (update_unit _ _) => apply (advances_update_unit R); intros
  | |- advances ?R (on_lane _ _) => apply (advances_on_lane R); intros
  | |- advances ?R (modify _) => apply (advances_modify R); intros
  | |- advances ?R updateDaenDisplay => apply (advances_ret R)
  | |- advances ?R (if ?b then _ else _) => destruct b
  | |- advances ?R (match ?x with _ => _ end) => destruct x
  end.

(** *** What a death leaves of a lane *)

Lemma tile_kept_refl (tile : Tile.t) : tile_kept tile tile.
Proof. unfold tile_kept. auto. Qed.

Lemma tiles_kept_refl (tiles : list Tile.t) : Forall2 tile_kept tiles tiles.
Proof. apply Forall_Forall2_diag, Forall_forall. intros. apply tile_kept_refl. Qed.

Lemma lane_shrinks_refl (l : Lane.t) : lane_shrinks l l.
Proof. unfold lane_shrinks. auto using tiles_kept_refl. Qed.

Lemma removeMinion_shrinks (m : ref) (pos : Q) (l : Lane.t) :
  lane_shrinks l (snd (Lane.removeMinion m pos l)).
Proof.
  unfold Lane.removeMinion.
  set (l1 := match indexOf m (Lane.minions l) with
             | Some i => Lane.with_minions (delete i (Lane.minions l)) l
             | None => l
             end).
  assert (H1 : lane_shrinks l l1).
  { unfold l1. destruct (indexOf m (Lane.minions l)); [| apply lane_shrinks_refl].
    unfold lane_shrinks. cbn. repeat split; auto using tiles_kept_refl.
    apply sublist_delete. }
  assert (Ht : Lane.tiles l1 = Lane.tiles l)
    by (unfold l1; destruct (indexOf m (Lane.minions l)); reflexivity).
  destruct ((Qfloor pos >=? 0)%Z && (Qfloor pos <? Lane.tileCount l1)%Z)%bool;
    [| exact H1].
  destruct (at_index (Lane.tiles l1) (Qfloor pos)) as [tile |] eqn:Htile; [| exact H1].
  destruct (bool_decide (Tile.minion tile = Some m)); [| exact H1].
  destruct H1 as (Hi & Hc & _ & Hh & Hm).
  unfold lane_shrinks. cbn. repeat split; try assumption.
  rewrite <- Ht. destruct (at_index_lookup _ _ _ Htile) as [_ Hlook].
  rewrite <- (list_insert_id _ _ _ Hlook) at 1.
  apply Forall2_insert; [apply tiles_kept_refl |].
  unfold tile_kept. cbn. auto.
Qed.

Lemma removeHero_shrinks (i : nat) (l : Lane.t) :
  lane_shrinks l (Lane.with_heroes (delete i (Lane.heroes l)) l).
Proof.
  unfold lane_shrinks. cbn. repeat split; auto using tiles_kept_refl.
  apply sublist_delete.
Qed.

(** *** The tick of a lane *)

Section LaneFrame.

Context (R : relation Game.t) `{!PreOrder R}.

Hypothesis R_heap :
  forall (g : Game.t) (r : ref) (u u' : Unit.t),
    Game.heap g !! r = Some u ->
    Unit.cls u' = Unit.cls u -> Unit.lane u' = Unit.lane u ->
    R g (Game.with_heap (<[r := u']> (Game.heap g)) g).
Hypothesis R_daen :
  forall (g : Game.t) (d : Q), 0 <= d -> R g (Game.with_daen (Game.daen g + d) g).
Hypothesis R_texts :
  forall (g : Game.t) (t : list FloatingText), R g (Game.with_floatingTexts t g).
Hypothesis R_random : forall (g : Game.t) (n : nat), R g (Game.with_randomCalls n g).
Hypothesis R_lane :
  forall (g : Game.t) (li : nat) (l l' : Lane.t),
    Game.lanes g !! li = Some l -> lane_shrinks l l' ->
    R g (Game.with_lanes (<[li := l']> (Game.lanes g)) g).

Variable random : nat -> Q.

Ltac lane_leaf :=
  first
    [ eapply R_heap; [eassumption | reflexivity | reflexivity]
    | apply R_texts
    | apply R_random
    | apply R_daen; unfold daenPerKill, daenPulseAmount; lra
    | eapply R_lane; [eassumption | first [apply removeMinion_shrinks | apply removeHero_shrinks]] ].

Lemma Math_random_advances : advances R (Math_random random).
Proof. intros g. apply R_random. Qed.

Lemma Dreadchant_onEnemyDeath_advances (self hero : ref) :
  advances R (Dreadchant_onEnemyDeath self hero).
Proof.
  unfold Dreadchant_onEnemyDeath, showFloatingText.
  repeat advance_step; lane_leaf.
Qed.

Lemma Lane_removeHero_advances (li : nat) (hero : ref) :
  advances R (Lane_removeHero random li hero).
Proof.
  unfold Lane_removeHero, showFloatingText.
  repeat advance_step;
    first [apply Math_random_advances | apply Dreadchant_onEnemyDeath_advances | lane_leaf].
Qed.

Lemma Unit_die_advances (self : ref) : advances R (Unit_die random self).
Proof.
  unfold Unit_die, Minion_die, Hero_die.
  repeat advance_step; first [apply Lane_removeHero_advances | lane_leaf].
Qed.

Lemma Unit_takeDamage_advances (self : ref) (amount : Q) :
  advances R (Unit_takeDamage random self amount).
Proof.
  unfold Unit_takeDamage.
  repeat advance_step; first [apply Unit_die_advances | lane_leaf].
Qed.

Lemma Unit_attack_advances (self target : ref) :
  advances R (Unit_attack random self target).
Proof.
  unfold Unit_attack, Unit_canAttack.
  repeat advance_step; apply Unit_takeDamage_advances.
Qed.

Lemma Unit_move_advances (self : ref) (deltaTime direction : Q) :
  advances R (Unit_move self deltaTime direction).
Proof. unfold Unit_move. repeat advance_step; lane_leaf. Qed.

Lemma Minion_update_advances (self : ref) (deltaTime : Q) :
  advances R (Minion_update random self deltaTime).
Proof.
  unfold Minion_update, Minion_findTarget, positions_of.
  repeat advance_step; first [apply Unit_attack_advances | lane_leaf].
Qed.

Lemma Hero_update_advances (self : ref) (deltaTime : Q) :
  advances R (Hero_update random self deltaTime).
Proof.
  unfold Hero_update, Hero_findTarget, positions_of.
  repeat advance_step;
    first [apply Unit_attack_advances | apply Unit_move_advances | lane_leaf].
Qed.

Lemma Unit_update_advances (self : ref) (deltaTime : Q) :
  advances R (Unit_update random self deltaTime).
Proof.
  unfold Unit_update, Gnarlroot_update, DaemonAltar_update, Oathblade_update.
  repeat advance_step;
    first [apply Minion_update_advances | apply Hero_update_advances | lane_leaf].
Qed.

Lemma Tile_update_advances (li i : nat) (deltaTime : Q) :
  advances R (Tile_update random li i deltaTime).
Proof.
  unfold Tile_update.
  repeat advance_step; apply Unit_update_advances.
Qed.

Lemma Lane_update_advances (li : nat) (deltaTime : Q) :
  advances R (Lane_update random li deltaTime).
Proof.
  unfold Lane_update.
  repeat advance_step; first [apply Tile_update_advances | apply Unit_update_advances].
Qed.

End LaneFrame.
(** ** Invariants of play *)

#[global] Instance keeps_preorder (I : Game.t -> Prop) : PreOrder (keeps I).
Proof. split; [intros g H; exact H | intros a b c Hab Hbc H; exact (Hbc (Hab H))]. Qed.

Lemma heroAtCastle_pure (hs : list ref) (g : Game.t) : snd (heroAtCastle hs g) = g.
Proof.
  destruct (heroAtCastle_cases g hs) as [[e H] | [H | [H _]]]; rewrite H; reflexivity.
Qed.

Lemma play_app (random : nat -> Q) (events1 events2 : list PlayEvent) (g : Game.t) :
  play random (events1 ++ events2) g = play random events2 (play random events1 g).
Proof. revert g. induction events1 as [| e rest IH]; intros g; cbn; [reflexivity | apply IH]. Qed.

(** *** The shape of the grid *)

Lemma wf_game_lane (g : Game.t) (li : nat) (l l' : Lane.t) :
  wf_game g -> Game.lanes g !! li = Some l ->
  Lane.tileCount l' = Lane.tileCount l ->
  length (Lane.tiles l') = length (Lane.tiles l) ->
  wf_game (Game.with_lanes (<[li := l']> (Game.lanes g)) g).
Proof.
  intros [Hn Hall] Hl Hc Ht. split; cbn.
  - rewrite length_insert. exact Hn.
  - apply Forall_insert; [exact Hall |].
    destruct (proj1 (Forall_lookup _ _) Hall li l Hl) as [Hwf Htc].
    unfold wf_lane in *. split; congruence.
Qed.

Lemma lane_shrinks_shape (l l' : Lane.t) :
  lane_shrinks l l' ->
  Lane.tileCount l' = Lane.tileCount l /\ length (Lane.tiles l') = length (Lane.tiles l).
Proof.
  intros (_ & Hc & Ht & _). split; [exact Hc |]. symmetry. exact (Forall2_length _ _ _ Ht).
Qed.

Lemma placeMinion_shape (m : ref) (tileIndex : Z) (l : Lane.t) :
  Lane.tileCount (snd (Lane.placeMinion m tileIndex l)) = Lane.tileCount l
  /\ length (Lane.tiles (snd (Lane.placeMinion m tileIndex l))) = length (Lane.tiles l).
Proof.
  unfold Lane.placeMinion.
  destruct (Lane.canPlaceAt tileIndex l) as [[|] | e]; try (split; reflexivity).
  destruct (at_index (Lane.tiles l) tileIndex) as [tile |]; [| split; reflexivity].
  destruct (Tile.placeMinion m tile) as [[|] tile']; cbn; rewrite length_insert;
    split; reflexivity.
Qed.

Lemma Lane_update_wf_game (random : nat -> Q) (li : nat) (deltaTime : Q) :
  advances (keeps wf_game) (Lane_update random li deltaTime).
Proof.
  apply (Lane_update_advances (keeps wf_game)); try (unfold keeps; intros; assumption).
  intros g li' l l' Hl Hs H. destruct (lane_shrinks_shape l l' Hs).
  eapply wf_game_lane; eassumption.
Qed.

Ltac wf_leaf :=
  first
    [ apply Lane_update_wf_game
    | apply (advances_pure (keeps wf_game)); intros; apply heroAtCastle_pure
    | unfold advances, keeps; intros; assumption
    | unfold keeps; intros; eapply wf_game_lane;
      [eassumption | eassumption | reflexivity | reflexivity]
    | unfold keeps; intros; eapply wf_game_lane;
      [eassumption | eassumption | apply placeMinion_shape ..] ].

Lemma spawnNextHero_wf_game (random : nat -> Q) :
  advances (keeps wf_game) (spawnNextHero random).
Proof.
  unfold spawnNextHero, spawnHeroInLane, triggerOnslaught, getWaveScaling,
    showFloatingText, setTimeout_spawnNextHero. cbv zeta.
  repeat advance_step; wf_leaf.
Qed.

Lemma update_wf_game (random : nat -> Q) (deltaTime : Q) :
  advances (keeps wf_game) (update random deltaTime).
Proof.
  unfold update, spawnWave, startWave, calculateHeroCount, areAllHeroesDead,
    startNextWavePreparation, checkGameOver, areAllHeroesDead, startNextWavePreparation,
    showFloatingText.
  repeat advance_step; first [apply spawnNextHero_wf_game | wf_leaf].
Qed.

Lemma placeMinionAt_wf_game (laneIndex tileIndex : Z) :
  advances (keeps wf_game) (placeMinionAt laneIndex tileIndex).
Proof.
  unfold placeMinionAt, canPlaceMinion, playSound.
  repeat advance_step; wf_leaf.
Qed.

Lemma wf_game_tileCount (g : Game.t) :
  wf_game g -> (0 < Game.laneCount g)%Z -> (0 <= Game.tileCount g)%Z.
Proof.
  intros [Hn Hall] Hpos. destruct (Game.lanes g) as [| l ls]; [cbn in Hn; lia |].
  apply Forall_cons in Hall as [[Hwf Htc] _]. unfold wf_lane in Hwf. lia.
Qed.

Lemma restart_wf_game : advances (keeps wf_game) restart.
Proof.
  intros g Hwf. unfold restart, initializeLanes, updateDaenDisplay, bind, modify, ret. cbn.
  pose proof Hwf as [Hn Hall]. split; cbn.
  - rewrite length_map, length_seq. lia.
  - apply Forall_forall. intros l Hin.
    apply list_elem_of_fmap in Hin as (i & -> & Hi).
    apply elem_of_seq in Hi. cbn. split; [| reflexivity].
    apply wf_lane_create. apply wf_game_tileCount; [exact Hwf | lia].
Qed.

Lemma play_event_wf_game (random : nat -> Q) (e : PlayEvent) :
  advances (keeps wf_game) (play_event random e).
Proof.
  destruct e; cbn [play_event].
  - apply update_wf_game.
  - unfold runTimeout. repeat advance_step; first [apply spawnNextHero_wf_game | wf_leaf].
  - unfold selectMinion. repeat advance_step; wf_leaf.
  - repeat advance_step. apply placeMinionAt_wf_game.
  - apply restart_wf_game.
Qed.

(** X7.  The grid keeps its shape through play: when the game has
    [laneCount] lanes of [tileCount] tiles each, it still has after any
    frames, spawn callbacks, selections, placement requests and restarts,
    whether they complete or throw. *)
Theorem play_keeps_grid (random : nat -> Q) (events : list PlayEvent) (g : Game.t)
    (Hwf : wf_game g) :
  wf_game (play random events g).
Proof.
  revert g Hwf. induction events as [| e rest IH]; intros g Hwf; cbn [play]; [exact Hwf |].
  apply IH. exact (play_event_wf_game random e g Hwf).
Qed.

(** A witness of [play_keeps_grid]: a placement, a frame and a restart on
    the new game. *)
Lemma play_keeps_grid_witness :
  wf_game (play quarter [Select (Some "gravelim"%string); Place 0 5; Tick 16; Restart]
             Game_new).
Proof. apply play_keeps_grid. exact wf_game_new. Defined.
(** *** The Daen *)

#[global] Instance daen_grows_preorder : PreOrder daen_grows.
Proof.
  split.
  - intros g H. split; [exact H | apply Qle_refl].
  - intros a b c Hab Hbc H. destruct (Hab H) as [Hb Hd]. destruct (Hbc Hb) as [Hc Hd'].
    split; [exact Hc | eapply Qle_trans; eassumption].
Qed.

Lemma Lane_update_daen_grows (random : nat -> Q) (li : nat) (deltaTime : Q) :
  advances daen_grows (Lane_update random li deltaTime).
Proof.
  apply (Lane_update_advances daen_grows);
    unfold daen_grows; intros; game_fields; (split; [assumption | lra]).
Qed.

Lemma startNextWavePreparation_daen_grows (duration : Q) :
  advances daen_grows (startNextWavePreparation duration).
Proof.
  intros g Hw. unfold startNextWavePreparation. rewrite bind_get.
  destruct (Game.isPreparingNextWave g); [split; [exact Hw | apply Qle_refl] |].
  unfold updateDaenDisplay, showFloatingText, bind, modify, ret. cbn.
  split; [exact Hw |].
  assert (H : 0 <= inject_Z (10 + Game.waveNumber g * 2)).
  { change 0 with (inject_Z 0). rewrite <- Zle_Qle. lia. }
  lra.
Qed.

Lemma frame_income (deltaTime : Q) : 0 <= deltaTime -> 0 <= deltaTime / 2000 * 0.64.
Proof.
  intros H. apply Qmult_le_0_compat; [| discriminate].
  apply Qle_shift_div_l; [reflexivity | lra].
Qed.

Ltac daen_leaf :=
  first
    [ apply Lane_update_daen_grows
    | apply startNextWavePreparation_daen_grows
    | apply (advances_pure daen_grows); intros; apply heroAtCastle_pure
    | unfold advances, daen_grows, Math_random, new_object; intros; cbn [snd];
      game_fields;
      try match goal with
          | H : 0 <= ?d |- context [?d / 2000 * 0.64] => pose proof (frame_income d H)
          end;
      (split; [lia | lra]) ].

Lemma spawnNextHero_daen_grows (random : nat -> Q) :
  advances daen_grows (spawnNextHero random).
Proof.
  unfold spawnNextHero, spawnHeroInLane, triggerOnslaught, getWaveScaling,
    showFloatingText, setTimeout_spawnNextHero. cbv zeta.
  repeat advance_step; daen_leaf.
Qed.

Lemma update_daen_grows (random : nat -> Q) (deltaTime : Q) :
  0 <= deltaTime -> advances daen_grows (update random deltaTime).
Proof.
  intros Hdt.
  unfold update, spawnWave, startWave, calculateHeroCount, areAllHeroesDead,
    checkGameOver, areAllHeroesDead, showFloatingText.
  cbn [no_wave_options opt_isBossWave opt_heroCount opt_spawnDelay opt_waveType
       opt_waveNumber].
  repeat advance_step; first [apply spawnNextHero_daen_grows | daen_leaf].
Qed.

Lemma play_event_daen_grows (random : nat -> Q) (e : PlayEvent) :
  idle e -> advances daen_grows (play_event random e).
Proof.
  destruct e; cbn [play_event idle]; intros Hidle; try contradiction.
  - apply update_daen_grows. exact Hidle.
  - unfold runTimeout. repeat advance_step; first [apply spawnNextHero_daen_grows | daen_leaf].
  - unfold selectMinion. repeat advance_step; daen_leaf.
Qed.

Lemma play_daen_grows (random : nat -> Q) (events : list PlayEvent) :
  Forall idle events -> forall g : Game.t, daen_grows g (play random events g).
Proof.
  induction 1 as [| e rest He _ IH]; intros g; cbn [play]; [reflexivity |].
  transitivity (snd (play_event random e g)); [| apply IH].
  apply play_event_daen_grows. exact He.
Qed.

(** X8.  Daen is never lost: over frames (after times that are not
    negative), spawn callbacks and selections, in any number and order and
    whether they complete or throw, the Daen does not go down.  Combat,
    deaths, the altars, the end of a wave only ever add to it; the one thing
    that takes Daen is a placement. *)
Theorem daen_never_lost (random : nat -> Q) (events : list PlayEvent) (g : Game.t)
    (Hidle : Forall idle events)
    (Hwave : (0 <= Game.waveNumber g)%Z) :
  Game.daen g <= Game.daen (play random events g).
Proof. exact (proj2 (play_daen_grows random events Hidle g Hwave)). Qed.

(** A witness of [daen_never_lost]: the first wave beginning and a spawn
    callback. *)
Lemma daen_never_lost_witness :
  Game.daen Game_new <= Game.daen (play quarter [Tick 30000; Timeout; Tick 16] Game_new).
Proof.
  apply daen_never_lost.
  - repeat constructor; cbn; discriminate.
  - cbn. lia.
Defined.

(** *** After a restart *)

Ltac stalled_leaf :=
  first
    [ apply (advances_pure (keeps stalled)); intros; apply heroAtCastle_pure
    | unfold advances, keeps, stalled, Math_random, new_object; intros; cbn [snd];
      game_fields; assumption ].

Lemma Lane_update_stalled (random : nat -> Q) (li : nat) (deltaTime : Q) :
  advances (keeps stalled) (Lane_update random li deltaTime).
Proof.
  apply (Lane_update_advances (keeps stalled));
    unfold keeps, stalled; intros; game_fields; assumption.
Qed.

Lemma triggerOnslaught_stalled : advances (keeps stalled) (triggerOnslaught 2).
Proof.
  intros g (Hw & Hh & Hp).
  unfold triggerOnslaught, showFloatingText, bind, modify, get. cbn.
  unfold stalled. game_fields. split; [exact Hw |]. split; [| exact Hp].
  rewrite Qceiling_double. lia.
Qed.

Lemma spawnNextHero_stalled (random : nat -> Q) :
  advances (keeps stalled) (spawnNextHero random).
Proof.
  unfold spawnNextHero, spawnHeroInLane, getWaveScaling,
    showFloatingText, setTimeout_spawnNextHero. cbv zeta.
  repeat advance_step; first [apply triggerOnslaught_stalled | stalled_leaf].
Qed.

Lemma areAllHeroesDead_stalled : advances (keeps stalled) areAllHeroesDead.
Proof.
  intros g Hs. pose proof Hs as (Hw & _).
  unfold areAllHeroesDead. rewrite bind_get.
  destruct (existsb _ (Game.lanes g)); [exact Hs |].
  replace (0 <? Game.waveNumber g)%Z with false by (rewrite Hw; reflexivity).
  rewrite andb_false_r, bind_ret. exact Hs.
Qed.

Lemma checkGameOver_stalled : advances (keeps stalled) checkGameOver.
Proof.
  unfold checkGameOver.
  repeat advance_step; first [apply areAllHeroesDead_stalled | stalled_leaf].
Qed.

Lemma update_stalled (random : nat -> Q) (deltaTime : Q) :
  advances (keeps stalled) (update random deltaTime).
Proof.
  intros g Hs. pose proof Hs as (Hw & Hh & Hp).
  unfold update. rewrite bind_get.
  destruct (Game.gameOver g || Game.isPaused g)%bool; [exact Hs |].
  rewrite bind_modify. unfold updateDaenDisplay at 1. rewrite bind_ret.
  game_fields. rewrite Hp.
  rewrite bind_bind, bind_modify, bind_bind, bind_get. game_fields.
  replace (Game.heroesInWave g =? 0)%Z with false by (symmetry; apply Z.eqb_neq; exact Hh).
  rewrite andb_false_r, bind_ret.
  match goal with
  | |- stalled (snd (?c ?g1)) =>
      assert (Htail : advances (keeps stalled) c);
      [| apply (Htail g1); unfold stalled; game_fields; auto]
  end.
  repeat advance_step;
    first [apply Lane_update_stalled | apply areAllHeroesDead_stalled
          | apply checkGameOver_stalled | stalled_leaf].
Qed.

Lemma placeMinionAt_stalled (laneIndex tileIndex : Z) :
  advances (keeps stalled) (placeMinionAt laneIndex tileIndex).
Proof.
  unfold placeMinionAt, canPlaceMinion, playSound.
  repeat advance_step; stalled_leaf.
Qed.

Lemma restart_run (g : Game.t) :
  exists g' : Game.t,
    restart g = (Normal tt, g')
    /\ Game.daen g' = 10
    /\ Game.waveNumber g' = 0%Z
    /\ Game.waveTimer g' = 0
    /\ Game.gameOver g' = false
    /\ Game.selectedMinionType g' = None
    /\ lanes_clear g'
    /\ Game.heroesInWave g' = Game.heroesInWave g
    /\ Game.heroesRemaining g' = Game.heroesRemaining g
    /\ Game.isPreparingNextWave g' = Game.isPreparingNextWave g
    /\ Game.isPaused g' = Game.isPaused g
    /\ Game.timeouts g' = Game.timeouts g.
Proof.
  eexists. split.
  { unfold restart, initializeLanes, updateDaenDisplay, bind, modify, ret. reflexivity. }
  game_fields. repeat split.
  unfold lanes_clear. cbn. apply Forall_forall. intros l Hin.
  apply list_elem_of_fmap in Hin as (i & -> & _). reflexivity.
Qed.

Lemma play_event_stalled (random : nat -> Q) (e : PlayEvent) :
  advances (keeps stalled) (play_event random e).
Proof.
  destruct e; cbn [play_event].
  - apply update_stalled.
  - unfold runTimeout. repeat advance_step; first [apply spawnNextHero_stalled | stalled_leaf].
  - unfold selectMinion. repeat advance_step; stalled_leaf.
  - repeat advance_step. apply placeMinionAt_stalled.
  - intros g (Hw & Hh & Hp).
    destruct (restart_run g) as (g' & -> & _ & Hw' & _ & _ & _ & _ & Hh' & _ & Hp' & _).
    unfold stalled. cbn [snd]. rewrite Hw', Hh', Hp'. auto.
Qed.

Lemma play_stalled (random : nat -> Q) (events : list PlayEvent) :
  forall g : Game.t, stalled g -> stalled (play random events g).
Proof.
  induction events as [| e rest IH]; intros g Hs; cbn [play]; [exact Hs |].
  apply IH. exact (play_event_stalled random e g Hs).
Qed.

(** X9.  A restart during a wave stalls the waves.  [restart] puts the
    Daen, the lanes, the selection, the game-over flag, the wave number and
    the wave timer back, and leaves [heroesInWave], [heroesRemaining], the
    preparation flag, the pause flag and the pending callbacks as they were.
    So when some wave has been started ([heroesInWave] is not [0]) and no
    preparation is under way, then after the restart no frame, callback,
    selection, placement or further restart ever starts a wave: the wave
    number stays [0]. *)
Theorem restart_stalls_the_waves (random : nat -> Q) (g : Game.t)
    (events : list PlayEvent)
    (Hwave : Game.heroesInWave g <> 0%Z)
    (Hprep : Game.isPreparingNextWave g = false) :
  fst (restart g) = Normal tt
  /\ Game.daen (snd (restart g)) = 10
  /\ lanes_clear (snd (restart g))
  /\ Game.heroesInWave (snd (restart g)) = Game.heroesInWave g
  /\ Game.heroesRemaining (snd (restart g)) = Game.heroesRemaining g
  /\ Game.timeouts (snd (restart g)) = Game.timeouts g
  /\ Game.waveNumber (play random events (snd (restart g))) = 0%Z.
Proof.
  destruct (restart_run g)
    as (g' & Hrun & Hd & Hw & _ & _ & _ & Hclear & Hh & Hr & Hp & _ & Ht).
  rewrite Hrun. cbn [fst snd]. repeat split; try assumption.
  apply (play_stalled random events g'). unfold stalled. rewrite Hw, Hh, Hp. auto.
Qed.

(** A witness of [restart_stalls_the_waves]: the new game starts its first
    wave with the frame that brings the wave timer to 30 seconds; restarted
    in that wave, three more such frames leave the wave number at [0]. *)
Lemma restart_stalls_the_waves_witness :
  Game.waveNumber in_wave1 = 1%Z
  /\ Game.heroesInWave in_wave1 = 15%Z
  /\ Game.waveNumber
       (play quarter [Tick 30000; Tick 30000; Tick 30000] (snd (restart in_wave1))) = 0%Z.
Proof.
  split; [vm_compute; reflexivity |]. split; [vm_compute; reflexivity |].
  apply (restart_stalls_the_waves quarter in_wave1); vm_compute; congruence.
Defined.
(** ** What a tick leaves alone *)






Lemma Minion_update_position (random : nat -> Q) (r self : ref) (deltaTime : Q) :
  preserves (position_of r) (Minion_update random self deltaTime).
Proof.
  unfold Minion_update, Minion_findTarget, positions_of.
  repeat frame_step;
    try apply Unit_attack_position;
    try (apply position_of_insert; [intros x; reflexivity | assumption]).
Qed.

Lemma DaemonAltar_update_position (r self : ref) (deltaTime : Q) :
  preserves (position_of r) (DaemonAltar_update self deltaTime).
Proof.
  unfold DaemonAltar_update.
  repeat frame_step;
    try (intros g'; reflexivity); try reflexivity;
    try (apply position_of_insert; [intros x; reflexivity | assumption]).
Qed.

(** X11.  Defenders do not move, and move no one: the update of a unit
    of a defender class (attack, kill, Daen pulse or nothing) leaves the
    position of every unit of the game as it was.  The only assignment to
    [position] is the one of [Unit.move], which only [Hero.update] calls. *)
Theorem defender_update_moves_nothing (random : nat -> Q) (g : Game.t) (self r : ref)
    (u : Unit.t) (c : MinionClass) (deltaTime : Q)
    (Hself : Game.heap g !! self = Some u)
    (Hcls : Unit.cls u = MinionOf c) :
  position_of r (snd (Unit_update random self deltaTime g)) = position_of r g.
Proof.
  unfold Unit_update. rewrite (bind_Normal _ _ _ _ _ (deref_Some g self u Hself)).
  rewrite Hcls. destruct c.
  - apply Minion_update_position.
  - apply Minion_update_position.
  - reflexivity.
  - apply DaemonAltar_update_position.
  - apply Minion_update_position.
Qed.

(** A witness of [defender_update_moves_nothing]: the Gravelim of
    [skirmish] strikes the Militiant of tile 6, which stays on tile 6. *)
Lemma defender_update_moves_nothing_witness :
  position_of 1%nat (snd (Unit_update quarter 0%nat 16 skirmish)) = Some 6
  /\ (Unit.health <$> Game.heap (snd (Unit_update quarter 0%nat 16 skirmish)) !! 1%nat)
     = Some 102.
Proof.
  split; [| vm_compute; reflexivity].
  destruct (Game.heap skirmish !! 0%nat) as [u |] eqn:Hu; [| vm_compute in Hu; discriminate].
  rewrite (defender_update_moves_nothing quarter skirmish 0%nat 1%nat u Gravelim 16 Hu).
  - vm_compute. reflexivity.
  - vm_compute in Hu. injection Hu as <-. reflexivity.
Defined.
(** ** Spawning *)

(** The choice of the class of a new hero: a forced type, or one draw from
    [Math.random]. *)
Lemma heroType_choice_run (random : nat -> Q) (options : SpawnOptions) (g0 g : Game.t) :
  exists (c : HeroClass) (g1 : Game.t),
    match opt_heroType options with
    | Some (String a s) => ret (heroClass_of_type (String a s))
    | _ =>
        let* heroTypeRoll := Math_random random in
        if ((Game.waveNumber g0 >=? 10)%Z && Qlt_bool 0.7 heroTypeRoll)%bool
        then ret Oathblade
        else if ((Game.waveNumber g0 >=? 5)%Z && Qlt_bool 0.5 heroTypeRoll)%bool
        then ret AshboltScout
        else ret Militiant
    end g = (Normal c, g1)
    /\ (g1 = g \/ g1 = Game.with_randomCalls (S (Game.randomCalls g)) g).
Proof.
  assert (Hroll :
    exists (c : HeroClass),
      (let* heroTypeRoll := Math_random random in
       if ((Game.waveNumber g0 >=? 10)%Z && Qlt_bool 0.7 heroTypeRoll)%bool
       then ret Oathblade
       else if ((Game.waveNumber g0 >=? 5)%Z && Qlt_bool 0.5 heroTypeRoll)%bool
       then ret AshboltScout
       else ret Militiant) g
      = (Normal c, Game.with_randomCalls (S (Game.randomCalls g)) g)).
  { rewrite (bind_Normal (Math_random random) _ _ _ _ eq_refl).
    destruct ((Game.waveNumber g0 >=? 10)%Z && Qlt_bool 0.7 (random (Game.randomCalls g)))%bool;
      [eexists; reflexivity |].
    destruct ((Game.waveNumber g0 >=? 5)%Z && Qlt_bool 0.5 (random (Game.randomCalls g)))%bool;
      eexists; reflexivity. }
  destruct Hroll as [c Hroll].
  destruct (opt_heroType options) as [[| a s] |].
  - exists c, (Game.with_randomCalls (S (Game.randomCalls g)) g). auto.
  - exists (heroClass_of_type (String a s)), g. auto.
  - exists c, (Game.with_randomCalls (S (Game.randomCalls g)) g). auto.
Qed.

Ltac run_spawn_tail Hl random :=
  rewrite ?bind_ret;
  rewrite (bind_Normal _ _ _ _ _ (new_object_run _ _));
  repeat (rewrite ?bind_bind, ?bind_ret; run_update);
  rewrite ?bind_bind, ?bind_ret;
  rewrite (bind_Normal (Math_random random) _ _ _ _ eq_refl);
  run_update;
  erewrite (bind_Normal (on_lane _ _) _ _ _ tt)
    by (eapply on_lane_run; [game_fields; exact Hl | reflexivity]);
  unfold showFloatingText; rewrite bind_modify; reflexivity.

Lemma spawnHeroInLane_valid (random : nat -> Q) (g : Game.t) (laneIndex : Z)
    (options : SpawnOptions) (l : Lane.t) :
  (0 <= laneIndex)%Z -> Game.lanes g !! Z.to_nat laneIndex = Some l ->
  exists (c : HeroClass) (u : Unit.t) (g' : Game.t),
    spawnHeroInLane random laneIndex options g = (Normal (Some (Game.nextRef g)), g')
    /\ Game.heap g' = <[Game.nextRef g := u]> (Game.heap g)
    /\ Game.lanes g' = <[Z.to_nat laneIndex := Lane.addHero (Game.nextRef g) l]> (Game.lanes g)
    /\ Game.nextRef g' = S (Game.nextRef g)
    /\ spawned_as c laneIndex
         (match opt_startTile options with
          | Some t => t
          | None => inject_Z (Game.tileCount g) - 1
          end) u
    /\ Game.daen g' = Game.daen g
    /\ Game.timeouts g' = Game.timeouts g
    /\ Game.laneCount g' = Game.laneCount g
    /\ Game.tileCount g' = Game.tileCount g
    /\ (Game.randomCalls g < Game.randomCalls g' <= Game.randomCalls g + 2)%nat.
Proof.
  intros Hpos Hl.
  assert (Hin : (laneIndex < Z.of_nat (length (Game.lanes g)))%Z).
  { apply lookup_lt_Some in Hl. lia. }
  unfold spawnHeroInLane. rewrite bind_get.
  destruct (Z.ltb_spec laneIndex 0) as [? | _]; [lia |].
  destruct (Z.geb_spec laneIndex (Z.of_nat (length (Game.lanes g)))) as [? | _]; [lia |].
  cbn [orb].
  unfold getWaveScaling. rewrite bind_bind, bind_get, bind_ret. cbv zeta.
  destruct (heroType_choice_run random options g g) as (c & g1 & Hchoice & Hg1).
  rewrite (bind_Normal _ _ _ _ _ Hchoice).
  assert (Hl1 : Game.lanes g1 !! Z.to_nat laneIndex = Some l)
    by (destruct Hg1 as [-> | ->]; exact Hl).
  assert (Hsame : Game.heap g1 = Game.heap g /\ Game.lanes g1 = Game.lanes g
                  /\ Game.nextRef g1 = Game.nextRef g /\ Game.daen g1 = Game.daen g
                  /\ Game.timeouts g1 = Game.timeouts g
                  /\ Game.laneCount g1 = Game.laneCount g
                  /\ Game.tileCount g1 = Game.tileCount g
                  /\ (Game.randomCalls g <= Game.randomCalls g1 <= Game.randomCalls g + 1)%nat).
  { destruct Hg1 as [-> | ->]; game_fields; repeat split; lia. }
  destruct Hsame as (Hheap & Hlanes & Hnext & Hdaen & Htime & Hlc & Htc & Hrc).
  clear Hchoice Hg1. rewrite <- Hheap, <- Hlanes, <- Hnext, <- Hdaen, <- Htime, <- Hlc, <- Htc.
  exists c.
  destruct (Z.rem (Game.waveNumber g) 5 =? 0)%Z.
  - eexists _, _. split; [run_spawn_tail Hl1 random |].
    game_fields. rewrite !insert_insert_eq.
    repeat (split; [reflexivity |]).
    split; [unfold spawned_as; destruct c; cbn; repeat split; eauto |].
    repeat (split; [reflexivity |]). lia.
  - eexists _, _. split; [run_spawn_tail Hl1 random |].
    game_fields. rewrite !insert_insert_eq.
    repeat (split; [reflexivity |]).
    split; [unfold spawned_as; destruct c; cbn; repeat split; eauto |].
    repeat (split; [reflexivity |]). lia.
Qed.

(** X12.  [spawnHeroInLane] never throws.  For a lane index that names no
    lane it returns [null] and changes nothing (no draw from [Math.random]
    either).  For a lane of the game it creates one object, returns it, and
    appends it to the heroes of that lane and of no other; the new unit is a
    hero of that lane at the start tile, heading for the castle, with the
    range and attack speed of its class, a health equal to its maximum
    health, and health and damage that are integers; Daen, grid and pending
    callbacks are unchanged and [Math.random] was drawn once or twice. *)
Theorem spawnHeroInLane_outcome (random : nat -> Q) (g : Game.t) (laneIndex : Z)
    (options : SpawnOptions) :
  exists (r : option ref) (g' : Game.t),
    spawnHeroInLane random laneIndex options g = (Normal r, g')
    /\ match at_index (Game.lanes g) laneIndex with
       | None => r = None /\ g' = g
       | Some l =>
           exists (c : HeroClass) (u : Unit.t),
             r = Some (Game.nextRef g)
             /\ Game.heap g' = <[Game.nextRef g := u]> (Game.heap g)
             /\ Game.lanes g'
                = <[Z.to_nat laneIndex := Lane.addHero (Game.nextRef g) l]> (Game.lanes g)
             /\ Game.nextRef g' = S (Game.nextRef g)
             /\ spawned_as c laneIndex
                  (match opt_startTile options with
                   | Some t => t
                   | None => inject_Z (Game.tileCount g) - 1
                   end) u
             /\ Game.daen g' = Game.daen g
             /\ Game.timeouts g' = Game.timeouts g
             /\ Game.laneCount g' = Game.laneCount g
             /\ Game.tileCount g' = Game.tileCount g
             /\ (Game.randomCalls g < Game.randomCalls g' <= Game.randomCalls g + 2)%nat
       end.
Proof.
  destruct (at_index (Game.lanes g) laneIndex) as [l |] eqn:Hl.
  - apply at_index_lookup in Hl as [Hpos Hl].
    destruct (spawnHeroInLane_valid random g laneIndex options l Hpos Hl)
      as (c & u & g' & Hrun & H).
    exists (Some (Game.nextRef g)), g'. split; [exact Hrun |]. exists c, u. auto.
  - exists None, g. split; [| auto].
    unfold spawnHeroInLane. rewrite bind_get.
    unfold at_index in Hl.
    destruct (Z.ltb_spec laneIndex 0) as [Hneg | Hpos]; [reflexivity |].
    apply lookup_ge_None in Hl.
    destruct (Z.geb_spec laneIndex (Z.of_nat (length (Game.lanes g)))) as [_ | Hlt];
      [reflexivity | lia].
Qed.

Lemma spawnHeroInLane_total (random : nat -> Q) (g : Game.t) (laneIndex : Z)
    (options : SpawnOptions) :
  exists (r : option ref) (g' : Game.t),
    spawnHeroInLane random laneIndex options g = (Normal r, g')
    /\ wave_view g' = wave_view g
    /\ Game.timeouts g' = Game.timeouts g.
Proof.
  pose proof (spawnHeroInLane_wave_view random laneIndex options g) as Hview.
  destruct (at_index (Game.lanes g) laneIndex) as [l |] eqn:Hl.
  - apply at_index_lookup in Hl as [Hpos Hl].
    destruct (spawnHeroInLane_valid random g laneIndex options l Hpos Hl)
      as (c & u & g' & Hrun & _ & _ & _ & _ & _ & Ht & _).
    rewrite Hrun in Hview. eauto.
  - exists None, g. split; [| auto].
    unfold spawnHeroInLane. rewrite bind_get.
    unfold at_index in Hl.
    destruct (Z.ltb_spec laneIndex 0) as [Hneg | Hpos]; [reflexivity |].
    apply lookup_ge_None in Hl.
    destruct (Z.geb_spec laneIndex (Z.of_nat (length (Game.lanes g)))) as [_ | Hlt];
      [reflexivity | lia].
Qed.
(** ** The spawn chain of a wave *)

Lemma onslaught_threshold_pos (h : Z) :
  (0 < h)%Z -> (0 < Qceiling (inject_Z h * 0.2))%Z.
Proof.
  intros Hh. rewrite Zlt_Qlt.
  apply Qlt_le_trans with (inject_Z h * 0.2); [| apply Qle_ceiling].
  rewrite Zlt_Qlt in Hh. change (inject_Z 0) with 0 in *. lra.
Qed.

Lemma onslaught_threshold_below (h : Z) :
  (2 <= h)%Z -> (Qceiling (inject_Z h * 0.2) < h)%Z.
Proof.
  intros Hh.
  assert (H : (Qceiling (inject_Z h * 0.2) <= Qceiling (inject_Z (h - 1)))%Z).
  { apply Qceiling_resp_le. rewrite Zle_Qle in Hh.
    unfold Z.sub. rewrite inject_Z_plus, inject_Z_opp.
    change (inject_Z 2) with 2 in Hh. change (inject_Z 1) with 1. lra. }
  rewrite Qceiling_Z in H. lia.
Qed.

Lemma triggerOnslaught_eq (g : Game.t) :
  exists g' : Game.t,
    triggerOnslaught 2 g = (Normal tt, g')
    /\ Game.onslaughtTriggered g' = true
    /\ Game.onslaughtComplete g' = false
    /\ Game.heroesInWave g' = (3 * Game.heroesInWave g)%Z
    /\ Game.heroesRemaining g' = (Game.heroesRemaining g + 2 * Game.heroesInWave g)%Z
    /\ onslaughts g' = S (onslaughts g)
    /\ Game.timeouts g' = Game.timeouts g.
Proof.
  eexists. split.
  { unfold triggerOnslaught, showFloatingText, bind, modify, get. cbn. reflexivity. }
  unfold onslaughts. game_fields. rewrite Qceiling_double, count_onslaughts_app. cbn.
  repeat split; lia.
Qed.

(** One call of [spawnNextHero] while a wave is spawning. *)
Lemma spawnNextHero_chain (random : nat -> Q) (g : Game.t) :
  chain_open g ->
  exists g' : Game.t,
    spawnNextHero random g = (Normal tt, g')
    /\ ((1 < spawns_left g)%Z ->
        chain_open g'
        /\ spawns_left g' = (spawns_left g - 1)%Z
        /\ wave_total g' = wave_total g
        /\ onslaughts_due g' = onslaughts_due g
        /\ exists delay : Q, Game.timeouts g' = Game.timeouts g ++ [delay])
    /\ ((spawns_left g <= 1)%Z ->
        Game.heroesRemaining g' = 0%Z
        /\ Game.onslaughtTriggered g' = false
        /\ Game.onslaughtComplete g' = true
        /\ Game.heroesInWave g' = wave_total g
        /\ onslaughts g' = onslaughts_due g
        /\ Game.timeouts g' = Game.timeouts g).
Proof.
  intros [Hr Hopen]. unfold spawnNextHero. rewrite bind_get.
  destruct (Z.leb_spec (Game.heroesRemaining g) 0) as [? | _]; [lia |].
  rewrite (bind_Normal (Math_random random) _ _ _ _ eq_refl).
  set (g0 := Game.with_randomCalls (S (Game.randomCalls g)) g).
  destruct (spawnHeroInLane_total random g0
              (Qfloor (random (Game.randomCalls g) * inject_Z (Game.laneCount g)))
              no_spawn_options) as (hero & g1 & Hspawn & Hview & Htime).
  rewrite (bind_Normal _ _ _ _ _ Hspawn).
  apply wave_view_eq in Hview as (Ht & Hc & Hw & Hr1 & _ & _ & Hn).
  change (Game.onslaughtTriggered g0) with (Game.onslaughtTriggered g) in Ht.
  change (Game.onslaughtComplete g0) with (Game.onslaughtComplete g) in Hc.
  change (Game.heroesInWave g0) with (Game.heroesInWave g) in Hw.
  change (Game.heroesRemaining g0) with (Game.heroesRemaining g) in Hr1.
  change (onslaughts g0) with (onslaughts g) in Hn.
  change (Game.timeouts g0) with (Game.timeouts g) in Htime.
  clearbody g0. clear Hspawn.
  rewrite bind_modify, bind_get. game_fields. rewrite ?Ht, ?Hw, ?Hr1.
  unfold spawns_left, wave_total, onslaughts_due, chain_open.
  destruct (Game.onslaughtTriggered g) eqn:Etrig.
  - (* the onslaught has fired *)
    rewrite andb_false_r, bind_ret, bind_get. game_fields. rewrite ?Ht, ?Hr1.
    destruct (Z.ltb_spec 0 (Game.heroesRemaining g - 1)) as [Hpos | Hnpos].
    + rewrite (bind_Normal (Math_random random) _ _ _ _ eq_refl).
      eexists. split; [reflexivity |]. game_fields. rewrite ?Ht, ?Hw, ?Hr1, ?Htime.
      unfold onslaughts in *. game_fields. rewrite ?Hn.
      split; [| intros; lia].
      intros _. repeat split; try lia; try discriminate. eauto.
    + eexists. split; [reflexivity |]. game_fields. rewrite ?Hw, ?Hr1, ?Htime.
      unfold onslaughts in *. game_fields. rewrite ?Hn.
      split; [intros; lia |]. intros _. repeat split; lia.
  - (* the onslaught has not fired *)
    destruct (Hopen eq_refl) as [Hh Hthr].
    pose proof (onslaught_threshold_pos _ Hh) as Htpos.
    cbn [negb]. rewrite andb_true_r.
    destruct (Z.eqb_spec (Game.heroesRemaining g - 1)
                (Qceiling (inject_Z (Game.heroesInWave g) * 0.2))) as [Efire | Enot].
    + destruct (triggerOnslaught_eq
                  (Game.with_heroesRemaining (Game.heroesRemaining g1 - 1)%Z g1))
        as (g2 & Hrun & Ht2 & Hc2 & Hw2 & Hr2 & Hn2 & Htime2).
      rewrite Hr1 in Hrun. rewrite (bind_Normal _ _ _ _ _ Hrun), bind_get.
      game_fields. rewrite ?Hw, ?Hr1 in *. unfold onslaughts in *. game_fields.
      rewrite Hn in Hn2.
      destruct (Z.ltb_spec 0 (Game.heroesRemaining g2)) as [_ | ?]; [| lia].
      rewrite (bind_Normal (Math_random random) _ _ _ _ eq_refl).
      eexists. split; [reflexivity |]. game_fields. rewrite ?Ht2, ?Hw2, ?Hr2, ?Htime2, ?Htime, ?Hn2.
      split; [| intros; lia].
      intros _. repeat split; try lia; try discriminate. eauto.
    + rewrite bind_ret, bind_get. game_fields. rewrite ?Ht, ?Hr1.
      destruct (Z.ltb_spec 0 (Game.heroesRemaining g - 1)) as [_ | ?]; [| lia].
      rewrite (bind_Normal (Math_random random) _ _ _ _ eq_refl).
      eexists. split; [reflexivity |]. game_fields. rewrite ?Ht, ?Hw, ?Hr1, ?Htime.
      unfold onslaughts in *. game_fields. rewrite ?Hn.
      split; [| intros; lia].
      intros _. repeat split; try lia. eauto.
Qed.

Lemma runTimeout_chain (random : nat -> Q) (n : nat) (total : Z) (due : nat) (g : Game.t) :
  spawning (S n) total due g ->
  exists g' : Game.t,
    runTimeout random g = (Normal tt, g')
    /\ match n with
       | S _ => spawning n total due g'
       | O =>
           Game.heroesRemaining g' = 0%Z
           /\ Game.onslaughtTriggered g' = false
           /\ Game.onslaughtComplete g' = true
           /\ Game.heroesInWave g' = total
           /\ onslaughts g' = due
           /\ Game.timeouts g' = []
       end.
Proof.
  intros (Hopen & Hleft & Htotal & Hdue & delay & Htime).
  unfold runTimeout. rewrite bind_get, Htime, bind_modify.
  destruct (spawnNextHero_chain random (Game.with_timeouts [] g) Hopen)
    as (g' & Hrun & Hmore & Hlast).
  change (spawns_left (Game.with_timeouts [] g)) with (spawns_left g) in *.
  change (wave_total (Game.with_timeouts [] g)) with (wave_total g) in *.
  change (onslaughts_due (Game.with_timeouts [] g)) with (onslaughts_due g) in *.
  exists g'. split; [exact Hrun |].
  destruct n as [| n].
  - destruct Hlast as (Hr & Ht & Hc & Hw & Hn & Htime'); [lia |].
    rewrite Htotal in Hw. rewrite Hdue in Hn. cbn in Htime'. repeat split; assumption.
  - destruct Hmore as (Hopen' & Hleft' & Htotal' & Hdue' & delay' & Htime'); [lia |].
    unfold spawning. cbn in Htime'.
    split; [exact Hopen' |]. split; [lia |]. split; [congruence |]. split; [congruence |].
    eauto.
Qed.

Lemma play_timeouts_chain (random : nat -> Q) (total : Z) (due : nat) (k n : nat) :
  forall g : Game.t,
    spawning (k + S n) total due g ->
    spawning (S n) total due (play random (repeat Timeout k) g).
Proof.
  induction k as [| k IH]; intros g Hs; [exact Hs |].
  cbn [repeat play play_event].
  destruct (runTimeout_chain random (k + S n) total due g Hs) as (g' & Hrun & Hnext).
  rewrite Hrun. cbn [snd]. apply IH.
  replace (k + S n)%nat with (S (k + n)) in Hnext by lia.
  replace (k + S n)%nat with (S (k + n)) by lia. exact Hnext.
Qed.

Lemma startWave_timeouts (options : WaveOptions) :
  preserves (fun g => (Game.timeouts g, onslaughts g)) (startWave options).
Proof.
  unfold startWave, calculateHeroCount, showFloatingText.
  repeat frame_step; try (intros g'; reflexivity); try reflexivity.
  unfold onslaughts. cbn. rewrite count_onslaughts_app. cbn. f_equal. lia.
Qed.

Lemma spawnWave_chain (random : nat -> Q) (g : Game.t) :
  (0 <= Game.waveNumber g)%Z -> Game.timeouts g = [] ->
  let h := Game.heroesInWave (snd (startWave no_wave_options g)) in
  (15 <= h)%Z
  /\ fst (spawnWave random no_wave_options g) = Normal tt
  /\ spawning (Z.to_nat (3 * h - 1)) (3 * h) (S (onslaughts g))
       (snd (spawnWave random no_wave_options g)).
Proof.
  intros Hwave Hidle h.
  pose proof (startWave_default_state g) as (Hfst & Hw & _ & Hcount & Hrem & _ & Ht & Hc).
  pose proof (startWave_timeouts no_wave_options g) as Hframe.
  destruct (startWave no_wave_options g) as [r gs] eqn:Hstart.
  cbn [fst snd] in *. subst r. injection Hframe as Htime Hn. rewrite Hidle in Htime.
  assert (Hh : (15 <= h)%Z).
  { unfold h. rewrite Hcount.
    destruct (Z.rem (Game.waveNumber gs) 5 =? 0)%Z; [| lia].
    apply Z.div_le_lower_bound; lia. }
  fold h in Hrem. split; [exact Hh |].
  assert (Hopen : chain_open gs).
  { split; [lia |]. intros _. split; [lia |]. rewrite Hrem. fold h.
    apply onslaught_threshold_below. lia. }
  destruct (spawnNextHero_chain random gs Hopen) as (g1 & Hrun & Hmore & _).
  unfold spawnWave. rewrite (bind_Normal _ _ _ _ _ Hstart), Hrun. cbn [fst snd].
  split; [reflexivity |].
  assert (Hleft : spawns_left gs = (3 * h)%Z) by (unfold spawns_left; rewrite Ht, Hrem; fold h; lia).
  destruct Hmore as (Hopen1 & Hleft1 & Htotal1 & Hdue1 & delay & Htime1); [lia |].
  unfold spawning. split; [exact Hopen1 |]. split; [lia |].
  split; [rewrite Htotal1; unfold wave_total; rewrite Ht; reflexivity |].
  split; [rewrite Hdue1; unfold onslaughts_due; rewrite Ht, Hn; reflexivity |].
  exists delay. rewrite Htime1, Htime. reflexivity.
Qed.

(** X13.  Every wave triples.  When [update] starts a wave (a call of
    [spawnWave] without options, on a game whose wave number is not negative
    and with no spawn callback pending), the wave has [h >= 15] heroes to
    spawn and the onslaught always fires in it: the chain of callbacks that
    [spawnWave] starts takes [3 * h - 1] more calls of [spawnNextHero]; as
    long as fewer have run, heroes remain to be spawned and exactly one
    callback is pending; and when all have run, nothing remains, no callback
    is pending, [heroesInWave] is [3 * h], one more onslaught was shown than
    before the wave, and the onslaught is marked complete. *)
Theorem wave_spawns_three_times_its_count (random : nat -> Q) (g : Game.t)
    (Hwave : (0 <= Game.waveNumber g)%Z)
    (Hidle : Game.timeouts g = []) :
  let h := Game.heroesInWave (snd (startWave no_wave_options g)) in
  let g1 := snd (spawnWave random no_wave_options g) in
  let calls := Z.to_nat (3 * h - 1) in
  (15 <= h)%Z
  /\ (forall k : nat,
        (k < calls)%nat ->
        (0 < Game.heroesRemaining (play random (repeat Timeout k) g1))%Z
        /\ length (Game.timeouts (play random (repeat Timeout k) g1)) = 1%nat)
  /\ Game.heroesRemaining (play random (repeat Timeout calls) g1) = 0%Z
  /\ Game.timeouts (play random (repeat Timeout calls) g1) = []
  /\ Game.heroesInWave (play random (repeat Timeout calls) g1) = (3 * h)%Z
  /\ onslaughts (play random (repeat Timeout calls) g1) = S (onslaughts g)
  /\ Game.onslaughtComplete (play random (repeat Timeout calls) g1) = true
  /\ Game.onslaughtTriggered (play random (repeat Timeout calls) g1) = false.
Proof.
  intros h g1 calls.
  destruct (spawnWave_chain random g Hwave Hidle) as (Hh & _ & Hs).
  fold h g1 calls in Hs, Hh. split; [exact Hh |].
  assert (Hcalls : (1 <= calls)%nat) by (unfold calls; lia).
  split.
  - intros k Hk.
    replace calls with (k + S (calls - k - 1))%nat in Hs by lia.
    apply (play_timeouts_chain random) in Hs as ((Hr & _) & _ & _ & _ & delay & Htime).
    rewrite Htime. split; [exact Hr | reflexivity].
  - replace calls with ((calls - 1) + 1)%nat at 1 2 3 4 5 6 by lia.
    rewrite !repeat_app, !play_app.
    replace calls with ((calls - 1) + S 0)%nat in Hs by lia.
    apply (play_timeouts_chain random) in Hs.
    destruct (runTimeout_chain random 0 _ _ _ Hs) as (g' & Hrun & Hr & Ht & Hc & Hw & Hn & Htime).
    cbn [repeat play play_event]. rewrite Hrun. cbn [snd]. repeat split; assumption.
Qed.

(** A witness of [wave_spawns_three_times_its_count]: the first wave of
    the new game has 15 heroes and takes 45 calls, the one of [spawnWave]
    and 44 callbacks. *)
Lemma wave_spawns_three_times_its_count_witness :
  let g1 := snd (spawnWave quarter no_wave_options Game_new) in
  Game.heroesInWave (snd (startWave no_wave_options Game_new)) = 15%Z
  /\ Game.heroesRemaining (play quarter (repeat Timeout 44) g1) = 0%Z
  /\ Game.heroesInWave (play quarter (repeat Timeout 44) g1) = 45%Z.
Proof.
  intros g1.
  assert (Hw : (0 <= Game.waveNumber Game_new)%Z) by (cbn; lia).
  destruct (wave_spawns_three_times_its_count quarter Game_new Hw eq_refl)
    as (_ & _ & Hr & _ & Hh & _).
  split; [reflexivity |]. split; [exact Hr | exact Hh].
Defined.
(** ** Placement requests *)





(** ** Losing *)

Lemma areAllHeroesDead_victory : preserves Game.victory areAllHeroesDead.
Proof.
  unfold areAllHeroesDead, startNextWavePreparation, showFloatingText.
  repeat frame_step; try (intros g0; reflexivity); reflexivity.
Qed.

(** X16.  The game is lost exactly when a hero stands at the castle.  On
    a game whose listed heroes are objects and that is not lost yet,
    [checkGameOver] records a loss ([victory = false], and then also
    [gameOver = true]) if and only if some hero of some lane has a position
    [<= 0]; the wave number, the pause and the preparation phase play no
    part, and a loss takes precedence over a victory. *)
Theorem checkGameOver_loss_iff (g : Game.t)
    (Hobj : all_objects g (all_heroes g))
    (Hnot : Game.victory g <> Some false) :
  (Game.victory (snd (checkGameOver g)) = Some false
   <-> exists (l : Lane.t) (h : ref) (u : Unit.t),
         l ∈ Game.lanes g /\ h ∈ Lane.heroes l
         /\ Game.heap g !! h = Some u /\ Unit.position u <= 0)
  /\ (Game.victory (snd (checkGameOver g)) = Some false ->
      checkGameOver g
      = (Normal tt, Game.with_victory (Some false) (Game.with_gameOver true g))).
Proof.
  assert (Hloss :
    (exists (l : Lane.t) (h : ref) (u : Unit.t),
        l ∈ Game.lanes g /\ h ∈ Lane.heroes l
        /\ Game.heap g !! h = Some u /\ Unit.position u <= 0) ->
    checkGameOver g
    = (Normal tt, Game.with_victory (Some false) (Game.with_gameOver true g)))
    by (apply checkGameOver_loss; exact Hobj).
  assert (Hconv :
    Game.victory (snd (checkGameOver g)) = Some false ->
    exists (l : Lane.t) (h : ref) (u : Unit.t),
      l ∈ Game.lanes g /\ h ∈ Lane.heroes l
      /\ Game.heap g !! h = Some u /\ Unit.position u <= 0).
  { unfold checkGameOver. rewrite bind_get. fold (all_heroes g).
    destruct (heroAtCastle_cases g (all_heroes g)) as [[e H] | [H | [H Hall]]].
    - rewrite (bind_Throw _ _ _ _ _ H). cbn. intros Hv. contradiction.
    - intros _. clear Hloss.
      assert (Hex : exists (h : ref) (u : Unit.t),
                 h ∈ all_heroes g /\ Game.heap g !! h = Some u /\ Unit.position u <= 0).
      { clear Hnot. revert H Hobj. generalize (all_heroes g) as hs.
        induction hs as [| h hs IH]; intros H Hobj; [discriminate |].
        apply Forall_cons in Hobj as [[u Hu] Hobj].
        cbn [heroAtCastle] in H. rewrite (bind_Normal _ _ _ _ _ (deref_Some g h u Hu)) in H.
        destruct (Qle_bool (Unit.position u) 0) eqn:E.
        - exists h, u. split; [apply list_elem_of_here |]. split; [exact Hu |].
          apply Qle_bool_iff. exact E.
        - destruct (IH H Hobj) as (h' & u' & Hin & Hu' & Hp).
          exists h', u'. split; [apply list_elem_of_further; exact Hin | auto]. }
      destruct Hex as (h & u & Hin & Hu & Hp).
      unfold all_heroes in Hin.
      apply list_elem_of_In, in_concat in Hin as (hs & Hhs & Hh).
      apply in_map_iff in Hhs as (l & <- & Hl).
      exists l, h, u. rewrite <- !list_elem_of_In in *. auto.
    - rewrite (bind_Normal _ _ _ _ _ H).
      destruct (Game.waveNumber g >=? 10)%Z; [| cbn; intros Hv; contradiction].
      pose proof (areAllHeroesDead_victory g) as Hframe.
      unfold bind at 1. destruct (areAllHeroesDead g) as [[dead | e] g1];
        cbn [snd] in Hframe; [| cbn; intros Hv; congruence].
      destruct dead; cbn; intros Hv; congruence. }
  split; [split; [exact Hconv | intros H; rewrite (Hloss H); reflexivity] |].
  intros Hv. exact (Hloss (Hconv Hv)).
Qed.

(** A witness of [checkGameOver_loss_iff]: the Militiant of tile 4 of
    [skirmish], moved to the castle. *)
Lemma checkGameOver_loss_iff_witness :
  let g := snd (Unit_move 2%nat 600000 (-1) skirmish) in
  Game.victory (snd (checkGameOver g)) = Some false
  /\ Game.gameOver (snd (checkGameOver g)) = true.
Proof.
  intros g.
  assert (Hobj : all_objects g (all_heroes g)).
  { repeat constructor; vm_compute; eauto. }
  assert (Hnot : Game.victory g <> Some false) by (vm_compute; discriminate).
  destruct (checkGameOver_loss_iff g Hobj Hnot) as [_ Hrun].
  assert (Hv : Game.victory (snd (checkGameOver g)) = Some false) by (vm_compute; reflexivity).
  split; [exact Hv |]. rewrite (Hrun Hv). reflexivity.
Defined.
(** ** The bounty of a kill *)

Lemma hooks_bounty (hero : ref) (hu : Unit.t) (ms : list ref) :
  forall g : Game.t,
    all_objects g ms -> Game.heap g !! hero = Some hu ->
    exists g' : Game.t,
      forEach ms
        (fun m =>
           let* mu := deref m in
           match Unit.cls mu with
           | MinionOf Dreadchant => Dreadchant_onEnemyDeath m hero
           | _ => ret tt
           end) g = (Normal tt, g')
      /\ Game.heap g' = Game.heap g /\ Game.lanes g' = Game.lanes g
      /\ Game.randomCalls g' = Game.randomCalls g
      /\ Game.daen g'
         == Game.daen g
            + daenPerKill * inject_Z (Z.of_nat (conversions g (Unit.position hu) ms)).
Proof.
  induction ms as [| m ms IH]; intros g Hobj Hhero.
  - exists g. cbn. repeat split; try reflexivity. unfold conversions. cbn. ring.
  - apply Forall_cons in Hobj as [[mu Hmu] Hobj]. cbn [forEach].
    assert (Hstep :
      exists g1 : Game.t,
        (let* mu := deref m in
         match Unit.cls mu with
         | MinionOf Dreadchant => Dreadchant_onEnemyDeath m hero
         | _ => ret tt
         end) g = (Normal tt, g1)
        /\ Game.heap g1 = Game.heap g /\ Game.lanes g1 = Game.lanes g
        /\ Game.randomCalls g1 = Game.randomCalls g
        /\ Game.daen g1
           == Game.daen g + (if converts g (Unit.position hu) m then daenPerKill else 0)).
    { rewrite (bind_Normal _ _ g g mu (deref_Some g m mu Hmu)).
      unfold converts. rewrite Hmu.
      assert (Hid : exists g1 : Game.t,
                 ret tt g = (Normal tt, g1)
                 /\ Game.heap g1 = Game.heap g /\ Game.lanes g1 = Game.lanes g
                 /\ Game.randomCalls g1 = Game.randomCalls g
                 /\ Game.daen g1 == Game.daen g + 0)
        by (exists g; repeat split; try reflexivity; ring).
      destruct (Unit.cls mu) as [[| | | |] | c]; try exact Hid.
      unfold Dreadchant_onEnemyDeath.
      rewrite (bind_Normal _ _ _ _ _ (deref_Some g m mu Hmu)).
      rewrite (bind_Normal _ _ _ _ _ (deref_Some g hero hu Hhero)).
      destruct (Qle_bool (Qabs (Unit.position mu - Unit.position hu)) conversionRange);
        [| exact Hid].
      eexists. split.
      { unfold updateDaenDisplay, showFloatingText. rewrite bind_modify, bind_ret.
        reflexivity. }
      game_fields. repeat split; reflexivity. }
    destruct Hstep as (g1 & Hrun & Hheap & Hlanes & Hrand & Hdaen).
    rewrite (bind_Normal _ _ g g1 tt Hrun).
    destruct (IH g1) as (g' & Hrest & Hheap' & Hlanes' & Hrand' & Hdaen').
    { eapply all_objects_same_heap; [exact Hheap | exact Hobj]. }
    { rewrite Hheap. exact Hhero. }
    exists g'. split; [exact Hrest |].
    split; [congruence |]. split; [congruence |]. split; [congruence |].
    rewrite Hdaen', Hdaen.
    assert (Hsame : conversions g1 (Unit.position hu) ms = conversions g (Unit.position hu) ms).
    { unfold conversions. f_equal. apply filter_ext. intros x. unfold converts.
      rewrite Hheap. reflexivity. }
    rewrite Hsame. unfold conversions at 2. cbn [List.filter].
    destruct (converts g (Unit.position hu) m); cbn [length].
    + rewrite Nat2Z.inj_succ, <- Z.add_1_r, inject_Z_plus. change (inject_Z 1) with 1.
      fold (conversions g (Unit.position hu) ms). ring.
    + fold (conversions g (Unit.position hu) ms). ring.
Qed.

(** X17.  The bounty of a kill.  [Lane.removeHero] of a hero the lane
    lists, in a lane whose defenders are objects: every Dreadchant of the
    lane within [conversionRange] of the hero adds [daenPerKill] to the Daen,
    once for each time the defender list names it; then one number is drawn
    from [Math.random] and one more Daen is added when it is below one half;
    then the first reference to the hero leaves the attacker list.  Nothing
    else of the lanes and nothing of the heap changes. *)
Theorem removeHero_bounty (random : nat -> Q) (g : Game.t) (li : nat) (l : Lane.t)
    (hero : ref) (hu : Unit.t) (i : nat)
    (Hlane : Game.lanes g !! li = Some l)
    (Hobj : all_objects g (Lane.minions l))
    (Hhero : Game.heap g !! hero = Some hu)
    (Hlisted : indexOf hero (Lane.heroes l) = Some i) :
  exists g' : Game.t,
    Lane_removeHero random li hero g = (Normal tt, g')
    /\ Game.daen g'
       == Game.daen g
          + daenPerKill
            * inject_Z (Z.of_nat (conversions g (Unit.position hu) (Lane.minions l)))
          + (if Qlt_bool (random (Game.randomCalls g)) 0.5 then 1 else 0)
    /\ Game.randomCalls g' = S (Game.randomCalls g)
    /\ Game.heap g' = Game.heap g
    /\ Game.lanes g'
       = <[li := Lane.with_heroes (delete i (Lane.heroes l)) l]> (Game.lanes g).
Proof.
  unfold Lane_removeHero.
  rewrite (bind_Normal _ _ _ _ _ (read_lane_Some g li l Hlane)), Hlisted.
  destruct (hooks_bounty hero hu (Lane.minions l) g Hobj Hhero)
    as (g1 & Hrun & Hheap & Hlanes & Hrand & Hdaen).
  rewrite (bind_Normal _ _ _ _ _ Hrun).
  rewrite (bind_Normal (Math_random random) _ _ _ _ eq_refl).
  rewrite Hrand.
  assert (Hl1 : forall g2 : Game.t,
             Game.lanes g2 = Game.lanes g1 -> read_lane li g2 = (Normal l, g2)).
  { intros g2 H2. apply read_lane_Some. rewrite H2, Hlanes. exact Hlane. }
  destruct (Qlt_bool (random (Game.randomCalls g)) 0.5); cbn [when].
  - unfold updateDaenDisplay, showFloatingText.
    rewrite !bind_bind, bind_modify, bind_bind, bind_ret, bind_modify.
    erewrite (bind_Normal (read_lane li)) by (apply Hl1; reflexivity).
    eexists. split; [reflexivity |]. game_fields.
    rewrite Hheap, Hlanes. split; [rewrite Hdaen; reflexivity |]. repeat split; reflexivity.
  - rewrite bind_ret.
    erewrite (bind_Normal (read_lane li)) by (apply Hl1; reflexivity).
    eexists. split; [reflexivity |]. game_fields.
    rewrite Hheap, Hlanes. split; [rewrite Hdaen; ring |]. repeat split; reflexivity.
Qed.

(** A witness of [removeHero_bounty]: in [chant_field] the Militiant of
    tile 6 dies one tile from the Dreadchant of tile 5; with a draw of a
    quarter the kill pays [3 + 1] Daen. *)
Lemma removeHero_bounty_witness :
  exists g' : Game.t,
    Lane_removeHero quarter 0%nat 1%nat chant_field = (Normal tt, g')
    /\ Game.daen g' == Game.daen chant_field + 4.
Proof.
  destruct (Game.lanes chant_field !! 0%nat) as [l |] eqn:Hl;
    [| vm_compute in Hl; discriminate].
  destruct (Game.heap chant_field !! 1%nat) as [hu |] eqn:Hu;
    [| vm_compute in Hu; discriminate].
  assert (Hobj : all_objects chant_field (Lane.minions l)).
  { vm_compute in Hl. injection Hl as <-. repeat constructor. vm_compute. eauto. }
  assert (Hlisted : indexOf 1%nat (Lane.heroes l) = Some 0%nat).
  { vm_compute in Hl. injection Hl as <-. reflexivity. }
  destruct (removeHero_bounty quarter chant_field 0%nat l 1%nat hu 0%nat Hl Hobj Hu Hlisted)
    as (g' & Hrun & Hdaen & _).
  exists g'. split; [exact Hrun |]. rewrite Hdaen.
  vm_compute in Hl, Hu. injection Hl as <-. injection Hu as <-. vm_compute. reflexivity.
Defined.
(** ** The tick of a defender *)

Lemma scanTargets_found (g : Game.t) (selfPos range : Q) (rs : list ref) :
  match scanTargets selfPos range (located g rs) None None with
  | Some t =>
      exists tu : Unit.t,
        t ∈ rs /\ Game.heap g !! t = Some tu
        /\ Qabs (selfPos - Unit.position tu) <= range
  | None =>
      forall (r : ref) (ru : Unit.t),
        r ∈ rs -> Game.heap g !! r = Some ru ->
        ~ Qabs (selfPos - Unit.position ru) <= range
  end.
Proof.
  pose proof (scanTargets_nearest_first selfPos range (located g rs)) as Hn.
  destruct (scanTargets _ _ _ None None) as [t |]; cbn [nearest_first] in Hn.
  - destruct Hn as (i & p & Hi & Hr & _).
    apply located_lookup in Hi as (tu & Hin & Htu & ->). exists tu. auto.
  - intros r ru Hin Hru Hr.
    destruct (located_elem g _ r ru Hin Hru) as [j Hj].
    exact (Hn j r _ Hj Hr).
Qed.

Lemma tick_cooldown_run (g : Game.t) (self : ref) (u : Unit.t) (deltaTime : Q) :
  Game.heap g !! self = Some u ->
  (let* s2 := deref self in
   when (Qlt_bool 0 (Unit.cooldown s2))
     (update_unit self (fun u => Unit.with_cooldown (Unit.cooldown u - deltaTime) u))) g
  = (Normal tt, with_unit self (tick_cooldown deltaTime u) g).
Proof.
  intros Hself. rewrite (bind_Normal _ _ _ _ _ (deref_Some g self u Hself)).
  unfold tick_cooldown. destruct (Qlt_bool 0 (Unit.cooldown u)); cbn [when].
  - exact (update_unit_run g self u _ Hself).
  - rewrite with_unit_id by exact Hself. reflexivity.
Qed.

Lemma update_unit_with_unit (g : Game.t) (r : ref) (u : Unit.t) (f : Unit.t -> Unit.t) :
  Game.heap g !! r = Some u -> update_unit r f g = (Normal tt, with_unit r (f u) g).
Proof. exact (update_unit_run g r u f). Qed.

Lemma with_unit_comm (g : Game.t) (a b : ref) (x y : Unit.t) :
  a <> b -> with_unit a x (with_unit b y g) = with_unit b y (with_unit a x g).
Proof.
  intros Hne. unfold with_unit. cbn [Game.heap Game.with_heap].
  rewrite insert_insert_ne by exact Hne. reflexivity.
Qed.

(** The start of [Minion.update], up to the test on the target. *)
Lemma Minion_update_prefix (random : nat -> Q) (g : Game.t) (self : ref) (u : Unit.t)
    (l : Lane.t) (deltaTime : Q) :
  Game.heap g !! self = Some u -> home_lane g u = Some l ->
  all_objects g (Lane.heroes l) ->
  let u1 := cooled deltaTime u in
  let g1 := with_unit self u1 g in
  Game.heap g1 !! self = Some u1
  /\ Minion_update random self deltaTime g
     = (match scanTargets (Unit.position u) (Unit.attackRange u)
                (located g (Lane.heroes l)) None None with
        | Some t =>
            if Qle_bool (Unit.attackCooldown u1) 0 then
              Unit_attack random self t ;;
              update_unit self
                (fun u => Unit.with_attackCooldown (1000 / Unit.attackSpeed u) u)
            else ret tt
        | None => ret tt
        end ;;
        let* s2 := deref self in
        when (Qlt_bool 0 (Unit.cooldown s2))
          (update_unit self (fun u => Unit.with_cooldown (Unit.cooldown u - deltaTime) u)))
         g1.
Proof.
  intros Hself Hhome Hobj u1 g1.
  pose proof (cooled_fields deltaTime u) as (Hpos & Hrange & Hlane & _).
  fold u1 in Hpos, Hrange, Hlane.
  assert (Hself1 : Game.heap g1 !! self = Some u1) by (cbn; apply lookup_insert_eq).
  split; [exact Hself1 |].
  pose proof (home_lane_lookup g u l Hhome) as [Hin Hl].
  unfold Minion_update.
  rewrite (bind_Normal _ _ _ _ _ (deref_Some g self u Hself)).
  assert (Hwhen :
            when (Qlt_bool 0 (Unit.attackCooldown u))
              (update_unit self
                 (fun u => Unit.with_attackCooldown (Unit.attackCooldown u - deltaTime) u)) g
            = (Normal tt, g1)).
  { unfold g1, u1, cooled. destruct (Qlt_bool 0 (Unit.attackCooldown u)); cbn [when].
    - exact (update_unit_run g self u _ Hself).
    - rewrite with_unit_id by exact Hself. reflexivity. }
  rewrite (bind_Normal _ _ _ _ _ Hwhen).
  rewrite (bind_Normal _ _ _ _ _ (lanes_at_Some g1 (Unit.lane u) Hin)).
  rewrite (bind_Normal _ _ _ _ _
             (Minion_findTarget_eq g1 self u1 (Z.to_nat (Unit.lane u)) l Hself1 Hl
                (all_objects_insert g g1 _ self u1 eq_refl Hobj))).
  rewrite (bind_Normal _ _ _ _ _ (deref_Some g1 self u1 Hself1)).
  rewrite Hpos, Hrange.
  unfold g1 at 1. rewrite (located_insert g self u u1 _ Hself Hpos).
  reflexivity.
Qed.

(** X18.  The tick of a defender of an attacking class ([Minion.update]),
    in a lane whose heroes are objects.
    - With no hero within its range, or with an attack cooldown that is
      still positive after the tick has been counted off, the tick changes
      nothing but the two cooldowns of the defender.
    - With a hero within range and the cooldown run out, the defender
      strikes the nearest hero; when that hero survives the hit, the tick
      changes nothing but the health of the hero, which goes down by the
      damage of the defender, and the cooldowns of the defender, whose attack
      cooldown restarts at [1000 / attackSpeed]. *)
Theorem defender_tick (random : nat -> Q) (g : Game.t) (self : ref) (u : Unit.t)
    (l : Lane.t) (deltaTime : Q)
    (Hself : Game.heap g !! self = Some u)
    (Hhome : home_lane g u = Some l)
    (Hobj : all_objects g (Lane.heroes l))
    (Hminion : self ∉ Lane.heroes l) :
  ((~ attacker_in_range g u l \/ 0 < Unit.attackCooldown (cooled deltaTime u)) ->
   Minion_update random self deltaTime g
   = (Normal tt, with_unit self (tick_cooldown deltaTime (cooled deltaTime u)) g))
  /\ (attacker_in_range g u l -> Unit.attackCooldown (cooled deltaTime u) <= 0 ->
      exists (t : ref) (tu : Unit.t),
        scanTargets (Unit.position u) (Unit.attackRange u)
          (located g (Lane.heroes l)) None None = Some t
        /\ t ∈ Lane.heroes l
        /\ Game.heap g !! t = Some tu
        /\ Qabs (Unit.position u - Unit.position tu) <= Unit.attackRange u
        /\ (0 < Unit.health tu - Unit.damage u ->
            Minion_update random self deltaTime g
            = (Normal tt,
               with_unit self (tick_cooldown deltaTime (rearmed (cooled deltaTime u)))
                 (with_unit t (struck (Unit.damage u) tu) g)))).
Proof.
  destruct (Minion_update_prefix random g self u l deltaTime Hself Hhome Hobj)
    as [Hself1 Hrun].
  pose proof (cooled_fields deltaTime u) as (Hpos & Hrange & _ & _).
  pose proof (scanTargets_found g (Unit.position u) (Unit.attackRange u) (Lane.heroes l))
    as Hfound.
  split.
  - intros Hidle. rewrite Hrun.
    assert (Hskip :
      match scanTargets (Unit.position u) (Unit.attackRange u)
              (located g (Lane.heroes l)) None None with
      | Some t =>
          if Qle_bool (Unit.attackCooldown (cooled deltaTime u)) 0 then
            Unit_attack random self t ;;
            update_unit self
              (fun u => Unit.with_attackCooldown (1000 / Unit.attackSpeed u) u)
          else ret tt
      | None => ret tt
      end = ret tt).
    { destruct (scanTargets _ _ _ None None) as [t |]; [| reflexivity].
      destruct Hidle as [Hout | Hwait].
      - exfalso. apply Hout. destruct Hfound as (tu & Hin & Htu & Hr). exists t, tu. auto.
      - apply Qle_bool_false in Hwait. rewrite Hwait. reflexivity. }
    rewrite Hskip, bind_ret.
    rewrite (tick_cooldown_run _ self _ deltaTime Hself1), with_unit_twice. reflexivity.
  - intros (h & hu & Hin & Hhu & Hr) Hready.
    destruct (scanTargets _ _ _ None None) as [t |];
      [| exfalso; exact (Hfound h hu Hin Hhu Hr)].
    destruct Hfound as (tu & Htin & Htu & Htr).
    exists t, tu. repeat (split; [assumption || reflexivity |]).
    intros Hsurvive. rewrite Hrun.
    apply Qle_bool_iff in Hready. rewrite Hready.
    assert (Hne : self <> t) by (intros ->; contradiction).
    set (u1 := cooled deltaTime u) in *. set (g1 := with_unit self u1 g) in *.
    assert (Htu1 : Game.heap g1 !! t = Some tu).
    { unfold g1, with_unit. cbn. rewrite lookup_insert_ne by exact Hne. exact Htu. }
    assert (Hdamage : Unit.damage u1 = Unit.damage u)
      by (unfold u1, cooled; destruct (Qlt_bool 0 (Unit.attackCooldown u)); reflexivity).
    assert (Hattack : Unit_attack random self t g1
                      = (Normal false, with_unit t (struck (Unit.damage u) tu) g1)).
    { assert (Hcan : Unit_canAttack self t g1 = (Normal true, g1)).
      { unfold Unit_canAttack.
        rewrite (bind_Normal _ _ _ _ _ (deref_Some g1 self u1 Hself1)).
        rewrite (bind_Normal _ _ _ _ _ (deref_Some g1 t tu Htu1)).
        fold u1 in Hpos, Hrange. rewrite Hpos, Hrange.
        apply Qle_bool_iff in Htr. rewrite Htr. reflexivity. }
      unfold Unit_attack. rewrite (bind_Normal _ _ _ _ _ Hcan). cbn [negb].
      rewrite (bind_Normal _ _ _ _ _ (deref_Some g1 self u1 Hself1)), Hdamage.
      apply takeDamage_survives; [exact Htu1 |]. apply Qle_bool_false. exact Hsurvive. }
    rewrite !bind_bind, (bind_Normal _ _ _ _ _ Hattack).
    assert (Hself2 : Game.heap (with_unit t (struck (Unit.damage u) tu) g1) !! self = Some u1).
    { unfold with_unit at 1. cbn. rewrite lookup_insert_ne by congruence. exact Hself1. }
    rewrite (bind_Normal _ _ _ _ _ (update_unit_with_unit _ self u1 _ Hself2)).
    erewrite tick_cooldown_run by (cbn; apply lookup_insert_eq).
    fold (rearmed u1). unfold g1.
    rewrite with_unit_twice, (with_unit_comm g t self) by congruence.
    rewrite with_unit_twice. reflexivity.
Qed.

(** A witness of [defender_tick]: in [skirmish] the Gravelim of tile 5
    strikes the Militiant of tile 6, the first of the two at distance 1, which
    survives with 102 of its 114 health. *)
Lemma defender_tick_witness :
  exists (u tu : Unit.t),
    Game.heap skirmish !! 0%nat = Some u
    /\ Game.heap skirmish !! 1%nat = Some tu
    /\ Minion_update quarter 0%nat 16 skirmish
       = (Normal tt,
          with_unit 0%nat (tick_cooldown 16 (rearmed (cooled 16 u)))
            (with_unit 1%nat (struck (Unit.damage u) tu) skirmish))
    /\ Unit.health (struck (Unit.damage u) tu) = 102.
Proof.
  destruct (Game.heap skirmish !! 0%nat) as [u |] eqn:Hu; [| vm_compute in Hu; discriminate].
  destruct (Game.heap skirmish !! 1%nat) as [tu |] eqn:Htu;
    [| vm_compute in Htu; discriminate].
  destruct (Game.lanes skirmish !! 0%nat) as [l |] eqn:Hl; [| vm_compute in Hl; discriminate].
  assert (Hu' := Hu). assert (Htu' := Htu). assert (Hl' := Hl).
  vm_compute in Hu', Htu', Hl'.
  injection Hu' as Eu. injection Htu' as Etu. injection Hl' as El.
  assert (Hhome : home_lane skirmish u = Some l).
  { unfold home_lane. rewrite <- Eu. exact Hl. }
  assert (Hheroes : Lane.heroes l = [1%nat; 2%nat]) by (rewrite <- El; reflexivity).
  assert (Hobj : all_objects skirmish (Lane.heroes l)).
  { rewrite Hheroes. repeat constructor; vm_compute; eauto. }
  assert (Hminion : 0%nat ∉ Lane.heroes l).
  { rewrite Hheroes. intros H. apply list_elem_of_In in H. cbn in H. lia. }
  destruct (defender_tick quarter skirmish 0%nat u l 16 Hu Hhome Hobj Hminion) as [_ Hstrike].
  destruct Hstrike as (t & tu0 & Hscan & _ & Htu0 & _ & Hrun).
  { exists 1%nat, tu. rewrite Hheroes. split; [apply list_elem_of_here |].
    split; [exact Htu |]. rewrite <- Eu, <- Etu. vm_compute. discriminate. }
  { rewrite <- Eu. vm_compute. discriminate. }
  assert (Ht : t = 1%nat).
  { rewrite <- Eu, Hheroes in Hscan. vm_compute in Hscan. congruence. }
  subst t.
  assert (Heq : Some tu0 = Some tu) by exact (eq_trans (eq_sym Htu0) Htu).
  injection Heq as ->.
  exists u, tu. split; [reflexivity |]. split; [reflexivity |].
  split; [apply Hrun; rewrite <- Eu, <- Etu; vm_compute; reflexivity |].
  rewrite <- Eu, <- Etu. reflexivity.
Defined.
(** ** Sound states *)

#[global] Instance extends_preorder : PreOrder extends.
Proof.
  split.
  - intros g. split; [reflexivity |]. split; [reflexivity |]. eauto.
  - intros a b c (Hl1 & Ht1 & H1) (Hl2 & Ht2 & H2).
    split; [congruence |]. split; [congruence |].
    intros r u Hu. destruct (H1 r u Hu) as (u1 & Hu1 & Hc1 & Hn1).
    destruct (H2 r u1 Hu1) as (u2 & Hu2 & Hc2 & Hn2).
    exists u2. split; [exact Hu2 |]. split; congruence.
Qed.

Lemma is_unit_extends (g g' : Game.t) (kind : UnitClass -> Prop) (r : ref) :
  extends g g' -> is_unit g kind r -> is_unit g' kind r.
Proof.
  intros (_ & _ & H) (u & Hu & Hk). destruct (H r u Hu) as (u' & Hu' & Hc & _).
  exists u'. rewrite Hc. auto.
Qed.

Lemma is_unit_object (g : Game.t) (kind : UnitClass -> Prop) (rs : list ref) :
  Forall (is_unit g kind) rs -> all_objects g rs.
Proof.
  intros H. eapply Forall_impl; [exact H |]. intros r (u & Hu & _). eauto.
Qed.

Lemma sound_lane_extends (g g' : Game.t) (l : Lane.t) :
  extends g g' -> sound_lane g l -> sound_lane g' l.
Proof.
  intros He (Hh & Hm & Ht). split; [| split].
  - eapply Forall_impl; [exact Hh |]. intros r. apply is_unit_extends. exact He.
  - eapply Forall_impl; [exact Hm |]. intros r. apply is_unit_extends. exact He.
  - eapply Forall_impl; [exact Ht |]. intros tile H m Hm'.
    eapply is_unit_extends; [exact He | apply H; exact Hm'].
Qed.

Lemma extends_update (g : Game.t) (r : ref) (u u' : Unit.t) :
  Game.heap g !! r = Some u ->
  Unit.cls u' = Unit.cls u -> Unit.lane u' = Unit.lane u ->
  extends g (Game.with_heap (<[r := u']> (Game.heap g)) g).
Proof.
  intros Hu Hc Hl. split; [reflexivity |]. split; [reflexivity |].
  intros r0 u0 Hu0. cbn [Game.heap Game.with_heap].
  destruct (decide (r0 = r)) as [-> | Hne].
  - rewrite lookup_insert_eq. exists u'. rewrite Hu in Hu0. injection Hu0 as <-. auto.
  - rewrite lookup_insert_ne by congruence. eauto.
Qed.

Lemma extends_same_heap (g g' : Game.t) :
  Game.heap g' = Game.heap g -> Game.laneCount g' = Game.laneCount g ->
  Game.tileCount g' = Game.tileCount g -> extends g g'.
Proof.
  intros Hh Hl Ht. split; [exact Hl |]. split; [exact Ht |].
  intros r u Hu. rewrite Hh. eauto.
Qed.

Lemma sound_update (g : Game.t) (r : ref) (u u' : Unit.t) :
  sound g -> Game.heap g !! r = Some u ->
  Unit.cls u' = Unit.cls u -> Unit.lane u' = Unit.lane u ->
  sound (Game.with_heap (<[r := u']> (Game.heap g)) g).
Proof.
  intros (Hwf & Hlanes & Hheap) Hu Hc Hl.
  pose proof (extends_update g r u u' Hu Hc Hl) as He.
  split; [exact Hwf |]. split.
  - eapply Forall_impl; [exact Hlanes |]. intros l. apply sound_lane_extends. exact He.
  - intros r0 u0. cbn [Game.heap Game.with_heap Game.laneCount Game.nextRef].
    destruct (decide (r0 = r)) as [-> | Hne].
    + rewrite lookup_insert_eq. intros [= <-]. rewrite Hl. apply (Hheap r u Hu).
    + rewrite lookup_insert_ne by congruence. apply Hheap.
Qed.

Lemma tiles_kept_sound (g : Game.t) (tiles tiles' : list Tile.t) :
  Forall2 tile_kept tiles tiles' ->
  Forall (fun tile => forall m : ref, Tile.minion tile = Some m ->
                                      is_unit g minion_class m) tiles ->
  Forall (fun tile => forall m : ref, Tile.minion tile = Some m ->
                                      is_unit g minion_class m) tiles'.
Proof.
  induction 1 as [| t t' ts ts' (_ & _ & Hk) _ IH]; intros Hall; [constructor |].
  apply Forall_cons in Hall as [Ht Hts]. constructor; [| apply IH; exact Hts].
  intros m Hm. destruct Hk as [Hk | Hk]; rewrite Hk in Hm; [apply Ht; exact Hm | discriminate].
Qed.

Lemma Forall_sublist {A : Type} (P : A -> Prop) (l1 l2 : list A) :
  l1 `sublist_of` l2 -> Forall P l2 -> Forall P l1.
Proof.
  intros Hsub Hall. apply Forall_forall. intros x Hx.
  apply (proj1 (Forall_forall _ _) Hall). eapply elem_of_sublist; eassumption.
Qed.

Lemma sound_lane_core (g g' : Game.t) (l : Lane.t) :
  Game.heap g' = Game.heap g -> sound_lane g l -> sound_lane g' l.
Proof.
  intros Hh. unfold sound_lane, is_unit. rewrite Hh. auto.
Qed.

Lemma sound_shrink (g : Game.t) (li : nat) (l l' : Lane.t) :
  sound g -> Game.lanes g !! li = Some l -> lane_shrinks l l' ->
  sound (Game.with_lanes (<[li := l']> (Game.lanes g)) g).
Proof.
  intros (Hwf & Hlanes & Hheap) Hl Hs.
  destruct (lane_shrinks_shape l l' Hs) as [Hc Hn].
  split; [eapply wf_game_lane; eassumption |]. split; [| exact Hheap].
  cbn [Game.lanes Game.with_lanes].
  assert (Hsl : sound_lane g l) by exact (proj1 (Forall_lookup _ _) Hlanes li l Hl).
  destruct Hs as (_ & _ & Ht & Hh & Hm). destruct Hsl as (Hh0 & Hm0 & Ht0).
  apply Forall_insert.
  - eapply Forall_impl; [exact Hlanes |]. intros l0. apply sound_lane_core. reflexivity.
  - split; [| split].
    + exact (Forall_sublist _ _ _ Hh Hh0).
    + exact (Forall_sublist _ _ _ Hm Hm0).
    + exact (tiles_kept_sound g _ _ Ht Ht0).
Qed.

Lemma sound_core (g g' : Game.t) :
  Game.heap g' = Game.heap g -> Game.lanes g' = Game.lanes g ->
  Game.nextRef g' = Game.nextRef g -> Game.laneCount g' = Game.laneCount g ->
  Game.tileCount g' = Game.tileCount g -> sound g -> sound g'.
Proof.
  intros Hh Hl Hn Hlc Htc. unfold sound, wf_game, sound_lane, is_unit.
  rewrite Hh, Hl, Hn, Hlc, Htc. auto.
Qed.

Section SoundFrames.

Variable random : nat -> Q.

Ltac sound_leaf :=
  first
    [ unfold keeps; intros; eapply sound_update; eassumption
    | unfold keeps; intros; eapply sound_shrink; eassumption
    | unfold keeps; intros; eapply sound_core; [.. | eassumption]; reflexivity ].

Ltac extends_leaf :=
  first
    [ intros; eapply extends_update; eassumption
    | intros; apply extends_same_heap; reflexivity ].

Lemma Lane_removeHero_sound (li : nat) (hero : ref) :
  advances (keeps sound) (Lane_removeHero random li hero).
Proof. apply (Lane_removeHero_advances (keeps sound)); sound_leaf. Qed.

Lemma Unit_die_sound (self : ref) : advances (keeps sound) (Unit_die random self).
Proof. apply (Unit_die_advances (keeps sound)); sound_leaf. Qed.

Lemma Unit_takeDamage_sound (self : ref) (amount : Q) :
  advances (keeps sound) (Unit_takeDamage random self amount).
Proof. apply (Unit_takeDamage_advances (keeps sound)); sound_leaf. Qed.

Lemma Unit_attack_sound (self target : ref) :
  advances (keeps sound) (Unit_attack random self target).
Proof. apply (Unit_attack_advances (keeps sound)); sound_leaf. Qed.

Lemma Unit_move_sound (self : ref) (deltaTime direction : Q) :
  advances (keeps sound) (Unit_move self deltaTime direction).
Proof. apply (Unit_move_advances (keeps sound)); sound_leaf. Qed.

Lemma Unit_update_sound (self : ref) (deltaTime : Q) :
  advances (keeps sound) (Unit_update random self deltaTime).
Proof. apply (Unit_update_advances (keeps sound)); sound_leaf. Qed.

Lemma Tile_update_sound (li i : nat) (deltaTime : Q) :
  advances (keeps sound) (Tile_update random li i deltaTime).
Proof. apply (Tile_update_advances (keeps sound)); sound_leaf. Qed.

Lemma Lane_update_sound (li : nat) (deltaTime : Q) :
  advances (keeps sound) (Lane_update random li deltaTime).
Proof. apply (Lane_update_advances (keeps sound)); sound_leaf. Qed.

Lemma Unit_die_extends (self : ref) : advances extends (Unit_die random self).
Proof. apply (Unit_die_advances extends); extends_leaf. Qed.

Lemma Unit_takeDamage_extends (self : ref) (amount : Q) :
  advances extends (Unit_takeDamage random self amount).
Proof. apply (Unit_takeDamage_advances extends); extends_leaf. Qed.

Lemma Unit_attack_extends (self target : ref) :
  advances extends (Unit_attack random self target).
Proof. apply (Unit_attack_advances extends); extends_leaf. Qed.

Lemma Unit_update_extends (self : ref) (deltaTime : Q) :
  advances extends (Unit_update random self deltaTime).
Proof. apply (Unit_update_advances extends); extends_leaf. Qed.

Lemma Tile_update_extends (li i : nat) (deltaTime : Q) :
  advances extends (Tile_update random li i deltaTime).
Proof. apply (Tile_update_advances extends); extends_leaf. Qed.

Lemma Lane_update_extends (li : nat) (deltaTime : Q) :
  advances extends (Lane_update random li deltaTime).
Proof. apply (Lane_update_advances extends); extends_leaf. Qed.

End SoundFrames.
(** *** Completing normally *)

Lemma total_ret {A : Type} (a : A) : total (ret a).
Proof. intros g. eauto. Qed.

Lemma total_get : total get.
Proof. intros g. eexists _, _. reflexivity. Qed.

Lemma total_modify (f : Game.t -> Game.t) : total (modify f).
Proof. intros g. eexists _, _. reflexivity. Qed.

Lemma total_bind {A B : Type} (c : M A) (k : A -> M B) :
  total c -> (forall a, total (k a)) -> total (bind c k).
Proof.
  intros Hc Hk g. destruct (Hc g) as (a & g1 & Hrun).
  rewrite (bind_Normal _ _ _ _ _ Hrun). apply Hk.
Qed.

Lemma total_when (b : bool) (c : M unit) : total c -> total (when b c).
Proof. intros H. destruct b; [exact H | apply total_ret]. Qed.

Ltac total_step :=
  lazymatch goal with
  | |- total (bind _ _) => apply total_bind; [| intros]
  | |- total (ret _) => apply total_ret
  | |- total get => apply total_get
  | |- total (modify _) => apply total_modify
  | |- total (when _ _) => apply total_when
  | |- total updateDaenDisplay => apply total_ret
  | |- total (if ?b then _ else _) => destruct b
  | |- total (match ?x with _ => _ end) => destruct x
  end.

Lemma safe_total {A : Type} (c : M A) :
  total c -> advances (keeps sound) c -> safe c.
Proof.
  intros Ht Hk g Hs. destruct (Ht g) as (a & g' & Hrun).
  exists a, g'. split; [exact Hrun |]. specialize (Hk g Hs). rewrite Hrun in Hk. exact Hk.
Qed.

Lemma forEach_ok {A : Type} (Inv : Game.t -> Prop) (xs : list A) (body : A -> M unit) :
  (forall (x : A) (g : Game.t),
      x ∈ xs -> Inv g -> exists g' : Game.t, body x g = (Normal tt, g') /\ Inv g') ->
  forall g : Game.t,
    Inv g -> exists g' : Game.t, forEach xs body g = (Normal tt, g') /\ Inv g'.
Proof.
  induction xs as [| x xs IH]; intros Hbody g Hinv; [exists g; auto |].
  destruct (Hbody x g (list_elem_of_here _ _) Hinv) as (g1 & Hrun & Hinv1).
  cbn [forEach]. rewrite (bind_Normal _ _ _ _ _ Hrun).
  apply IH; [| exact Hinv1].
  intros y g0 Hy. apply Hbody. apply list_elem_of_further. exact Hy.
Qed.

Lemma heroAtCastle_ok (g : Game.t) (hs : list ref) :
  all_objects g hs -> exists b : bool, heroAtCastle hs g = (Normal b, g).
Proof.
  induction hs as [| h hs IH]; intros Hobj; [exists false; reflexivity |].
  apply Forall_cons in Hobj as [[u Hu] Hobj]. cbn [heroAtCastle].
  rewrite (bind_Normal _ _ _ _ _ (deref_Some g h u Hu)).
  destruct (Qle_bool (Unit.position u) 0); [exists true; reflexivity | apply IH; exact Hobj].
Qed.

(** *** What a sound state gives *)

Lemma sound_home (g : Game.t) (r : ref) (u : Unit.t) :
  sound g -> Game.heap g !! r = Some u ->
  exists l : Lane.t,
    home_lane g u = Some l
    /\ (0 <= Unit.lane u < Z.of_nat (length (Game.lanes g)))%Z
    /\ Game.lanes g !! Z.to_nat (Unit.lane u) = Some l
    /\ sound_lane g l /\ wf_lane l.
Proof.
  intros ((Hn & Hwf) & Hlanes & Hheap) Hu.
  destruct (Hheap r u Hu) as [Hin _]. rewrite <- Hn in Hin.
  destruct (at_index_Some (Game.lanes g) (Unit.lane u) Hin) as [l Hl].
  exists l. split; [exact Hl |]. split; [exact Hin |].
  apply at_index_lookup in Hl as [_ Hl]. split; [exact Hl |].
  split; [exact (proj1 (Forall_lookup _ _) Hlanes _ _ Hl) |].
  exact (proj1 (proj1 (Forall_lookup _ _) Hwf _ _ Hl)).
Qed.

Lemma hero_lists_insert (g : Game.t) (li : nat) (l l' : Lane.t) :
  Game.lanes g !! li = Some l -> Lane.heroes l' = Lane.heroes l ->
  hero_lists (Game.with_lanes (<[li := l']> (Game.lanes g)) g) = hero_lists g.
Proof.
  intros Hl Hh. unfold hero_lists. cbn [Game.lanes Game.with_lanes].
  change (map Lane.heroes) with (fmap (M := list) Lane.heroes).
  rewrite list_fmap_insert, Hh. apply list_insert_id.
  rewrite list_lookup_fmap, Hl. reflexivity.
Qed.

Lemma not_both (g : Game.t) (r : ref) :
  is_unit g minion_class r -> is_unit g hero_class r -> False.
Proof.
  intros (u & Hu & m & Hm) (u' & Hu' & h & Hh). rewrite Hu in Hu'. injection Hu' as <-.
  congruence.
Qed.

Section Safety.

Variable random : nat -> Q.

Lemma Unit_die_ok (g : Game.t) (self : ref) (u : Unit.t) :
  sound g -> Game.heap g !! self = Some u ->
  exists g' : Game.t,
    Unit_die random self g = (Normal tt, g')
    /\ (minion_class (Unit.cls u) -> hero_lists g' = hero_lists g).
Proof.
  intros Hs Hu.
  destruct (sound_home g self u Hs Hu) as (l & _ & Hin & Hl & (_ & Hm & _) & Hwf).
  unfold Unit_die. rewrite (bind_Normal _ _ _ _ _ (deref_Some g self u Hu)).
  destruct (Unit.cls u) as [c | c] eqn:Hc.
  - unfold Minion_die. rewrite (bind_Normal _ _ _ _ _ (deref_Some g self u Hu)).
    rewrite (bind_Normal _ _ _ _ _ (lanes_at_Some g (Unit.lane u) Hin)).
    destruct (removeMinion_run self (Unit.position u) l Hwf) as (l' & Hrun & _ & Hh & _).
    rewrite (on_lane_run g _ l l' tt _ Hl Hrun).
    eexists. split; [reflexivity |]. intros _. apply (hero_lists_insert g _ l l' Hl Hh).
  - unfold Hero_die. rewrite (bind_Normal _ _ _ _ _ (deref_Some g self u Hu)).
    rewrite (bind_Normal _ _ _ _ _ (lanes_at_Some g (Unit.lane u) Hin)).
    destruct (Lane_removeHero_run random g _ l self Hl (is_unit_object _ _ _ Hm))
      as (g' & Hrun & _); [eauto |].
    exists g'. split; [exact Hrun |]. intros (m & Hm'). discriminate.
Qed.

Lemma Unit_takeDamage_ok (g : Game.t) (self : ref) (u : Unit.t) (amount : Q) :
  sound g -> Game.heap g !! self = Some u ->
  exists (b : bool) (g' : Game.t),
    Unit_takeDamage random self amount g = (Normal b, g')
    /\ (minion_class (Unit.cls u) -> hero_lists g' = hero_lists g).
Proof.
  intros Hs Hu. unfold Unit_takeDamage.
  rewrite (bind_Normal _ _ _ _ _ (update_unit_with_unit g self u _ Hu)).
  set (u1 := Unit.with_health (Unit.health u - amount) u).
  assert (Hs1 : sound (with_unit self u1 g)) by (eapply sound_update; eauto).
  assert (Hu1 : Game.heap (with_unit self u1 g) !! self = Some u1)
    by (cbn; apply lookup_insert_eq).
  rewrite (bind_Normal _ _ _ _ _ (deref_Some _ self u1 Hu1)).
  destruct (Qle_bool (Unit.health u1) 0); [| eexists _, _; split; [reflexivity | auto]].
  rewrite (bind_Normal _ _ _ _ _ (update_unit_with_unit _ self u1 _ Hu1)).
  rewrite with_unit_twice.
  set (u2 := Unit.with_health 0 u1).
  assert (Hs2 : sound (with_unit self u2 g)) by (eapply sound_update; eauto).
  assert (Hu2 : Game.heap (with_unit self u2 g) !! self = Some u2)
    by (cbn; apply lookup_insert_eq).
  destruct (Unit_die_ok _ self u2 Hs2 Hu2) as (g' & Hrun & Hh).
  rewrite (bind_Normal _ _ _ _ _ Hrun).
  exists true, g'. split; [reflexivity |]. intros Hm. rewrite (Hh Hm). reflexivity.
Qed.

Lemma Unit_attack_ok (g : Game.t) (self target : ref) (s t : Unit.t) :
  sound g -> Game.heap g !! self = Some s -> Game.heap g !! target = Some t ->
  exists (b : bool) (g' : Game.t),
    Unit_attack random self target g = (Normal b, g')
    /\ (minion_class (Unit.cls t) -> hero_lists g' = hero_lists g).
Proof.
  intros Hs Hself Ht. unfold Unit_attack.
  assert (Hcan : Unit_canAttack self target g
                 = (Normal (Qle_bool (Qabs (Unit.position s - Unit.position t))
                              (Unit.attackRange s)), g)).
  { unfold Unit_canAttack.
    rewrite (bind_Normal _ _ _ _ _ (deref_Some g self s Hself)).
    rewrite (bind_Normal _ _ _ _ _ (deref_Some g target t Ht)). reflexivity. }
  rewrite (bind_Normal _ _ _ _ _ Hcan).
  destruct (Qle_bool _ _); cbn [negb]; [| eexists _, _; split; [reflexivity | auto]].
  rewrite (bind_Normal _ _ _ _ _ (deref_Some g self s Hself)).
  apply Unit_takeDamage_ok; assumption.
Qed.

Lemma after_attack (g g' : Game.t) (self target : ref) (b : bool) :
  sound g -> Unit_attack random self target g = (Normal b, g') ->
  sound g' /\ extends g g'.
Proof.
  intros Hs Hrun.
  pose proof (Unit_attack_sound random self target g Hs) as H1.
  pose proof (Unit_attack_extends random self target g) as H2.
  rewrite Hrun in H1, H2. auto.
Qed.

Lemma Minion_update_ok (g : Game.t) (self : ref) (u : Unit.t) (deltaTime : Q) :
  sound g -> Game.heap g !! self = Some u ->
  exists g' : Game.t, Minion_update random self deltaTime g = (Normal tt, g').
Proof.
  intros Hs Hu.
  destruct (sound_home g self u Hs Hu) as (l & Hhome & _ & _ & (Hh & _ & _) & _).
  pose proof (is_unit_object _ _ _ Hh) as Hobj.
  destruct (Minion_update_prefix random g self u l deltaTime Hu Hhome Hobj) as [Hu1 Hrun].
  rewrite Hrun. clear Hrun.
  pose proof (cooled_fields deltaTime u) as (_ & _ & Hlane & Hcls).
  set (u1 := cooled deltaTime u) in *. set (g1 := with_unit self u1 g) in *.
  assert (Hs1 : sound g1) by (eapply sound_update; eauto).
  pose proof (scanTargets_found g (Unit.position u) (Unit.attackRange u) (Lane.heroes l))
    as Hfound.
  assert (Hidle : exists g' : Game.t,
             (ret tt ;;
              let* s2 := deref self in
              when (Qlt_bool 0 (Unit.cooldown s2))
                (update_unit self
                   (fun u => Unit.with_cooldown (Unit.cooldown u - deltaTime) u))) g1
             = (Normal tt, g')).
  { rewrite bind_ret, (tick_cooldown_run _ self _ deltaTime Hu1). eauto. }
  destruct (scanTargets _ _ _ None None) as [t |]; [| exact Hidle].
  destruct (Qle_bool (Unit.attackCooldown u1) 0); [| exact Hidle].
  destruct Hfound as (tu & _ & Htu & _).
  assert (Htu1 : exists tu1, Game.heap g1 !! t = Some tu1).
  { destruct (extends_update g self u u1 Hu Hcls Hlane) as (_ & _ & H).
    destruct (H t tu Htu) as (tu1 & H1 & _). eauto. }
  destruct Htu1 as [tu1 Htu1].
  destruct (Unit_attack_ok g1 self t u1 tu1 Hs1 Hu1 Htu1) as (b & g2 & Hatt & _).
  destruct (after_attack _ _ _ _ _ Hs1 Hatt) as [Hs2 (_ & _ & He2)].
  destruct (He2 self u1 Hu1) as (u2 & Hu2 & _).
  rewrite !bind_bind, (bind_Normal _ _ _ _ _ Hatt).
  rewrite (bind_Normal _ _ _ _ _ (update_unit_with_unit _ self u2 _ Hu2)).
  erewrite tick_cooldown_run by (cbn; apply lookup_insert_eq). eauto.
Qed.

Lemma Unit_move_ok (g : Game.t) (self : ref) (u : Unit.t) (deltaTime direction : Q) :
  Game.heap g !! self = Some u ->
  exists g' : Game.t,
    Unit_move self deltaTime direction g = (Normal tt, g')
    /\ hero_lists g' = hero_lists g.
Proof.
  intros Hu. rewrite (Unit_move_run_any g self u deltaTime direction Hu).
  eexists. split; reflexivity.
Qed.

Lemma Hero_update_ok (g : Game.t) (self : ref) (u : Unit.t) (deltaTime : Q) :
  sound g -> Game.heap g !! self = Some u ->
  exists g' : Game.t,
    Hero_update random self deltaTime g = (Normal tt, g')
    /\ hero_lists g' = hero_lists g.
Proof.
  intros Hs Hu.
  destruct (sound_home g self u Hs Hu) as (l & Hhome & _ & _ & (_ & Hm & _) & _).
  pose proof (is_unit_object _ _ _ Hm) as Hobj.
  destruct (Hero_update_prefix random g self u l deltaTime Hu Hhome Hobj) as [Hu1 Hrun].
  rewrite Hrun. clear Hrun.
  pose proof (cooled_fields deltaTime u) as (_ & _ & Hlane & Hcls).
  set (u1 := cooled deltaTime u) in *. set (g1 := with_unit self u1 g) in *.
  assert (Hs1 : sound g1) by (eapply sound_update; eauto).
  assert (Hlists1 : hero_lists g1 = hero_lists g) by reflexivity.
  pose proof (scanTargets_found g (Unit.position u) (Unit.attackRange u) (Lane.minions l))
    as Hfound.
  destruct (scanTargets _ _ _ None None) as [t |].
  - destruct (Qle_bool (Unit.attackCooldown u1) 0); [| exists g1; auto].
    destruct Hfound as (tu & Hin & Htu & _).
    assert (Hkind : is_unit g minion_class t)
      by exact (proj1 (Forall_forall _ _) Hm t Hin).
    destruct (is_unit_extends g g1 _ t (extends_update g self u u1 Hu Hcls Hlane) Hkind)
      as (tu1 & Htu1 & Hk1).
    destruct (Unit_attack_ok g1 self t u1 tu1 Hs1 Hu1 Htu1) as (b & g2 & Hatt & Hlists2).
    destruct (after_attack _ _ _ _ _ Hs1 Hatt) as [Hs2 (_ & _ & He2)].
    destruct (He2 self u1 Hu1) as (u2 & Hu2 & _).
    rewrite (bind_Normal _ _ _ _ _ Hatt).
    rewrite (update_unit_with_unit _ self u2 _ Hu2).
    eexists. split; [reflexivity |].
    change (hero_lists (with_unit self _ g2)) with (hero_lists g2).
    rewrite (Hlists2 Hk1). exact Hlists1.
  - destruct (Unit_move_ok g1 self u1 deltaTime (Unit.direction u1) Hu1) as (g' & Hmove & Hl').
    exists g'. split; [exact Hmove | congruence].
Qed.

Lemma Unit_update_ok (g : Game.t) (self : ref) (u : Unit.t) (deltaTime : Q) :
  sound g -> Game.heap g !! self = Some u ->
  exists g' : Game.t,
    Unit_update random self deltaTime g = (Normal tt, g')
    /\ (hero_class (Unit.cls u) -> hero_lists g' = hero_lists g).
Proof.
  intros Hs Hu. unfold Unit_update.
  rewrite (bind_Normal _ _ _ _ _ (deref_Some g self u Hu)).
  assert (Hminion : forall g' : Game.t,
             hero_class (MinionOf Ashling) -> hero_lists g' = hero_lists g)
    by (intros g' (h & Hh); discriminate).
  destruct (Unit.cls u) as [[| | | |] | [| |]] eqn:Hc.
  - destruct (Minion_update_ok g self u deltaTime Hs Hu) as (g' & Hrun).
    exists g'. split; [exact Hrun |]. intros (h & Hh). discriminate.
  - destruct (Minion_update_ok g self u deltaTime Hs Hu) as (g' & Hrun).
    exists g'. split; [exact Hrun |]. intros (h & Hh). discriminate.
  - exists g. split; [reflexivity |]. intros (h & Hh). discriminate.
  - unfold DaemonAltar_update.
    rewrite (bind_Normal _ _ _ _ _ (update_unit_with_unit g self u _ Hu)).
    erewrite (bind_Normal (deref self)) by (apply deref_Some; cbn; apply lookup_insert_eq).
    destruct (Qle_bool daenPulseRate _).
    + rewrite bind_modify. unfold updateDaenDisplay. rewrite bind_ret.
      erewrite update_unit_run by (cbn; apply lookup_insert_eq).
      eexists. split; [reflexivity |]. intros (h & Hh). discriminate.
    + eexists. split; [reflexivity |]. intros (h & Hh). discriminate.
  - destruct (Minion_update_ok g self u deltaTime Hs Hu) as (g' & Hrun).
    exists g'. split; [exact Hrun |]. intros (h & Hh). discriminate.
  - destruct (Hero_update_ok g self u deltaTime Hs Hu) as (g' & Hrun & Hl).
    exists g'. auto.
  - destruct (Hero_update_ok g self u deltaTime Hs Hu) as (g' & Hrun & Hl).
    exists g'. auto.
  - unfold Oathblade_update.
    rewrite (bind_Normal _ _ _ _ _ (update_unit_with_unit g self u _ Hu)).
    set (u0 := Unit.with_attackSpeed _ u).
    assert (Hs0 : sound (with_unit self u0 g)) by (eapply sound_update; eauto).
    assert (Hu0 : Game.heap (with_unit self u0 g) !! self = Some u0)
      by (cbn; apply lookup_insert_eq).
    destruct (Hero_update_ok _ self u0 deltaTime Hs0 Hu0) as (g' & Hrun & Hl).
    exists g'. split; [exact Hrun |]. intros _. rewrite Hl. reflexivity.
Qed.

End Safety.
Section LaneSafety.

Variable random : nat -> Q.

Lemma sound_lane_at (g : Game.t) (li : nat) (l : Lane.t) :
  sound g -> Game.lanes g !! li = Some l ->
  sound_lane g l /\ Z.of_nat (length (Lane.tiles l)) = Game.tileCount g.
Proof.
  intros ((_ & Hwf) & Hlanes & _) Hl.
  split; [exact (proj1 (Forall_lookup _ _) Hlanes _ _ Hl) |].
  destruct (proj1 (Forall_lookup _ _) Hwf _ _ Hl) as [H1 H2]. unfold wf_lane in H1. lia.
Qed.

Lemma sound_lane_count (g : Game.t) : sound g -> Z.of_nat (length (Game.lanes g)) = Game.laneCount g.
Proof. intros ((Hn & _) & _). exact Hn. Qed.

Lemma Tile_update_ok (g : Game.t) (li i : nat) (l : Lane.t) (deltaTime : Q) :
  sound g -> Game.lanes g !! li = Some l -> (i < length (Lane.tiles l))%nat ->
  exists g' : Game.t, Tile_update random li i deltaTime g = (Normal tt, g').
Proof.
  intros Hs Hl Hi. unfold Tile_update.
  rewrite (bind_Normal _ _ _ _ _ (read_lane_Some g li l Hl)).
  destruct (lookup_lt_is_Some_2 _ _ Hi) as [tile Htile]. rewrite Htile.
  destruct (Tile.minion tile) as [m |] eqn:Hm; [| exists g; reflexivity].
  destruct (sound_lane_at g li l Hs Hl) as [(_ & _ & Htiles) _].
  destruct (proj1 (Forall_lookup _ _) Htiles _ _ Htile m Hm) as (mu & Hmu & _).
  destruct (Unit_update_ok random g m mu deltaTime Hs Hmu) as (g' & Hrun & _).
  eauto.
Qed.

Lemma Lane_update_ok (g : Game.t) (li : nat) (deltaTime : Q) :
  sound g -> (li < length (Game.lanes g))%nat ->
  exists g' : Game.t, Lane_update random li deltaTime g = (Normal tt, g').
Proof.
  intros Hs Hli. destruct (lookup_lt_is_Some_2 _ _ Hli) as [l Hl].
  unfold Lane_update. rewrite (bind_Normal _ _ _ _ _ (read_lane_Some g li l Hl)).
  destruct (sound_lane_at g li l Hs Hl) as [_ Hwidth].
  pose proof (sound_lane_count g Hs) as Hcount.
  (* the tiles *)
  destruct (forEach_ok (fun g1 => sound g1 /\ extends g g1)
              (seq 0 (length (Lane.tiles l)))
              (fun i => Tile_update random li i deltaTime)) with (g := g)
    as (g1 & Htiles & Hs1 & He1).
  { intros i g1 Hi [Hs1 He1]. apply elem_of_seq in Hi.
    pose proof He1 as (Hlc & Htc & _).
    pose proof (sound_lane_count g1 Hs1) as Hcount1.
    destruct (lookup_lt_is_Some_2 (Game.lanes g1) li ltac:(lia)) as [l1 Hl1].
    destruct (sound_lane_at g1 li l1 Hs1 Hl1) as [_ Hwidth1].
    destruct (Tile_update_ok g1 li i l1 deltaTime Hs1 Hl1 ltac:(lia)) as (g2 & Hrun).
    exists g2. split; [exact Hrun |].
    pose proof (Tile_update_sound random li i deltaTime g1 Hs1) as Hk.
    pose proof (Tile_update_extends random li i deltaTime g1) as He.
    rewrite Hrun in Hk, He. split; [exact Hk | etransitivity; eassumption]. }
  { split; [exact Hs | reflexivity]. }
  rewrite (bind_Normal _ _ _ _ _ Htiles).
  (* the heroes *)
  pose proof He1 as (Hlc & _ & _).
  pose proof (sound_lane_count g1 Hs1) as Hcount1.
  destruct (lookup_lt_is_Some_2 (Game.lanes g1) li ltac:(lia)) as [l1 Hl1].
  rewrite (bind_Normal _ _ _ _ _ (read_lane_Some g1 li l1 Hl1)).
  destruct (forEach_ok (fun gx => sound gx /\ hero_lists gx = hero_lists g1)
              (rev (seq 0 (length (Lane.heroes l1))))
              (fun i =>
                 let* l2 := read_lane li in
                 match Lane.heroes l2 !! i with
                 | Some h => Unit_update random h deltaTime
                 | None => throw (TypeError "this.heroes[i] is undefined")
                 end)) with (g := g1)
    as (g2 & Hheroes & _).
  { intros i gx Hi [Hsx Hlists].
    apply list_elem_of_In, in_rev, list_elem_of_In, elem_of_seq in Hi.
    assert (Hlx : exists lx, Game.lanes gx !! li = Some lx /\ Lane.heroes lx = Lane.heroes l1).
    { assert (Hh : hero_lists g1 !! li = Some (Lane.heroes l1)).
      { unfold hero_lists. change (map Lane.heroes) with (fmap (M := list) Lane.heroes).
        rewrite list_lookup_fmap, Hl1. reflexivity. }
      rewrite <- Hlists in Hh. unfold hero_lists in Hh.
      change (map Lane.heroes) with (fmap (M := list) Lane.heroes) in Hh.
      rewrite list_lookup_fmap in Hh.
      destruct (Game.lanes gx !! li) as [lx |]; [| discriminate].
      exists lx. cbn in Hh. split; [reflexivity | congruence]. }
    destruct Hlx as (lx & Hlx & Hsame).
    rewrite (bind_Normal _ _ _ _ _ (read_lane_Some gx li lx Hlx)), Hsame.
    destruct (lookup_lt_is_Some_2 (Lane.heroes l1) i ltac:(lia)) as [h Hh]. rewrite Hh.
    destruct (sound_lane_at gx li lx Hsx Hlx) as [(Hhs & _ & _) _].
    rewrite Hsame in Hhs.
    destruct (proj1 (Forall_lookup _ _) Hhs _ _ Hh) as (hu & Hhu & Hkind).
    destruct (Unit_update_ok random gx h hu deltaTime Hsx Hhu) as (g' & Hrun & Hl').
    exists g'. split; [exact Hrun |].
    pose proof (Unit_update_sound random h deltaTime gx Hsx) as Hk. rewrite Hrun in Hk.
    split; [exact Hk |]. rewrite (Hl' Hkind). exact Hlists. }
  { split; [exact Hs1 | reflexivity]. }
  exists g2. exact Hheroes.
Qed.

Lemma lanes_update_ok (deltaTime : Q) (n : nat) :
  forall g : Game.t,
    sound g -> (n <= length (Game.lanes g))%nat ->
    exists g' : Game.t,
      forEach (seq 0 n) (fun li => Lane_update random li deltaTime) g = (Normal tt, g')
      /\ sound g'.
Proof.
  intros g Hs Hn.
  destruct (forEach_ok (fun g1 => sound g1 /\ extends g g1) (seq 0 n)
              (fun li => Lane_update random li deltaTime)) with (g := g)
    as (g' & Hrun & Hs' & _).
  { intros li g1 Hi [Hs1 He1]. apply elem_of_seq in Hi.
    pose proof He1 as (Hlc & _ & _).
    pose proof (sound_lane_count g1 Hs1) as Hcount1.
    pose proof (sound_lane_count g Hs) as Hcount.
    destruct (Lane_update_ok g1 li deltaTime Hs1 ltac:(lia)) as (g2 & Hrun).
    exists g2. split; [exact Hrun |].
    pose proof (Lane_update_sound random li deltaTime g1 Hs1) as Hk.
    pose proof (Lane_update_extends random li deltaTime g1) as He.
    rewrite Hrun in Hk, He. split; [exact Hk | etransitivity; eassumption]. }
  { split; [exact Hs | reflexivity]. }
  eauto.
Qed.

End LaneSafety.
(** *** Creating units *)

Lemma extends_new (g g' : Game.t) (u : Unit.t) :
  sound g -> Game.heap g' = <[Game.nextRef g := u]> (Game.heap g) ->
  Game.laneCount g' = Game.laneCount g -> Game.tileCount g' = Game.tileCount g ->
  extends g g'.
Proof.
  intros (_ & _ & Hheap) Hh Hlc Htc. split; [exact Hlc |]. split; [exact Htc |].
  intros r u0 Hu0. destruct (Hheap r u0 Hu0) as [_ Hlt].
  rewrite Hh, lookup_insert_ne by lia. eauto.
Qed.

(** A unit created by [new] and put in one container of a lane. *)
Lemma sound_new_unit (g g' : Game.t) (li : nat) (l l' : Lane.t) (u : Unit.t) :
  sound g -> Game.lanes g !! li = Some l ->
  Game.heap g' = <[Game.nextRef g := u]> (Game.heap g) ->
  Game.lanes g' = <[li := l']> (Game.lanes g) ->
  Game.nextRef g' = S (Game.nextRef g) ->
  Game.laneCount g' = Game.laneCount g -> Game.tileCount g' = Game.tileCount g ->
  Unit.lane u = Z.of_nat li ->
  Lane.tileCount l' = Lane.tileCount l -> length (Lane.tiles l') = length (Lane.tiles l) ->
  (sound_lane g' l -> sound_lane g' l') ->
  sound g'.
Proof.
  intros Hs Hl Hh Hlanes Hn Hlc Htc Hlane Hw Hlen Hsl.
  pose proof (extends_new g g' u Hs Hh Hlc Htc) as He.
  pose proof Hs as ((Hcount & Hwf) & Hall & Hheap).
  split; [| split].
  - split; [rewrite Hlanes, length_insert, Hlc; exact Hcount |].
    rewrite Hlanes, Htc. apply Forall_insert; [exact Hwf |].
    destruct (proj1 (Forall_lookup _ _) Hwf _ _ Hl) as [H1 H2].
    unfold wf_lane in *. split; congruence.
  - rewrite Hlanes. apply Forall_insert.
    + eapply Forall_impl; [exact Hall |]. intros l0. apply sound_lane_extends. exact He.
    + apply Hsl. eapply sound_lane_extends; [exact He |].
      exact (proj1 (Forall_lookup _ _) Hall _ _ Hl).
  - intros r u0. rewrite Hh, Hn, Hlc.
    destruct (decide (r = Game.nextRef g)) as [-> | Hne].
    + rewrite lookup_insert_eq. intros [= <-]. rewrite Hlane.
      apply lookup_lt_Some in Hl. split; lia.
    + rewrite lookup_insert_ne by congruence. intros Hu0.
      destruct (Hheap r u0 Hu0). split; [assumption | lia].
Qed.

Lemma spawnHeroInLane_invalid (random : nat -> Q) (g : Game.t) (laneIndex : Z)
    (options : SpawnOptions) :
  at_index (Game.lanes g) laneIndex = None ->
  spawnHeroInLane random laneIndex options g = (Normal None, g).
Proof.
  intros Hl. unfold spawnHeroInLane. rewrite bind_get.
  unfold at_index in Hl.
  destruct (Z.ltb_spec laneIndex 0) as [Hneg | Hpos]; [reflexivity |].
  apply lookup_ge_None in Hl.
  destruct (Z.geb_spec laneIndex (Z.of_nat (length (Game.lanes g)))) as [_ | Hlt];
    [reflexivity | lia].
Qed.

Lemma spawnHeroInLane_sound (random : nat -> Q) (laneIndex : Z) (options : SpawnOptions) :
  advances (keeps sound) (spawnHeroInLane random laneIndex options).
Proof.
  intros g Hs.
  destruct (at_index (Game.lanes g) laneIndex) as [l |] eqn:Hl;
    [| rewrite (spawnHeroInLane_invalid random g laneIndex options Hl); exact Hs].
  apply at_index_lookup in Hl as [Hpos Hl].
  destruct (spawnHeroInLane_valid random g laneIndex options l Hpos Hl)
    as (c & u & g' & Hrun & Hh & Hlanes & Hn & Hspawned & _ & _ & Hlc & Htc & _).
  rewrite Hrun. cbn [snd].
  destruct Hspawned as (Hcls & Hlane & _).
  apply (sound_new_unit g g' _ l (Lane.addHero (Game.nextRef g) l) u Hs Hl Hh Hlanes Hn Hlc Htc);
    [rewrite Hlane; lia | reflexivity | reflexivity |].
  intros (H1 & H2 & H3). split; [| split; assumption]. cbn.
  apply Forall_app. split; [exact H1 |]. constructor; [| constructor].
  exists u. rewrite Hh, lookup_insert_eq. split; [reflexivity |]. exists c. exact Hcls.
Qed.

Lemma placeMinionAt_valid_state (g : Game.t) (laneIndex tileIndex : Z) :
  wf_game g -> valid_request g laneIndex tileIndex ->
  exists (c : MinionClass) (l l' : Lane.t) (g' : Game.t),
    placeMinionAt laneIndex tileIndex g
    = (Throw (TypeError "this.playSound is not a function"), g')
    /\ Game.lanes g !! Z.to_nat laneIndex = Some l
    /\ (0 <= laneIndex)%Z
    /\ Lane.placeMinion (Game.nextRef g) tileIndex l = (Normal true, l')
    /\ Game.heap g'
       = <[Game.nextRef g := new_Minion c laneIndex (inject_Z tileIndex)]> (Game.heap g)
    /\ Game.lanes g' = <[Z.to_nat laneIndex := l']> (Game.lanes g)
    /\ Game.nextRef g' = S (Game.nextRef g)
    /\ Game.laneCount g' = Game.laneCount g
    /\ Game.tileCount g' = Game.tileCount g.
Proof.
  intros Hwf Hv.
  pose proof (canPlaceMinion_valid g laneIndex tileIndex Hv) as Hcan.
  destruct (placeMinionAt_valid g laneIndex tileIndex Hwf Hv)
    as (c & l & l' & _ & Hc & _ & _ & Hl & Hplace & _).
  destruct Hv as (Hli & _).
  exists c, l, l'. eexists. split.
  - unfold placeMinionAt.
    rewrite (bind_Normal _ _ g g true Hcan). cbn [negb].
    rewrite bind_get, Hc.
    destruct Hwf as [Hcount _].
    rewrite (bind_Normal _ _ g g _ (lanes_at_Some g laneIndex ltac:(lia))).
    rewrite (bind_Normal _ _ _ _ _ (new_object_run _ _)).
    erewrite (bind_Normal (on_lane _ _) _ _ _ true).
    2: { eapply on_lane_run; [cbn; exact Hl | exact Hplace]. }
    cbv iota. rewrite bind_modify.
    unfold updateDaenDisplay. rewrite bind_ret.
    apply bind_Throw. reflexivity.
  - game_fields. repeat split; try reflexivity; try assumption; lia.
Qed.

Lemma placeMinionAt_sound (laneIndex tileIndex : Z) :
  advances (keeps sound) (placeMinionAt laneIndex tileIndex).
Proof.
  intros g Hs. pose proof Hs as (Hwf & _).
  destruct (canPlaceMinion_total g laneIndex tileIndex) as [b Hb].
  destruct b.
  - apply canPlaceMinion_true in Hb.
    destruct (placeMinionAt_valid_state g laneIndex tileIndex Hwf Hb)
      as (c & l & l' & g' & Hrun & Hl & Hpos & Hplace & Hh & Hlanes & Hn & Hlc & Htc).
    rewrite Hrun. cbn [snd].
    destruct (placeMinion_inv l l' _ tileIndex Hplace) as (tile & _ & Htile & _ & ->).
    apply (sound_new_unit g g' _ l _ _ Hs Hl Hh Hlanes Hn Hlc Htc).
    + destruct c; cbn; lia.
    + reflexivity.
    + cbn. apply length_insert.
    + intros (H1 & H2 & H3).
      assert (Hnew : is_unit g' minion_class (Game.nextRef g)).
      { eexists. rewrite Hh, lookup_insert_eq. split; [reflexivity |].
        exists c. destruct c; reflexivity. }
      split; [exact H1 |]. split; cbn.
      * apply Forall_app. split; [exact H2 |]. constructor; [exact Hnew | constructor].
      * apply Forall_insert; [exact H3 |]. cbn. intros m [= <-]. exact Hnew.
  - assert (Hrun : placeMinionAt laneIndex tileIndex g = (Normal false, g)).
    { unfold placeMinionAt. rewrite (bind_Normal _ _ _ _ _ Hb). reflexivity. }
    rewrite Hrun. exact Hs.
Qed.

Lemma restart_sound : advances (keeps sound) restart.
Proof.
  intros g Hs. pose proof (restart_wf_game g (proj1 Hs)) as Hwf.
  destruct Hs as (_ & _ & Hheap).
  split; [exact Hwf |]. split; [| exact Hheap].
  unfold restart, initializeLanes, updateDaenDisplay, bind, modify, ret. cbn.
  apply Forall_forall. intros l Hin.
  apply list_elem_of_fmap in Hin as (i & -> & _).
  split; [constructor |]. split; [constructor |]. cbn.
  apply Forall_forall. intros tile Ht.
  apply list_elem_of_fmap in Ht as (j & -> & _). cbn. discriminate.
Qed.

Lemma sound_new : sound Game_new.
Proof.
  split; [exact wf_game_new |]. split.
  - cbn. repeat constructor; cbn; discriminate.
  - intros r u Hu. cbn in Hu. rewrite lookup_empty in Hu. discriminate.
Qed.

(** *** Frames and ticks *)

Ltac core_leaf :=
  first
    [ apply (advances_pure (keeps sound)); intros; apply heroAtCastle_pure
    | unfold advances, keeps, Math_random; intros; cbn [snd];
      eapply sound_core; [.. | eassumption]; reflexivity ].

Lemma spawnNextHero_sound (random : nat -> Q) : advances (keeps sound) (spawnNextHero random).
Proof.
  unfold spawnNextHero, triggerOnslaught, showFloatingText, setTimeout_spawnNextHero.
  repeat advance_step; first [apply spawnHeroInLane_sound | core_leaf].
Qed.

Lemma update_sound (random : nat -> Q) (deltaTime : Q) :
  advances (keeps sound) (update random deltaTime).
Proof.
  unfold update, spawnWave, startWave, calculateHeroCount, areAllHeroesDead,
    checkGameOver, areAllHeroesDead, startNextWavePreparation, showFloatingText.
  repeat advance_step;
    first [apply spawnNextHero_sound | apply Lane_update_sound | core_leaf].
Qed.

Lemma play_event_sound (random : nat -> Q) (e : PlayEvent) :
  advances (keeps sound) (play_event random e).
Proof.
  destruct e; cbn [play_event].
  - apply update_sound.
  - unfold runTimeout. repeat advance_step; first [apply spawnNextHero_sound | core_leaf].
  - unfold selectMinion. repeat advance_step; core_leaf.
  - repeat advance_step. apply placeMinionAt_sound.
  - apply restart_sound.
Qed.

Lemma Math_random_total (random : nat -> Q) : total (Math_random random).
Proof. intros g. eexists _, _. reflexivity. Qed.

Lemma spawnNextHero_total (random : nat -> Q) : total (spawnNextHero random).
Proof.
  unfold spawnNextHero, triggerOnslaught, showFloatingText, setTimeout_spawnNextHero.
  repeat total_step; try apply Math_random_total.
  intros g. destruct (spawnHeroInLane_total random g
                        (Qfloor (a0 * inject_Z (Game.laneCount a))) no_spawn_options)
    as (r & g' & Hrun & _).
  eauto.
Qed.

Lemma spawnWave_total (random : nat -> Q) : total (spawnWave random no_wave_options).
Proof.
  unfold spawnWave, startWave, calculateHeroCount, showFloatingText.
  cbn [no_wave_options opt_isBossWave opt_heroCount opt_spawnDelay opt_waveType
       opt_waveNumber].
  repeat total_step; apply spawnNextHero_total.
Qed.

Lemma areAllHeroesDead_total : total areAllHeroesDead.
Proof.
  unfold areAllHeroesDead, startNextWavePreparation, showFloatingText.
  repeat total_step.
Qed.

Lemma checkGameOver_ok (g : Game.t) :
  sound g -> exists g' : Game.t, checkGameOver g = (Normal tt, g').
Proof.
  intros Hs. unfold checkGameOver. rewrite bind_get.
  assert (Hobj : all_objects g (concat (map Lane.heroes (Game.lanes g)))).
  { destruct Hs as (_ & Hlanes & _). unfold all_objects.
    apply Forall_forall. intros h Hin.
    apply list_elem_of_In, in_concat in Hin as (hs & Hhs & Hh).
    apply in_map_iff in Hhs as (l & <- & Hl).
    apply list_elem_of_In in Hl, Hh.
    destruct (proj1 (Forall_forall _ _) Hlanes l Hl) as (Hheroes & _).
    destruct (proj1 (Forall_forall _ _) Hheroes h Hh) as (u & Hu & _). eauto. }
  destruct (heroAtCastle_ok g _ Hobj) as [lost Hlost].
  rewrite (bind_Normal _ _ _ _ _ Hlost).
  destruct lost; [eexists; reflexivity |].
  destruct (Game.waveNumber g >=? 10)%Z; [| eexists; reflexivity].
  destruct (areAllHeroesDead_total g) as (dead & g1 & Hdead).
  rewrite (bind_Normal _ _ _ _ _ Hdead).
  destruct dead; eexists; reflexivity.
Qed.

Lemma update_ok (random : nat -> Q) (deltaTime : Q) (g : Game.t) :
  sound g -> exists g' : Game.t, update random deltaTime g = (Normal tt, g').
Proof.
  intros Hs. unfold update. rewrite bind_get.
  destruct (Game.gameOver g || Game.isPaused g)%bool; [eexists; reflexivity |].
  rewrite bind_modify. unfold updateDaenDisplay at 1. rewrite bind_ret.
  set (g0 := Game.with_daen _ g).
  assert (Hs0 : sound g0) by (eapply sound_core; [.. | exact Hs]; reflexivity).
  clearbody g0.
  (* the wave scheduler *)
  assert (Hwave : safe
    (if Game.isPreparingNextWave g then
       modify (fun g => Game.with_preparationTimer (Game.preparationTimer g - deltaTime) g) ;;
       let* g1 := get in
       if Qle_bool (Game.preparationTimer g1) 0 then
         modify (Game.with_isPreparingNextWave false) ;;
         spawnWave random no_wave_options
       else ret tt
     else
       modify (fun g => Game.with_waveTimer (Game.waveTimer g + deltaTime) g) ;;
       let* g1 := get in
       if (Qle_bool (Game.waveInterval g1) (Game.waveTimer g1)
           && (Game.heroesInWave g1 =? 0)%Z)%bool
       then
         modify (Game.with_waveTimer 0) ;;
         spawnWave random no_wave_options
       else ret tt)).
  { apply safe_total.
    - repeat total_step; apply spawnWave_total.
    - unfold spawnWave, startWave, calculateHeroCount, showFloatingText.
      repeat advance_step; first [apply spawnNextHero_sound | core_leaf]. }
  destruct (Hwave g0 Hs0) as (r & g1 & Hrun1 & Hs1).
  rewrite (bind_Normal _ _ _ _ _ Hrun1), bind_get.
  destruct (lanes_update_ok random deltaTime (length (Game.lanes g1)) g1 Hs1 (le_n _))
    as (g2 & Hrun2 & Hs2).
  rewrite (bind_Normal _ _ _ _ _ Hrun2).
  destruct (safe_total areAllHeroesDead areAllHeroesDead_total) with (g := g2)
    as (dead & g3 & Hrun3 & Hs3); [| exact Hs2 |].
  { unfold areAllHeroesDead, startNextWavePreparation, showFloatingText.
    repeat advance_step; core_leaf. }
  rewrite (bind_Normal _ _ _ _ _ Hrun3).
  apply checkGameOver_ok. exact Hs3.
Qed.

Lemma play_event_ok (random : nat -> Q) (e : PlayEvent) (g : Game.t) :
  no_placement e -> sound g ->
  exists g' : Game.t, play_event random e g = (Normal tt, g').
Proof.
  destruct e; cbn [play_event no_placement]; intros Hno Hs; try contradiction.
  - apply update_ok. exact Hs.
  - unfold runTimeout. rewrite bind_get.
    destruct (Game.timeouts g); [eexists; reflexivity |].
    rewrite bind_modify.
    destruct (spawnNextHero_total random (Game.with_timeouts l g)) as ([] & g' & Hrun).
    eauto.
  - eexists. reflexivity.
  - eexists. reflexivity.
Qed.



(** X20.  The engine does not throw.  From a sound state, any sequence
    of frames, spawn callbacks, selections and restarts runs to its end with
    every call completing normally: no unit, lane or tile that [update] and
    the methods it calls reach for is ever [undefined].  (The one throw of
    the game is the one of [placeMinionAt].) *)
Theorem engine_never_throws (random : nat -> Q) (events : list PlayEvent) (g : Game.t)
    (Hsound : sound g)
    (Hevents : Forall no_placement events) :
  forEach events (play_event random) g = (Normal tt, play random events g).
Proof.
  revert g Hsound. induction Hevents as [| e rest He _ IH]; intros g Hs; [reflexivity |].
  cbn [forEach play].
  destruct (play_event_ok random e g He Hs) as (g' & Hrun).
  pose proof (play_event_sound random e g Hs) as Hs'.
  rewrite (bind_Normal _ _ _ _ _ Hrun). rewrite Hrun in Hs' |- *. cbn [snd] in *.
  apply IH. exact Hs'.
Qed.

(** A witness of [engine_never_throws]: the first wave of the new game,
    two spawn callbacks and two more frames. *)
Lemma engine_never_throws_witness :
  fst (forEach [Tick 30000; Timeout; Timeout; Tick 16; Tick 16] (play_event quarter) Game_new)
  = Normal tt.
Proof.
  rewrite (engine_never_throws quarter _ Game_new sound_new); [reflexivity |].
  repeat constructor.
Defined.

(** ** The castle is watched *)










(** *** The frame *)












(** ** Defenders stay where they were placed *)

Lemma position_of_insert_ne (self r : ref) (x : Unit.t) (g : Game.t) :
  r <> self ->
  position_of self (Game.with_heap (<[r := x]> (Game.heap g)) g) = position_of self g.
Proof.
  intros Hne. unfold position_of. cbn [Game.heap Game.with_heap].
  rewrite lookup_insert_ne by exact Hne. reflexivity.
Qed.

Ltac position_leaf :=
  first
    [ apply Unit_attack_position
    | intros; reflexivity
    | reflexivity
    | apply position_of_insert; [intros x; reflexivity | assumption]
    | apply position_of_insert_ne; congruence ].

Lemma Hero_update_position (random : nat -> Q) (r self : ref) (deltaTime : Q) :
  r <> self -> preserves (position_of r) (Hero_update random self deltaTime).
Proof.
  intros Hne. unfold Hero_update, Hero_findTarget, positions_of, Unit_move.
  repeat frame_step; position_leaf.
Qed.

Lemma Oathblade_update_position (random : nat -> Q) (r self : ref) (deltaTime : Q) :
  r <> self -> preserves (position_of r) (Oathblade_update random self deltaTime).
Proof.
  intros Hne. unfold Oathblade_update.
  repeat frame_step; first [apply Hero_update_position; exact Hne | position_leaf].
Qed.

(** The update of any unit leaves a defender where it stands. *)
Lemma Unit_update_stands (random : nat -> Q) (r : ref) (p : Q) (self : ref) (deltaTime : Q) :
  advances (keeps (stands_at r p)) (Unit_update random self deltaTime).
Proof.
  intros g [Hm Hp]. split.
  - exact (is_unit_extends _ _ _ _ (Unit_update_extends random self deltaTime g) Hm).
  - rewrite <- Hp. unfold Unit_update.
    destruct (Game.heap g !! self) as [u |] eqn:Hu.
    2: { erewrite bind_Throw; [reflexivity |]. unfold deref. rewrite Hu. reflexivity. }
    rewrite (bind_Normal _ _ _ _ _ (deref_Some g self u Hu)).
    assert (Hne : forall c : HeroClass, Unit.cls u = HeroOf c -> r <> self).
    { intros c Hc ->. destruct Hm as (u0 & Hu0 & [m Hcls]). congruence. }
    destruct (Unit.cls u) as [c | c] eqn:Hcls; destruct c.
    + apply Minion_update_position.
    + apply Minion_update_position.
    + reflexivity.
    + apply DaemonAltar_update_position.
    + apply Minion_update_position.
    + apply Hero_update_position. exact (Hne _ eq_refl).
    + apply Hero_update_position. exact (Hne _ eq_refl).
    + apply Oathblade_update_position. exact (Hne _ eq_refl).
Qed.

Lemma Lane_update_stands (random : nat -> Q) (r : ref) (p : Q) (li : nat) (deltaTime : Q) :
  advances (keeps (stands_at r p)) (Lane_update random li deltaTime).
Proof.
  unfold Lane_update, Tile_update.
  repeat advance_step;
    first [apply Unit_update_stands | unfold advances, keeps; intros; assumption].
Qed.

Lemma keeps_both {A : Type} (I J : Game.t -> Prop) (c : M A) :
  advances (keeps I) c -> advances (keeps J) c ->
  advances (keeps (fun g => I g /\ J g)) c.
Proof. intros HI HJ g [Hi Hj]. split; [apply HI; exact Hi | apply HJ; exact Hj]. Qed.

Lemma stands_core (r : ref) (p : Q) (g g' : Game.t) :
  Game.heap g' !! r = Game.heap g !! r -> stands_at r p g -> stands_at r p g'.
Proof.
  intros Hh. unfold stands_at, is_unit, position_of. rewrite Hh. auto.
Qed.

Lemma anchored_core (r : ref) (p : Q) (g g' : Game.t) :
  Game.heap g' = Game.heap g -> Game.lanes g' = Game.lanes g ->
  Game.nextRef g' = Game.nextRef g -> Game.laneCount g' = Game.laneCount g ->
  Game.tileCount g' = Game.tileCount g ->
  sound g /\ stands_at r p g -> sound g' /\ stands_at r p g'.
Proof.
  intros Hh Hl Hn Hlc Htc [Hs Hst].
  split; [exact (sound_core g g' Hh Hl Hn Hlc Htc Hs) |].
  apply (stands_core r p g g'); [rewrite Hh; reflexivity | exact Hst].
Qed.

(** A unit created by [new] leaves the others in the heap as they were. *)
Lemma anchored_new (r : ref) (p : Q) (g g' : Game.t) (u : Unit.t) :
  sound g -> Game.heap g' = <[Game.nextRef g := u]> (Game.heap g) ->
  stands_at r p g -> stands_at r p g'.
Proof.
  intros (_ & _ & Hheap) Hh Hst. apply (stands_core r p g g'); [| exact Hst].
  destruct Hst as [(u0 & Hu0 & _) _]. destruct (Hheap r u0 Hu0) as [_ Hlt].
  rewrite Hh, lookup_insert_ne by lia. reflexivity.
Qed.

Lemma spawnHeroInLane_anchored (random : nat -> Q) (r : ref) (p : Q) (laneIndex : Z)
    (options : SpawnOptions) :
  advances (keeps (fun g => sound g /\ stands_at r p g))
    (spawnHeroInLane random laneIndex options).
Proof.
  intros g [Hs Hst].
  split; [exact (spawnHeroInLane_sound random laneIndex options g Hs) |].
  destruct (at_index (Game.lanes g) laneIndex) as [l |] eqn:Hl;
    [| rewrite (spawnHeroInLane_invalid random g laneIndex _ Hl); exact Hst].
  apply at_index_lookup in Hl as [Hpos Hl].
  destruct (spawnHeroInLane_valid random g laneIndex options l Hpos Hl)
    as (c & u & g' & Hrun & Hh & _).
  rewrite Hrun. exact (anchored_new r p g g' u Hs Hh Hst).
Qed.

Lemma placeMinionAt_anchored (r : ref) (p : Q) (laneIndex tileIndex : Z) :
  advances (keeps (fun g => sound g /\ stands_at r p g))
    (placeMinionAt laneIndex tileIndex).
Proof.
  intros g [Hs Hst]. pose proof Hs as (Hwf & _).
  split; [exact (placeMinionAt_sound laneIndex tileIndex g Hs) |].
  destruct (canPlaceMinion_total g laneIndex tileIndex) as [b Hb].
  destruct b.
  - apply canPlaceMinion_true in Hb.
    destruct (placeMinionAt_valid_state g laneIndex tileIndex Hwf Hb)
      as (c & l & l' & g' & Hrun & _ & _ & _ & Hh & _).
    rewrite Hrun. exact (anchored_new r p g g' _ Hs Hh Hst).
  - assert (Hrun : placeMinionAt laneIndex tileIndex g = (Normal false, g)).
    { unfold placeMinionAt. rewrite (bind_Normal _ _ _ _ _ Hb). reflexivity. }
    rewrite Hrun. exact Hst.
Qed.

Ltac anchored_leaf :=
  first
    [ lazymatch goal with
      | |- advances ?R _ => apply (advances_pure R); intros; apply heroAtCastle_pure
      end
    | unfold advances, keeps, Math_random; intros; cbn [snd];
      eapply anchored_core; [.. | eassumption]; reflexivity ].

Lemma Lane_update_anchored (random : nat -> Q) (r : ref) (p : Q) (li : nat) (deltaTime : Q) :
  advances (keeps (fun g => sound g /\ stands_at r p g)) (Lane_update random li deltaTime).
Proof. apply keeps_both; [apply Lane_update_sound | apply Lane_update_stands]. Qed.

Lemma spawnNextHero_anchored (random : nat -> Q) (r : ref) (p : Q) :
  advances (keeps (fun g => sound g /\ stands_at r p g)) (spawnNextHero random).
Proof.
  unfold spawnNextHero, triggerOnslaught, showFloatingText, setTimeout_spawnNextHero.
  repeat advance_step; first [apply spawnHeroInLane_anchored | anchored_leaf].
Qed.

Lemma update_anchored (random : nat -> Q) (r : ref) (p : Q) (deltaTime : Q) :
  advances (keeps (fun g => sound g /\ stands_at r p g)) (update random deltaTime).
Proof.
  unfold update, spawnWave, startWave, calculateHeroCount, areAllHeroesDead,
    checkGameOver, areAllHeroesDead, startNextWavePreparation, showFloatingText.
  repeat advance_step;
    first [apply spawnNextHero_anchored | apply Lane_update_anchored | anchored_leaf].
Qed.

Lemma play_event_anchored (random : nat -> Q) (r : ref) (p : Q) (e : PlayEvent) :
  advances (keeps (fun g => sound g /\ stands_at r p g)) (play_event random e).
Proof.
  destruct e; cbn [play_event].
  - apply update_anchored.
  - unfold runTimeout. repeat advance_step; first [apply spawnNextHero_anchored | anchored_leaf].
  - unfold selectMinion. repeat advance_step; anchored_leaf.
  - repeat advance_step; first [apply placeMinionAt_anchored | anchored_leaf].
  - intros g [Hs Hst]. split; [exact (restart_sound g Hs) |].
    apply (stands_core r p g); [reflexivity | exact Hst].
Qed.

(** X22.  A defender never moves.  In a sound state, a unit of a defender
    class stands at its position after any frames, spawn callbacks,
    selections, placement requests and restarts, whether they complete or
    throw, and also after its death: its object keeps the position, for
    [Unit.move] is the only assignment to [position] and only the update of
    a hero calls it, on that hero. *)
Theorem defender_never_moves (random : nat -> Q) (events : list PlayEvent) (g : Game.t)
    (r : ref) (u : Unit.t)
    (Hsound : sound g)
    (Hr : Game.heap g !! r = Some u)
    (Hcls : minion_class (Unit.cls u)) :
  position_of r (play random events g) = Some (Unit.position u).
Proof.
  assert (H : sound g /\ stands_at r (Unit.position u) g).
  { split; [exact Hsound |]. split; [exists u; auto |].
    unfold position_of. rewrite Hr. reflexivity. }
  clear Hsound Hr Hcls. revert g H.
  induction events as [| e rest IH]; intros g H; cbn [play]; [exact (proj2 (proj2 H)) |].
  apply IH. exact (play_event_anchored random r _ e g H).
Qed.

(** A witness of [defender_never_moves]: the Daemon Altar of
    [altar_field], on tile 5, through the start of the first wave, a spawn
    callback and a frame of 100 seconds that ends the game. *)
Lemma defender_never_moves_witness :
  position_of 0%nat (play quarter [Tick 30000; Timeout; Tick 100000] altar_field) = Some 5.
Proof.
  assert (Hs : sound altar_field).
  { apply placeMinionAt_sound.
    eapply sound_core; [.. | exact sound_new]; reflexivity. }
  destruct (Game.heap altar_field !! 0%nat) as [u |] eqn:Hu;
    [| vm_compute in Hu; discriminate].
  assert (Hp : Unit.position u = 5)
    by (vm_compute in Hu; injection Hu as <-; reflexivity).
  rewrite <- Hp.
  apply (defender_never_moves quarter _ altar_field 0%nat u Hs Hu).
  exists DaemonAltar. vm_compute in Hu. injection Hu as <-. reflexivity.
Defined.
(** ** Tidy states *)

Lemma tile_kept_trans (a b c : Tile.t) : tile_kept a b -> tile_kept b c -> tile_kept a c.
Proof.
  intros (H1 & H2 & H3) (H4 & H5 & H6).
  split; [congruence |]. split; [congruence |].
  destruct H6 as [H6 | H6]; [| right; exact H6].
  destruct H3 as [H3 | H3]; [left | right]; congruence.
Qed.

Lemma lane_shrinks_trans (a b c : Lane.t) :
  lane_shrinks a b -> lane_shrinks b c -> lane_shrinks a c.
Proof.
  intros (H1 & H2 & H3 & H4 & H5) (K1 & K2 & K3 & K4 & K5).
  split; [congruence |]. split; [congruence |].
  split; [exact (Forall2_trans _ _ _ _ _ _ tile_kept_trans H3 K3) |].
  split; etransitivity; eassumption.
Qed.

#[global] Instance lanes_shrink_preorder : PreOrder lanes_shrink.
Proof.
  split.
  - intros g. apply Forall_Forall2_diag, Forall_forall. intros l _. apply lane_shrinks_refl.
  - intros a b c Hab Hbc.
    exact (Forall2_trans _ _ _ _ _ _ lane_shrinks_trans Hab Hbc).
Qed.




















